(** * Semantic data binding of seaborn's [_oldcore] module

    A shallow embedding of the type classifier ([variable_type]), the level
    order ([categorical_order]), the hue and size mappings and, of the
    plotter, the grouped iteration ([iter_data]) and the categorical scaling
    ([scale_categorical]), with the properties the design document states
    about them; then of more of the module: the dash and marker generators
    ([unique_dashes], [unique_markers]), the orientation ([infer_orient]),
    the rest of the size mapping, the style mapping and the selection of the
    semantic variables ([get_semantics]), with properties read off the code.

    Python objects are embedded as follows.
    - A scalar cell of a vector is a [value]; a finite float is carried as
      an exact rational, so rounding is outside the model.
    - A pandas Series, numpy array or Python list is a [vector]: its storage
      dtype and its cells.
    - A dict keyed by data values is an association list in insertion
      order, looked up with the hash-table equality [key_eqb].
    - A dict keyed by role names ("x", "hue", ...) is a [gmap string _].
    - A DataFrame is an object: the store holds the contents of the tables,
      a reference [loc] names one, and a method runs in the state monad [M]
      over the store and the plotter.
    - An exception is the [Raise] result of a computation.
    - A generator is run to its end and gives the list of what it yields.
    - Matplotlib, the palette generator and the conversions of pandas that a
      method calls are the members of the classes [Matplotlib], [Palettes]
      and [Runtime]; every property below holds for all of their instances. *)

From Stdlib Require Import ZArith QArith Qfield Lqa String List Bool Lia.
From stdpp Require Import base option list strings pretty gmap.

Local Open Scope Z_scope.
Local Open Scope string_scope.
Local Open Scope list_scope.

(** ** Scalars *)

Inductive value : Type :=
  | VNone                 (* None *)
  | VNaN                  (* float("nan"), np.nan *)
  | VNaT                  (* pd.NaT, np.datetime64("NaT") *)
  | VBool (b : bool)
  | VInt (z : Z)
  | VFloat (q : Q)        (* a finite float *)
  | VStr (s : string)
  | VDate (t : Z).        (* datetime / np.datetime64, as an ordinal *)

(** The number a value denotes in arithmetic and comparisons
    ([True == 1 == 1.0] in Python). *)
Definition num_of (v : value) : option Q :=
  match v with
  | VBool b => Some (if b then 1%Q else 0%Q)
  | VInt z => Some (inject_Z z)
  | VFloat q => Some q
  | _ => None
  end.

(** Python's [==]: numbers compare by value, NaN and NaT are equal to
    nothing, not even themselves. *)
Definition py_eq (a b : value) : bool :=
  match num_of a, num_of b with
  | Some x, Some y => Qeq_bool x y
  | None, None =>
      match a, b with
      | VNone, VNone => true
      | VStr s, VStr t => String.eqb s t
      | VDate s, VDate t => Z.eqb s t
      | _, _ => false
      end
  | _, _ => false
  end.

(** Equality of hash-table keys (dict, set, [pd.unique], group-by): as [==],
    except that a missing-value marker is found again under itself. *)
Definition key_eqb (a b : value) : bool :=
  match a, b with
  | VNaN, VNaN => true
  | VNaT, VNaT => true
  | _, _ => py_eq a b
  end.

(** A canonical form of a value as a key: two values are one key exactly
    when their forms are the same. *)
Definition key_repr (v : value) : value :=
  match num_of v with
  | Some q => VFloat (Qred q)
  | None => v
  end.

(** No two positions of [l] hold the same key. *)
Definition distinct_keys (l : list value) : Prop :=
  forall i j a b, l !! i = Some a -> l !! j = Some b -> key_eqb a b = true -> i = j.

(** [pd.isna] / [pd.notnull] on a scalar. *)
Definition isna (v : value) : bool :=
  match v with
  | VNone | VNaN | VNaT => true
  | _ => false
  end.

Definition notnull (v : value) : bool := negb (isna v).

(** Truth value of a scalar ([bool(v)]), as [any] tests it. *)
Definition truthy (v : value) : bool :=
  match v with
  | VNone => false
  | VBool b => b
  | VInt z => negb (Z.eqb z 0)
  | VFloat q => negb (Qeq_bool q 0)
  | VStr s => negb (String.eqb s "")
  | VNaN | VNaT | VDate _ => true
  end.

(** [isinstance(v, Number)]: bool, int and float (NaN is a float). *)
Definition is_Number (v : value) : bool :=
  match v with
  | VBool _ | VInt _ | VFloat _ | VNaN => true
  | _ => false
  end.

(** [isinstance(v, (datetime, np.datetime64))]. *)
Definition is_datetime (v : value) : bool :=
  match v with
  | VDate _ | VNaT => true
  | _ => false
  end.

(** ** Exceptions *)

Inductive exn : Type :=
  | ValueError (msg : string)
  | TypeError
  | KeyError
  | AttributeError
  | ReferenceError.       (* a reference to no object; no run reaches it *)

Inductive result (A : Type) : Type :=
  | Ok (a : A)
  | Raise (e : exn).
Arguments Ok {A} a.
Arguments Raise {A} e.

(** [result] is a monad; [x ← c; k] runs [c] and stops at the first
    exception. *)
#[global] Instance result_ret : MRet result := fun A a => Ok a.
#[global] Instance result_bind : MBind result := fun A B k r =>
  match r with
  | Ok a => k a
  | Raise e => Raise e
  end.

(** ** Vectors *)

Inductive dtype : Type :=
  | DCategory (categories : list value)   (* pd.CategoricalDtype *)
  | DNumeric                              (* bool, int, float storage *)
  | DDatetime                             (* datetime64 storage *)
  | DObject.                              (* object storage, Python lists *)

Record vector : Type := Vector { vdtype : dtype; cells : list value }.

Definition is_categorical_dtype (v : vector) : bool :=
  match vdtype v with DCategory _ => true | _ => false end.

Definition is_numeric_dtype (v : vector) : bool :=
  match vdtype v with DNumeric => true | _ => false end.

Definition is_datetime64_dtype (v : vector) : bool :=
  match vdtype v with DDatetime => true | _ => false end.

(** [np.isin(x, test)] on one cell: [x == t] for some [t] of [test]. *)
Definition np_isin (x : value) (test : list value) : bool :=
  existsb (py_eq x) test.

(** ** The type classifier: [VariableType] and [variable_type] *)

Inductive VariableType : Type := numeric | datetime | categorical.

Definition VariableType_eqb (a b : VariableType) : bool :=
  match a, b with
  | numeric, numeric | datetime, datetime | categorical, categorical => true
  | _, _ => false
  end.

Definition all_numeric (x : list value) : bool := forallb is_Number x.
Definition all_datetime (x : list value) : bool := forallb is_datetime x.

Definition variable_type (vector : vector) (boolean_type : VariableType)
  : VariableType :=
  (* If a categorical dtype is set, infer categorical *)
  if is_categorical_dtype vector then categorical
  (* Special-case all-na data, which is always "numeric" *)
  else if forallb isna (cells vector) then numeric
  (* Special-case binary/boolean data, allow caller to determine *)
  else if forallb (fun x => np_isin x [VInt 0; VInt 1; VNaN]) (cells vector)
  then boolean_type
  (* Defer to positive pandas tests *)
  else if is_numeric_dtype vector then numeric
  else if is_datetime64_dtype vector then datetime
  (* Otherwise check the entries *)
  else if all_numeric (cells vector) then numeric
  else if all_datetime (cells vector) then datetime
  else categorical.

(** A cell that is exactly 0 or 1. *)
Definition is01 (x : value) : bool := py_eq x (VInt 0) || py_eq x (VInt 1).

(** ** Unique values and sorting *)

(** [Series.unique] / [pd.unique]: the distinct cells in first-seen order,
    found with a hash table ([seen] is what the table already holds). *)
Fixpoint unique_from (seen : list value) (l : list value) : list value :=
  match l with
  | [] => []
  | x :: l' =>
      if existsb (key_eqb x) seen then unique_from seen l'
      else x :: unique_from (x :: seen) l'
  end.

Definition unique (l : list value) : list value := unique_from [] l.

(** Values that [<] can order against each other come in three kinds;
    ordering across kinds, or ordering [None], is a [TypeError]. *)
Inductive sort_kind : Type := KNumber | KString | KDate.

Definition kind_of (v : value) : option sort_kind :=
  match v with
  | VBool _ | VInt _ | VFloat _ | VNaN => Some KNumber
  | VStr _ => Some KString
  | VDate _ | VNaT => Some KDate
  | VNone => None
  end.

Definition sort_kind_eqb (a b : sort_kind) : bool :=
  match a, b with
  | KNumber, KNumber | KString, KString | KDate, KDate => true
  | _, _ => false
  end.

(** [a <= b] within one kind; missing markers sort last, as numpy does. *)
Definition sort_le (a b : value) : bool :=
  match a, b with
  | VStr s, VStr t => String.leb s t
  | VDate s, VDate t => Z.leb s t
  | VDate _, VNaT => true
  | VNaT, VDate _ => false
  | _, _ =>
      match num_of a, num_of b with
      | Some x, Some y => Qle_bool x y
      | Some _, None => true
      | None, Some _ => false
      | None, None => true
      end
  end.

Section StableSort.
Context {A : Type} (le : A -> A -> bool).

Fixpoint insert_sorted (x : A) (l : list A) : list A :=
  match l with
  | [] => [x]
  | y :: l' => if le x y then x :: l else y :: insert_sorted x l'
  end.

(** A stable sort: equal elements keep their order. *)
Definition stable_sort (l : list A) : list A := foldr insert_sorted [] l.
End StableSort.

Definition same_kind (l : list value) : bool :=
  match l with
  | [] => true
  | x :: _ =>
      match kind_of x with
      | Some k =>
          forallb (fun y => match kind_of y with
                            | Some k' => sort_kind_eqb k k'
                            | None => false
                            end) l
      | None => false
      end
  end.

(** [np.sort] / [sorted] of a sequence of scalars. Fewer than two elements
    need no comparison. Missing markers come last, as numpy sorts a float
    array. On an object array numpy compares with [<], under which NaN is
    below and above nothing: where such an array holds NaN next to other
    numbers, the place of its elements depends on numpy's sorting algorithm
    and is not the one given here. The properties below that speak of the
    order of levels leave that case out. *)
Definition np_sort (l : list value) : result (list value) :=
  if (length l <=? 1)%nat then Ok l
  else if same_kind l then Ok (stable_sort sort_le l)
  else Raise TypeError.

(** ** Level order: [categorical_order] *)

Definition categorical_order (vector : vector) (order : option (list value))
  : result (list value) :=
  match order with
  | Some order => Ok order
  | None =>
      order ←
        match vdtype vector with
        | DCategory categories => Ok categories
        | _ =>
            let order := unique (cells vector) in
            if VariableType_eqb (variable_type vector numeric) numeric
            then np_sort order
            else Ok order
        end;
      Ok (List.filter notnull order)
  end.

(** ** Dicts keyed by data values *)

(** Insertion-ordered association list; a key is found with [key_eqb]. *)
Definition dict (V : Type) : Type := list (value * V).

Fixpoint dict_get {V} (d : dict V) (key : value) : option V :=
  match d with
  | [] => None
  | (k, v) :: d' => if key_eqb k key then Some v else dict_get d' key
  end.

(** [d[key] = v]: overwrite in place, or append a new entry. *)
Fixpoint dict_set {V} (d : dict V) (key : value) (v : V) : dict V :=
  match d with
  | [] => [(key, v)]
  | (k, v') :: d' =>
      if key_eqb k key then (k, v) :: d' else (k, v') :: dict_set d' key v
  end.

(** [dict(pairs)]. *)
Definition dict_of {V} (pairs : list (value * V)) : dict V :=
  foldl (fun d kv => dict_set d kv.1 kv.2) [] pairs.

Definition dict_keys {V} (d : dict V) : list value := map fst d.

(** [set(xs) - set(ys)], as the list of the members of [xs] outside [ys]. *)
Definition set_difference (xs ys : list value) : list value :=
  List.filter (fun x => negb (existsb (key_eqb x) ys)) xs.

(** [any(xs)]: some element is truthy. *)
Definition any (xs : list value) : bool := existsb truthy xs.

(** ** Colors *)

Inductive color : Type :=
  | CTuple (channels : list Q)     (* an RGB or RGBA tuple *)
  | CName (name : string).         (* a named or hex color *)

(** The tuple [(0, 0, 0, 0)]. *)
Definition transparent : color := CTuple [0%Q; 0%Q; 0%Q; 0%Q].

(** ** Tables *)

(** A DataFrame: named, typed columns and labelled rows; the cells of a row
    stand in column order. *)
Record row : Type := Row { label : value; rcells : list value }.
Record table : Type := Table { columns : list (string * dtype); rows : list row }.

Definition col_names (t : table) : list string := map fst (columns t).

Fixpoint index_of (name : string) (names : list string) : option nat :=
  match names with
  | [] => None
  | n :: names' =>
      if String.eqb n name then Some 0%nat else S <$> index_of name names'
  end.

Definition col_pos (t : table) (name : string) : option nat :=
  index_of name (col_names t).

Definition has_column (t : table) (name : string) : bool :=
  bool_decide (is_Some (col_pos t name)).

Definition cell (j : nat) (r : row) : value := nth j (rcells r) VNaN.

(** [t[name]]. *)
Definition get_column (t : table) (name : string) : result vector :=
  match col_pos t name with
  | Some j =>
      match columns t !! j with
      | Some (_, dt) => Ok (Vector dt (map (cell j) (rows t)))
      | None => Raise KeyError
      end
  | None => Raise KeyError
  end.

(** [t.get(name, pd.Series(dtype=float))]. *)
Definition get_column_default (t : table) (name : string) : vector :=
  match get_column t name with
  | Ok v => v
  | Raise _ => Vector DNumeric []
  end.

Definition set_cells (f : nat -> row -> list value) (rs : list row) : list row :=
  imap (fun i r => Row (label r) (f i r)) rs.

(** [t[name] = v] with [v] on the index of [t]: replace the column where it
    stands, or append it. *)
Definition set_column (t : table) (name : string) (v : vector) : table :=
  match col_pos t name with
  | Some j =>
      Table (<[j := (name, vdtype v)]> (columns t))
            (set_cells (fun i r => <[j := nth i (cells v) VNaN]> (rcells r)) (rows t))
  | None =>
      Table (columns t ++ [(name, vdtype v)])
            (set_cells (fun i r => rcells r ++ [nth i (cells v) VNaN]) (rows t))
  end.

(** [t[name] = scalar]: the scalar in every row. *)
Definition set_column_scalar (t : table) (name : string) (dt : dtype) (x : value)
  : table :=
  set_column t name (Vector dt (map (fun _ => x) (rows t))).

(** [t.dropna()]: the rows without a missing cell. *)
Definition table_dropna (t : table) : table :=
  Table (columns t) (List.filter (fun r => forallb notnull (rcells r)) (rows t)).

(** [t.loc[[]]]: the columns of [t] and no row. *)
Definition loc_empty (t : table) : table := Table (columns t) [].

(** [t.empty]: no row or no column. *)
Definition empty (t : table) : bool :=
  match rows t, columns t with
  | [], _ | _, [] => true
  | _, _ => false
  end.

(** Order of two cells under [sort_values]: missing cells last. *)
Definition cell_le (a b : value) : bool :=
  if isna a then isna b else if isna b then true else sort_le a b.

(** [t.sort_values(name, kind="mergesort")]: a stable sort of the rows on one
    column; the non-missing cells must be of one kind to be compared. *)
Definition sort_values (t : table) (name : string) : result table :=
  match col_pos t name with
  | None => Raise KeyError
  | Some j =>
      let present := List.filter notnull (map (cell j) (rows t)) in
      if (length present <=? 1)%nat || same_kind present
      then Ok (Table (columns t)
                     (stable_sort (fun r s => cell_le (cell j r) (cell j s)) (rows t)))
      else Raise TypeError
  end.

(** The rows of [t] that a group-by on the columns at [js] files under
    [key]: every key cell is present and equal to the key's level. *)
Definition in_group (js : list nat) (key : list value) (r : row) : bool :=
  forallb (fun jk => notnull (cell jk.1 r) && key_eqb (cell jk.1 r) jk.2)
          (zip js key).

(** [itertools.product] of the sequences: the first one varies slowest. *)
Fixpoint product {A} (seqs : list (list A)) : list (list A) :=
  match seqs with
  | [] => [[]]
  | s :: seqs' => flat_map (fun x => map (cons x) (product seqs')) s
  end.

(** [dict(zip(names, key))] for role names. *)
Definition dict_zip (names : list string) (key : list value) : gmap string value :=
  foldl (fun m kv => <[kv.1 := kv.2]> m) ∅ (zip names key).

(** ** Collaborators outside the module *)

(** Matplotlib's colormaps, normalizers and axis converters. A scaled number
    is [None] where matplotlib yields NaN or a masked entry. *)
Class Matplotlib : Type := {
  Colormap : Type;
  Normalize : Type;
  (* mpl.colors.ListedColormap(colors) *)
  ListedColormap : list color -> Colormap;
  (* mpl.colors.Normalize(vmin, vmax) *)
  Normalize_new : option value -> option value -> Normalize;
  (* norm.scaled() *)
  scaled : Normalize -> bool;
  (* norm(data) on a normalizer without limits: takes them from the data *)
  autoscale : Normalize -> list value -> result Normalize;
  (* norm(x) on one value *)
  norm_call : Normalize -> value -> result (option Q);
  (* cmap(x) on one scaled number *)
  cmap_call : Colormap -> option Q -> color;
  (* converter.convert_units(levels) for the first converter of an axis *)
  convert_units : string -> list value -> result (list value);
  (* mpl.dates.date2num(levels) *)
  date2num : list value -> result (list value);
  (* np.log10(levels) *)
  log10 : list value -> result (list value);
  (* VectorPlotter._log_scaled(axis), which asks the attached axes *)
  _log_scaled : string -> result bool;
  (* the converted column that comp_data builds for x or y from the plot
     data column and the recorded levels *)
  comp_column : string -> vector -> option (option (list value)) -> result vector
}.

(** The palette argument of a hue mapping. *)
Inductive palette_spec `{Matplotlib} : Type :=
  | PName (name : string)
  | PDict (d : dict color)
  | PList (l : list color)
  | PColormap (c : Colormap)
  | PTuple (l : list color).

(** The norm argument of a mapping, and what a mapping keeps as its norm. *)
Inductive norm_spec `{Matplotlib} : Type :=
  | NTuple (vmin vmax : value)
  | NObject (n : Normalize)
  | NOther.

(** Modelled from the spec: seaborn's palette generator and color cycle
    ([palettes.QUAL_PALETTES], [palettes.color_palette],
    [utils.get_color_cycle]) are not part of the sources at hand; the design
    document gives them as "given a count or name, returns a sequence of
    colors" and "-> continuous colormap". *)
Class Palettes `{Matplotlib} : Type := {
  (* the names of the qualitative palettes *)
  QUAL_PALETTES : list string;
  (* color_palette(palette, n_colors) *)
  color_palette : option palette_spec -> nat -> result (list color);
  (* color_palette(palette, as_cmap=True) *)
  color_palette_as_cmap : palette_spec -> result Colormap;
  (* get_color_cycle() *)
  get_color_cycle : list color
}.

(** What pandas and the Python runtime decide. *)
Class Runtime : Type := {
  (* pd.to_numeric(vector) *)
  to_numeric : vector -> result vector;
  (* str(x) for a finite float x *)
  float_str : Q -> string;
  (* str(t) for a datetime t *)
  date_str : Z -> string;
  (* the order in which a for loop runs through a set with these members;
     it varies with the hash seed *)
  set_iter : list string -> list string;
  (* the values of pd.Index(values) where pandas converts them to the dtype
     it infers; it depends on the version of pandas *)
  Index_infer : list value -> list value
}.

(** [str(v)], which [astype(str)] applies to each cell. *)
Definition py_str `{Runtime} (v : value) : string :=
  match v with
  | VNone => "None"
  | VNaN => "nan"
  | VNaT => "NaT"
  | VBool b => if b then "True" else "False"
  | VInt z => pretty z
  | VFloat q => float_str q
  | VStr s => s
  | VDate t => date_str t
  end.

(** Modelled from the spec: [utils.remove_na] is not part of the sources at
    hand; levels are "unique non-null values". *)
Definition remove_na (l : list value) : list value := List.filter notnull l.

(** Modelled from the spec: [utils._check_argument] is not part of the
    sources at hand; [scale_categorical] takes an axis "in {x, y}". *)
Definition _check_argument (param : string) (options : list string) (v : string)
  : result unit :=
  if existsb (String.eqb v) options then Ok tt
  else Raise (ValueError ("invalid value for " +:+ param)).

(** [np.isnan(key)]: defined on numbers only. *)
Definition np_isnan (key : value) : result bool :=
  match key with
  | VNaN => Ok true
  | VBool _ | VInt _ | VFloat _ => Ok false
  | _ => Raise TypeError
  end.

(** [np.linspace(start, stop, num)]: [num] evenly spaced samples, the last
    one set to [stop]. Division by zero (for [num = 1]) leaves [start]. *)
Definition linspace (start stop : Q) (num : nat) : list Q :=
  let div := (num - 1)%nat in
  let step := ((stop - start) / inject_Z (Z.of_nat div))%Q in
  let y := map (fun i => (inject_Z (Z.of_nat i) * step + start)%Q) (seq 0 num) in
  if (1 <? num)%nat then <[div := stop]> y else y.

(** ** The plotter and the object store *)

(** Tables are objects: a [loc] names one, the store holds their contents.
    Two references to one table are one [loc]. *)
Definition loc : Type := nat.

Inductive input_format_t : Type := wide | long.

Definition input_format_eqb (a b : input_format_t) : bool :=
  match a, b with
  | wide, wide | long, long => true
  | _, _ => false
  end.

(** [o is None]. *)
Definition is_None {A} (o : option A) : bool :=
  match o with
  | None => true
  | Some _ => false
  end.

Record VectorPlotter : Type := Plotter {
  plot_data : loc;
  (* role -> name of its source, or None *)
  variables : gmap string (option string);
  var_types : gmap string VariableType;
  input_format : input_format_t;
  _var_levels : gmap string (option (list value));
  _var_ordered : gmap string bool;
  (* the [levels] of the [_hue_map], [_size_map], [_style_map] objects that
     are set on the plotter, by role *)
  map_levels : gmap string (option (list value));
  _default_size_range : Q * Q;
  (* hasattr(self, "ax") *)
  has_ax : bool;
  (* the cached [_comp_data], once computed *)
  _comp_data : option loc
}.

Definition set_plot_data (l : loc) (p : VectorPlotter) : VectorPlotter :=
  Plotter l (variables p) (var_types p) (input_format p) (_var_levels p)
          (_var_ordered p) (map_levels p) (_default_size_range p) (has_ax p)
          (_comp_data p).

Definition set_variables (m : gmap string (option string)) (p : VectorPlotter)
  : VectorPlotter :=
  Plotter (plot_data p) m (var_types p) (input_format p) (_var_levels p)
          (_var_ordered p) (map_levels p) (_default_size_range p) (has_ax p)
          (_comp_data p).

Definition set_var_types (m : gmap string VariableType) (p : VectorPlotter)
  : VectorPlotter :=
  Plotter (plot_data p) (variables p) m (input_format p) (_var_levels p)
          (_var_ordered p) (map_levels p) (_default_size_range p) (has_ax p)
          (_comp_data p).

Definition set_var_levels (m : gmap string (option (list value)))
  (p : VectorPlotter) : VectorPlotter :=
  Plotter (plot_data p) (variables p) (var_types p) (input_format p) m
          (_var_ordered p) (map_levels p) (_default_size_range p) (has_ax p)
          (_comp_data p).

Definition set_var_ordered (m : gmap string bool) (p : VectorPlotter)
  : VectorPlotter :=
  Plotter (plot_data p) (variables p) (var_types p) (input_format p)
          (_var_levels p) m (map_levels p) (_default_size_range p) (has_ax p)
          (_comp_data p).

Definition set_comp_data (c : option loc) (p : VectorPlotter) : VectorPlotter :=
  Plotter (plot_data p) (variables p) (var_types p) (input_format p)
          (_var_levels p) (_var_ordered p) (map_levels p)
          (_default_size_range p) (has_ax p) c.

(** The state a method runs in: the store of tables and the plotter. *)
Record world : Type := World { heap : list table; self : VectorPlotter }.

(** A method: reads and updates the state, returns or raises. *)
Definition M (A : Type) : Type := world -> result (A * world).

#[global] Instance M_ret : MRet M := fun A a w => Ok (a, w).
#[global] Instance M_bind : MBind M := fun A B k c w =>
  match c w with
  | Ok (a, w') => k a w'
  | Raise e => Raise e
  end.

Definition raise {A} (e : exn) : M A := fun _ => Raise e.
Definition lift {A} (r : result A) : M A := fun w =>
  match r with
  | Ok a => Ok (a, w)
  | Raise e => Raise e
  end.

Definition get_self : M VectorPlotter := fun w => Ok (self w, w).
Definition modify_self (f : VectorPlotter -> VectorPlotter) : M unit :=
  fun w => Ok (tt, World (heap w) (f (self w))).

(** Contents of the table at [l]. *)
Definition read (l : loc) : M table := fun w =>
  match heap w !! l with
  | Some t => Ok (t, w)
  | None => Raise ReferenceError
  end.

(** A new table object with contents [t]. *)
Definition alloc (t : table) : M loc := fun w =>
  Ok (length (heap w), World (heap w ++ [t]) (self w)).

(** In-place change of the table at [l]. *)
Definition write (l : loc) (t : table) : M unit := fun w =>
  match heap w !! l with
  | Some _ => Ok (tt, World (<[l := t]> (heap w)) (self w))
  | None => Raise ReferenceError
  end.

(** ** [HueMapping] *)

Module HueMapping.
Section Collaborators.
Context `{Mpl : Matplotlib} `{Pal : !Palettes} `{Rt : Runtime}.

Record t : Type := Build {
  map_type : option VariableType;
  levels : option (list value);
  lookup_table : option (dict color);
  palette : option palette_spec;
  norm : option norm_spec;
  cmap : option Colormap
}.

(** The class attributes, which an instance keeps when no hue is assigned. *)
Definition unset : t := Build None None None None None None.

(** [palette in QUAL_PALETTES]: only a name can be in the list. *)
Definition in_QUAL_PALETTES (palette : option palette_spec) : bool :=
  match palette with
  | Some (PName name) => existsb (String.eqb name) QUAL_PALETTES
  | _ => false
  end.

Definition is_dict_or_list (palette : option palette_spec) : bool :=
  match palette with
  | Some (PDict _) | Some (PList _) => true
  | _ => false
  end.

Definition infer_map_type (palette : option palette_spec)
  (norm : option norm_spec) (input_format : input_format_t)
  (var_type : VariableType) : VariableType :=
  if in_QUAL_PALETTES palette then categorical
  else if negb (is_None norm) then numeric
  else if is_dict_or_list palette then categorical
  else if input_format_eqb input_format wide then categorical
  else var_type.

Definition categorical_mapping (data : vector) (palette : option palette_spec)
  (order : option (list value)) : result (list value * dict color) :=
  (* Identify the order and name of the levels *)
  levels ← categorical_order data order;
  let n_colors := length levels in
  (* Identify the set of colors to use *)
  match palette with
  | Some (PDict palette) =>
      let missing := set_difference levels (dict_keys palette) in
      if any missing
      then Raise (ValueError "The palette dictionary is missing keys")
      else Ok (levels, palette)
  | _ =>
      colors ←
        match palette with
        | None =>
            if (n_colors <=? length get_color_cycle)%nat
            then color_palette None n_colors
            else color_palette (Some (PName "husl")) n_colors
        | Some (PList palette) =>
            if negb (length palette =? n_colors)%nat
            then Raise (ValueError "The palette list has the wrong number of colors.")
            else Ok palette
        | _ => color_palette palette n_colors
        end;
      Ok (levels, dict_of (zip levels colors))
  end.

Definition numeric_mapping (data : vector) (palette : option palette_spec)
  (norm : option norm_spec)
  : result (list value * dict color * option norm_spec * Colormap) :=
  match palette with
  | Some (PDict palette) =>
      (* The presence of a norm object overrides a dictionary of hues *)
      levels ← np_sort (dict_keys palette);
      let colors := omap (dict_get palette) levels in
      Ok (levels, palette, norm, ListedColormap colors)
  | _ =>
      (* The levels are the sorted unique values in the data *)
      levels ← np_sort (remove_na (unique (cells data)));
      let palette := default (PName "ch:") palette in
      cmap ←
        match palette with
        | PColormap c => Ok c
        | _ => color_palette_as_cmap palette
        end;
      (* Now sort out the data normalization *)
      norm ←
        match norm with
        | None => Ok (Normalize_new None None)
        | Some (NTuple vmin vmax) => Ok (Normalize_new (Some vmin) (Some vmax))
        | Some (NObject n) => Ok n
        | Some NOther =>
            Raise (ValueError "``hue_norm`` must be None, tuple, or Normalize object.")
        end;
      norm ←
        (if negb (scaled norm) then autoscale norm (List.filter notnull (cells data))
         else Ok norm);
      normed ← mapM (norm_call norm) levels;
      Ok (levels, dict_of (zip levels (map (cmap_call cmap) normed)),
          Some (NObject norm), cmap)
  end.

(** [HueMapping(plotter, palette, order, norm)]; the warning about an
    ignored palette is not part of the result. *)
Definition __init__ (palette : option palette_spec) (order : option (list value))
  (norm : option norm_spec) : M t :=
  plotter ← get_self;
  plot_data ← read (plot_data plotter);
  let data := get_column_default plot_data "hue" in
  if forallb isna (cells data) then mret unset
  else
    var_type ← lift (match var_types plotter !! "hue" with
                     | Some ty => Ok ty
                     | None => Raise KeyError
                     end);
    let map_type := infer_map_type palette norm (input_format plotter) var_type in
    match map_type with
    | numeric =>
        data ← lift (to_numeric data);
        '(levels, lookup_table, norm, cmap) ← lift (numeric_mapping data palette norm);
        mret (Build (Some map_type) (Some levels) (Some lookup_table) palette
                    norm (Some cmap))
    | categorical =>
        '(levels, lookup_table) ← lift (categorical_mapping data palette order);
        mret (Build (Some map_type) (Some levels) (Some lookup_table) palette
                    None None)
    | datetime =>
        (* Casting data to list *)
        '(levels, lookup_table) ←
          lift (categorical_mapping (Vector DObject (cells data)) palette order);
        mret (Build (Some map_type) (Some levels) (Some lookup_table) palette
                    None None)
    end.

(** [self.norm(key)]: only a normalizer object can be called. *)
Definition call_norm (norm : norm_spec) (key : value) : result (option Q) :=
  match norm with
  | NObject n => norm_call n key
  | _ => Raise TypeError
  end.

(** Get the color for a single value, using colormap to interpolate. *)
Definition _lookup_single (self : t) (key : value) : result color :=
  match lookup_table self with
  | None => Raise TypeError
  | Some lookup_table =>
      match dict_get lookup_table key with
      | Some v => Ok v
      | None =>
          match norm self with
          | None => Ok transparent
          | Some norm =>
              match call_norm norm key with
              | Raise TypeError =>
                  match np_isnan key with
                  | Ok true => Ok transparent
                  | Ok false => Raise TypeError
                  | Raise err => Raise err
                  end
              | Raise err => Raise err
              | Ok normed =>
                  match cmap self with
                  | Some cmap => Ok (cmap_call cmap normed)
                  | None => Raise TypeError
                  end
              end
          end
      end
  end.
End Collaborators.
End HueMapping.

(** ** [SizeMapping] *)

(** The sizes argument of a size mapping. *)
Inductive sizes_spec : Type :=
  | SDict (d : dict Q)
  | SList (l : list Q)
  | STuple (l : list Q)
  | SOther.

Module SizeMapping.
Definition categorical_mapping (plotter : VectorPlotter) (data : vector)
  (sizes : option sizes_spec) (order : option (list value))
  : result (list value * dict Q) :=
  levels ← categorical_order data order;
  match sizes with
  | Some (SDict sizes) =>
      (* Dict inputs map existing data values to the size attribute *)
      let missing := set_difference levels (dict_keys sizes) in
      if any missing
      then Raise (ValueError "Missing sizes for the following levels")
      else Ok (levels, sizes)
  | Some (SList sizes) =>
      (* List inputs give size values in the same order as the levels *)
      if negb (length sizes =? length levels)%nat
      then Raise (ValueError "The `sizes` list has the wrong number of values.")
      else Ok (levels, dict_of (zip levels sizes))
  | _ =>
      sizes ←
        match sizes with
        | Some (STuple sizes) =>
            (* Tuple input sets the min, max size values *)
            match sizes with
            | [lo; hi] => Ok (lo, hi)
            | _ => Raise (ValueError "A `sizes` tuple must have only 2 values")
            end
        | Some _ => Raise (ValueError "Value for `sizes` not understood")
        | None => Ok (_default_size_range plotter)
        end;
      (* regularly-spaced linear steps, then reverse the ramp *)
      let sizes := rev (linspace sizes.1 sizes.2 (length levels)) in
      Ok (levels, dict_of (zip levels sizes))
  end.
End SizeMapping.

(** ** [VectorPlotter]: levels, converted data, grouped iteration *)

Section Plotter.
Context `{Mpl : Matplotlib} `{Rt : Runtime}.

(** The [var_levels] property: refresh the recorded levels from the
    semantic mappings of the assigned variables, return the record. *)
Definition var_levels : M (gmap string (option (list value))) :=
  p ← get_self;
  let updated :=
    map_fold (fun var _ acc =>
                match map_levels p !! var with
                | Some levels => <[var := levels]> acc
                | None => acc     (* AttributeError: pass *)
                end)
             (_var_levels p) (variables p) in
  modify_self (set_var_levels updated);;
  mret updated.

(** [t.drop(names, axis=1, errors="ignore")]. *)
Definition drop_columns (names : list string) (t : table) : table :=
  let keep := List.filter (fun j => negb (existsb (String.eqb (nth j (col_names t) ""))
                                                   names))
                          (seq 0 (length (columns t))) in
  Table (omap (fun j => columns t !! j) keep)
        (map (fun r => Row (label r) (map (fun j => cell j r) keep)) (rows t)).

(** [t.insert(0, name, v)]. *)
Definition insert_first (name : string) (v : vector) (t : table) : result table :=
  if has_column t name then Raise (ValueError "cannot insert, already exists")
  else Ok (Table ((name, vdtype v) :: columns t)
                 (set_cells (fun i r => nth i (cells v) VNaN :: rcells r) (rows t))).

(** One round of the loop [for var in "yx"] of [comp_data]. *)
Definition comp_data_var (var : string) (comp_data : table) : M table :=
  p ← get_self;
  if bool_decide (var ∈ dom (variables p)) then
    plot_data ← read (plot_data p);
    orig ← lift (get_column plot_data var);
    levels ←
      (if bool_decide (cells orig = []) then mret None
       else lv ← var_levels; mret (lv !! var));
    comp_col ← lift (comp_column var orig levels);
    lift (insert_first var comp_col comp_data)
  else mret comp_data.

(** The [comp_data] property: the plot data itself while no axes are
    attached, else the converted table, computed once and cached. *)
Definition comp_data : M loc :=
  p ← get_self;
  if negb (has_ax p) then mret (plot_data p)
  else
    match _comp_data p with
    | Some l => mret l
    | None =>
        plot_data ← read (plot_data p);
        let comp_data := drop_columns ["x"; "y"] plot_data in
        comp_data ← comp_data_var "y" comp_data;
        comp_data ← comp_data_var "x" comp_data;
        l ← alloc comp_data;
        modify_self (set_comp_data (Some l));;
        mret l
    end.

(** The argument [grouping_vars] of [iter_data]. *)
Inductive grouping_arg : Type :=
  | GNone
  | GStr (s : string)
  | GList (l : list string)
  | GTuple (l : list string).

Definition lookup_or_KeyError {A} (m : gmap string A) (k : string) : result A :=
  match m !! k with
  | Some a => Ok a
  | None => Raise KeyError
  end.

Definition some_or_TypeError {A} (o : option A) : result A :=
  match o with
  | Some a => Ok a
  | None => Raise TypeError
  end.

(** One round of the loop over the axes among the grouping variables, which
    puts the levels of an axis in the units of the converted data. *)
Definition comp_levels_axis (data : loc) (axis : string)
  (levels : gmap string (option (list value)))
  : M (gmap string (option (list value))) :=
  p ← get_self;
  var_type ← lift (lookup_or_KeyError (var_types p) axis);
  match var_type with
  | categorical =>
      ordered ← lift (lookup_or_KeyError (_var_ordered p) axis);
      if ordered : bool then
        old ← lift (lookup_or_KeyError levels axis ≫= some_or_TypeError);
        new ← lift (convert_units axis old);
        mret (<[axis := Some new]> levels)
      else
        t ← read data;
        col ← lift (get_column t axis);
        new ← lift (np_sort (unique (cells col)));
        mret (<[axis := Some new]> levels)
  | datetime =>
      old ← lift (lookup_or_KeyError levels axis ≫= some_or_TypeError);
      new ← lift (date2num old);
      mret (<[axis := Some new]> levels)
  | numeric =>
      log_scaled ← lift (_log_scaled axis);
      if log_scaled : bool then
        old ← lift (lookup_or_KeyError levels axis ≫= some_or_TypeError);
        new ← lift (log10 old);
        mret (<[axis := Some new]> levels)
      else mret levels
  end.

Fixpoint comp_levels (data : loc) (axes : list string)
  (levels : gmap string (option (list value)))
  : M (gmap string (option (list value))) :=
  match axes with
  | [] => mret levels
  | axis :: axes' =>
      levels ← comp_levels_axis data axis levels;
      comp_levels data axes' levels
  end.

(** [grouped_data.get_group(key)]: the rows filed under [key]; a key
    without rows is a [KeyError]. *)
Definition get_group (t : table) (js : list nat) (key : list value)
  : result table :=
  match List.filter (in_group js key) (rows t) with
  | [] => Raise KeyError
  | rs => Ok (Table (columns t) rs)
  end.

(** The loop [for key in iter_keys] of [iter_data], run to its end; the
    result lists what it yields. *)
Fixpoint iter_groups (data : loc) (grouping_vars : list string) (js : list nat)
  (allow_empty : bool) (iter_keys : list (list value))
  : M (list (gmap string value * loc)) :=
  match iter_keys with
  | [] => mret []
  | key :: iter_keys' =>
      t ← read data;
      data_subset ←
        match get_group t js key with
        | Ok g => alloc g
        | Raise KeyError => alloc (loc_empty t)
        | Raise err => raise err
        end;
      subset ← read data_subset;
      if empty subset && negb allow_empty
      then iter_groups data grouping_vars js allow_empty iter_keys'
      else
        let sub_vars := dict_zip grouping_vars key in
        copy ← alloc subset;
        rest ← iter_groups data grouping_vars js allow_empty iter_keys';
        mret ((sub_vars, copy) :: rest)
  end.

(** The first part of [iter_data], up to the choice of the table and of the
    levels: the grouping variables in use, the table to split and the level
    sequences. A list passed as [grouping_vars] is extended in place through
    the caller's reference; that list is not part of the state here. *)
Definition iter_data_setup (grouping_vars : grouping_arg)
  (from_comp_data by_facet dropna : bool)
  : M (list string * loc * gmap string (option (list value))) :=
  let grouping_vars :=
    match grouping_vars with
    | GNone => []
    | GStr s => [s]
    | GList l | GTuple l => l
    end in
  p ← get_self;
  (* Always insert faceting variables *)
  let grouping_vars :=
    if by_facet
    then grouping_vars ++
         set_iter (List.filter
                     (fun v => bool_decide (v ∈ dom (variables p))
                               && negb (existsb (String.eqb v) grouping_vars))
                     ["col"; "row"])
    else grouping_vars in
  (* Reduce to the semantics used in this plot *)
  let grouping_vars :=
    List.filter (fun var => bool_decide (var ∈ dom (variables p))) grouping_vars in
  data ← (if from_comp_data then comp_data else mret (plot_data p));
  data ← (if dropna then t ← read data; alloc (table_dropna t) else mret data);
  levels ← var_levels;
  levels ←
    (if from_comp_data
     then comp_levels data
            (set_iter (List.filter (fun a => existsb (String.eqb a) grouping_vars)
                                   ["x"; "y"]))
            levels
     else mret levels);
  mret (grouping_vars, data, levels).

(** [data.groupby(grouping_vars)]: every grouping variable must be a
    column. *)
Definition groupby (t : table) (grouping_vars : list string) : result (list nat) :=
  mapM (fun var => match col_pos t var with
                   | Some j => Ok j
                   | None => Raise KeyError
                   end) grouping_vars.

(** The level sequence of each grouping variable, [[]] for one without
    recorded levels. *)
Definition grouping_keys_of (levels : gmap string (option (list value)))
  (grouping_vars : list string) : result (list (list value)) :=
  mapM (fun var => match levels !! var with
                   | Some levels => some_or_TypeError levels
                   | None => Ok []
                   end) grouping_vars.

(** [iter_data]: the pairs of group key and subset it yields when run to
    its end. *)
Definition iter_data (grouping_vars : grouping_arg)
  (reverse from_comp_data by_facet allow_empty dropna : bool)
  : M (list (gmap string value * loc)) :=
  '(grouping_vars, data, levels) ←
    iter_data_setup grouping_vars from_comp_data by_facet dropna;
  match grouping_vars with
  | _ :: _ =>
      t ← read data;
      js ← lift (groupby t grouping_vars);
      grouping_keys ← lift (grouping_keys_of levels grouping_vars);
      let iter_keys := product grouping_keys in
      let iter_keys := if reverse then rev iter_keys else iter_keys in
      iter_groups data grouping_vars js allow_empty iter_keys
  | [] =>
      t ← read data;
      copy ← alloc t;
      mret [(∅, copy)]
  end.

(** What a run has yielded, by content: each key with the table its subset
    reference holds in the final store. *)
Definition contents (w : world) (ys : list (gmap string value * loc))
  : list (gmap string value * option table) :=
  map (fun y => (y.1, heap w !! y.2)) ys.

(** The subset an equality group-by files under [key]: the rows whose cells
    in the grouping columns equal the key's levels, under the columns of the
    table. *)
Definition subset_of (t : table) (js : list nat) (key : list value) : table :=
  Table (columns t) (List.filter (in_group js key) (rows t)).

(** One state follows another without touching what was there: the store
    only grew, and the plotter still refers to the same plot table. *)
Definition extends (w w' : world) : Prop :=
  (exists ext, heap w' = heap w ++ ext) /\
  plot_data (self w') = plot_data (self w).

(** A method that leaves every state it returns from as an extension of the
    one it started in. *)
Definition grows_only {A} (c : M A) : Prop :=
  forall w a w', c w = Ok (a, w') -> extends w w'.

(** Whether the loop yields for [key]: its subset has rows, or empty subsets
    are allowed. *)
Definition yields_key (t : table) (js : list nat) (allow_empty : bool)
  (key : list value) : bool :=
  allow_empty || negb (empty (subset_of t js key)).
End Plotter.

(** ** [VectorPlotter.scale_categorical] *)

Section Scaling.
Context `{Mpl : Matplotlib} `{Rt : Runtime}.

(** The dtype pandas infers for freshly made cells. *)
Definition infer_dtype (l : list value) : dtype :=
  if forallb is_Number l then DNumeric
  else if forallb is_datetime l then DDatetime
  else DObject.

Definition all_distinct (l : list value) : bool :=
  (length (unique l) =? length l)%nat.

Definition is_str (v : value) : bool :=
  match v with
  | VStr _ => true
  | _ => false
  end.

Definition is_int (v : value) : bool :=
  match v with
  | VInt _ => true
  | _ => false
  end.

(** [pd.Index(values)]: pandas infers a dtype for the values and converts
    them to it. Strings stay as they are, in an object Index, and so do
    integers, in an integer Index. For any other content the values are
    those of [Index_infer]: a float Index, for one, holds [20, None] as
    [20.0, nan]. *)
Definition pd_Index (values : list value) : list value :=
  if forallb is_str values || forallb is_int values then values
  else Index_infer values.

(** The code of a cell of a categorical vector: the position of its
    category. A missing cell has none (the code -1 of pandas). *)
Fixpoint position (x : value) (categories : list value) : option nat :=
  match categories with
  | [] => None
  | c :: categories' =>
      if key_eqb c x then Some 0%nat else S <$> position x categories'
  end.

Definition category_code (categories : list value) (x : value) : option nat :=
  if isna x then None else position x categories.

(** [np.take(new_categories, codes)]: the code -1 takes the last element. *)
Definition take_codes (new_categories : list value) (codes : list (option nat))
  : list value :=
  map (fun code => match code with
                   | Some i => nth i new_categories VNaN
                   | None => default VNaN (last new_categories)
                   end) codes.

(** [v.map(formatter)]. On a categorical vector the categories are mapped
    and the codes kept: a missing cell stays missing, and the vector stays
    categorical when the mapped categories are distinct and without nulls;
    else its cells are taken from the mapped categories, NaN for a missing
    cell. On another vector every cell is mapped. *)
Definition map_vector (formatter : value -> value) (v : vector) : vector :=
  match vdtype v with
  | DCategory categories =>
      let codes := map (category_code categories) (cells v) in
      let new_categories := pd_Index (map formatter categories) in
      if all_distinct new_categories && forallb notnull new_categories
      then Vector (DCategory new_categories)
                  (map (fun code => match code with
                                    | Some i => nth i new_categories VNaN
                                    | None => VNaN
                                    end) codes)
      else
        let new_categories :=
          if existsb (fun code => negb (bool_decide (is_Some code))) codes
          then pd_Index (new_categories ++ [VNaN])
          else new_categories in
        let mapped := take_codes new_categories codes in
        Vector (infer_dtype mapped) mapped
  | _ =>
      let mapped := map formatter (cells v) in
      Vector (infer_dtype mapped) mapped
  end.

(** [v.astype(str)]. *)
Definition astype_str (l : list value) : list value :=
  map (fun x => VStr (py_str x)) l.

Definition scale_categorical (axis : string) (order : option (list value))
  (formatter : option (value -> value)) : M unit :=
  lift (_check_argument "axis" ["x"; "y"] axis);;
  (* Categorical plots can be "univariate" in which case they get an
     anonymous category label on the opposite axis. *)
  p ← get_self;
  (if bool_decide (axis ∈ dom (variables p)) then mret tt
   else
     modify_self (set_variables (<[axis := None]> (variables p)));;
     modify_self (set_var_types (<[axis := categorical]> (var_types p)));;
     t ← read (plot_data p);
     write (plot_data p) (set_column_scalar t axis DObject (VStr "")));;
  (* If the "categorical" variable has a numeric type, sort the rows *)
  p ← get_self;
  var_type ← lift (lookup_or_KeyError (var_types p) axis);
  (if VariableType_eqb var_type numeric then
     t ← read (plot_data p);
     sorted ← lift (sort_values t axis);
     l ← alloc sorted;
     modify_self (set_plot_data l)
   else mret tt);;
  (* Now get a reference to the categorical data vector *)
  p ← get_self;
  t ← read (plot_data p);
  cat_data ← lift (get_column t axis);
  (* Get the initial categorical order, before string conversion *)
  modify_self (set_var_ordered
                 (<[axis := negb (is_None order) || is_categorical_dtype cat_data]>
                    (_var_ordered p)));;
  order ← lift (categorical_order cat_data order);
  let order := pd_Index order in
  (* Then convert data to strings *)
  let '(cat_data, order) :=
    match formatter with
    | Some formatter =>
        (map_vector formatter cat_data, pd_Index (map formatter order))
    | None =>
        (Vector DObject (astype_str (cells cat_data)), astype_str order)
    end in
  (* Update the levels list with the type-converted order variable *)
  levels ← var_levels;
  modify_self (set_var_levels (<[axis := Some order]> levels));;
  (* Now ensure that seaborn will use categorical rules internally *)
  p ← get_self;
  modify_self (set_var_types (<[axis := categorical]> (var_types p)));;
  (* Put the string-typed categorical vector back into the plot_data *)
  t ← read (plot_data p);
  write (plot_data p) (set_column t axis cat_data).
End Scaling.


From Stdlib Require Import Sorted.

(** ** [unique_dashes] and [unique_markers] *)

(** A dash spec: the string of a solid line, or a sequence of on and off
    lengths. *)
Inductive dash : Type :=
  | DashStr (s : string)
  | DashSeq (segments : list Q).

(** A marker spec: a symbol, or a regular polygon (numsides, style,
    angle). *)
Inductive marker : Type :=
  | MStr (s : string)
  | MPoly (numsides style : Z) (angle : Q).

(** [itertools.combinations_with_replacement(pool, r)], in the order of the
    positions in the pool. *)
Fixpoint combinations_with_replacement {A} (pool : list A) (r : nat)
  : list (list A) :=
  match r with
  | O => [[]]
  | S r' =>
      (fix from (pool : list A) : list (list A) :=
         match pool with
         | [] => []
         | x :: rest =>
             map (cons x) (combinations_with_replacement (x :: rest) r')
             ++ from rest
         end) pool
  end.

(** [min(xs)] of a sequence of numbers. *)
Definition py_min (xs : list Q) : result Q :=
  match xs with
  | [] => Raise (ValueError "min() arg is an empty sequence")
  | x :: xs' => Ok (foldl (fun m y => if Qle_bool m y then m else y) x xs')
  end.

(** [l[1:-1]]. *)
Definition trim_ends {A} (l : list A) : list A := removelast (tl l).

(** [l[:n]]; a negative [n] counts from the end. *)
Definition slice_to {A} (l : list A) (n : Z) : list A :=
  if (0 <=? n)%Z then take (Z.to_nat n) l
  else take (length l - Z.to_nat (- n)) l.

(** [itertools.chain] over the pairs of [zip(xs, ys)]. *)
Definition chain_zip {A} (xs ys : list A) : list A :=
  flat_map (fun xy : A * A => [xy.1; xy.2]) (zip xs ys).

(** The spec of one tuple of segments: each segment followed by the gap, the
    shortest segment. *)
Definition dash_spec (segments : list Q) : result dash :=
  gap ← py_min segments;
  Ok (DashSeq (flat_map (fun seg => [seg; gap]) segments)).

(** One round of the loop of [unique_dashes]: the specs it appends for [p]
    segments. *)
Definition more_dashes (p : nat) : result (list dash) :=
  (* Take combinations of long and short dashes *)
  let a := combinations_with_replacement [3%Q; 5 # 4] p in
  let b := combinations_with_replacement [4%Q; 1%Q] p in
  (* Interleave the combinations, reversing one of the streams *)
  let segment_list := chain_zip (rev (trim_ends a)) (trim_ends b) in
  (* Now insert the gaps *)
  mapM dash_spec segment_list.

Definition first_dashes : list dash :=
  [DashStr "";
   DashSeq [4%Q; 3 # 2];
   DashSeq [1%Q; 1%Q];
   DashSeq [3%Q; 5 # 4; 3 # 2; 5 # 4];
   DashSeq [5%Q; 1%Q; 1%Q; 1%Q]].

(** The loop [while len(dashes) < n]; [None] when the rounds allowed by
    [fuel] do not reach its end. *)
Fixpoint unique_dashes_loop (fuel : nat) (n : Z) (p : nat) (dashes : list dash)
  : option (result (list dash)) :=
  if (Z.of_nat (length dashes) <? n)%Z then
    match fuel with
    | O => None
    | S fuel' =>
        match more_dashes p with
        | Ok new => unique_dashes_loop fuel' n (S p) (dashes ++ new)
        | Raise e => Some (Raise e)
        end
    end
  else Some (Ok dashes).

Definition unique_dashes (fuel : nat) (n : Z) : option (result (list dash)) :=
  match unique_dashes_loop fuel n 3 first_dashes with
  | Some (Ok dashes) => Some (Ok (slice_to dashes n))
  | other => other
  end.

Definition first_markers : list marker :=
  [MStr "o"; MStr "X"; MPoly 4 0 45; MStr "P"; MPoly 4 0 0; MPoly 4 1 0;
   MStr "^"; MPoly 4 1 45; MStr "v"].

(** One round of the loop of [unique_markers]. *)
Definition more_markers (s : Z) : list marker :=
  let a := (360 / inject_Z (s + 1) / 2)%Q in
  [MPoly (s + 1) 1 a; MPoly (s + 1) 0 a; MPoly s 1 0; MPoly s 0 0].

Fixpoint unique_markers_loop (fuel : nat) (n : Z) (s : Z) (markers : list marker)
  : option (list marker) :=
  if (Z.of_nat (length markers) <? n)%Z then
    match fuel with
    | O => None
    | S fuel' => unique_markers_loop fuel' n (s + 1) (markers ++ more_markers s)
    end
  else Some markers.

Definition unique_markers (fuel : nat) (n : Z) : option (list marker) :=
  (fun markers => slice_to markers n) <$> unique_markers_loop fuel n 5 first_markers.

(** What the rounds of the two loops append, in closed form: [p] segments
    of which the last [k] are short, each followed by the gap; the lists
    after [k] rounds. *)
Definition long_short (long short : Q) (p k : nat) : list Q :=
  replicate (p - k) long ++ replicate k short.

Definition with_gaps (gap : Q) (segments : list Q) : list Q :=
  flat_map (fun seg => [seg; gap]) segments.

Definition dash_round (p : nat) : list dash :=
  flat_map
    (fun i => [DashSeq (with_gaps (5 # 4) (long_short 3 (5 # 4) p (p - i)));
               DashSeq (with_gaps 1 (long_short 4 1 p i))])
    (seq 1 (p - 1)).

Definition dashes_upto (k : nat) : list dash :=
  first_dashes ++ flat_map dash_round (seq 3 k).

Definition markers_upto (k : nat) : list marker :=
  first_markers ++ flat_map (fun s => more_markers (Z.of_nat s)) (seq 5 k).

(** Two measures that tell dash specs apart: the number of entries, and the
    number of entries equal to [x]. *)
Definition dash_length (d : dash) : nat :=
  match d with
  | DashStr _ => O
  | DashSeq segments => length segments
  end.

Definition dash_count (x : Q) (d : dash) : nat :=
  match d with
  | DashStr _ => O
  | DashSeq segments => length (List.filter (Qeq_bool x) segments)
  end.

(** ** [infer_orient] *)

(** [str(orient)] for an orientation that is a string or [None]. *)
Definition orient_str (orient : option string) : string := default "None" orient.

(** [s.startswith(start)]. *)
Definition startswith (s start : string) : bool := String.prefix start s.

(** [t == name] and [t != name] for a variable type that may be [None]. *)
Definition type_eq (t : option VariableType) (name : VariableType) : bool :=
  match t with
  | Some t => VariableType_eqb t name
  | None => false
  end.

Definition type_ne (t : option VariableType) (name : VariableType) : bool :=
  negb (type_eq t name).

(** The warnings about an orientation ignored with a single variable are
    not part of the result. *)
Definition infer_orient (x y : option vector) (orient : option string)
  (require_numeric : bool) : result string :=
  let x_type := (fun x => variable_type x numeric) <$> x in
  let y_type := (fun y => variable_type y numeric) <$> y in
  if is_None x then
    if require_numeric && type_ne y_type numeric
    then Raise TypeError
    else Ok "v"
  else if is_None y then
    if require_numeric && type_ne x_type numeric
    then Raise TypeError
    else Ok "h"
  else if startswith (orient_str orient) "v" then
    if require_numeric && type_ne y_type numeric
    then Raise TypeError
    else Ok "v"
  else if startswith (orient_str orient) "h" then
    if require_numeric && type_ne x_type numeric
    then Raise TypeError
    else Ok "h"
  else if negb (is_None orient) then
    Raise (ValueError "`orient` must start with 'v' or 'h' or be None")
  else if type_ne x_type categorical && type_eq y_type categorical then Ok "h"
  else if type_ne x_type numeric && type_eq y_type numeric then Ok "v"
  else if type_eq x_type numeric && type_ne y_type numeric then Ok "h"
  else if require_numeric && negb (type_eq x_type numeric || type_eq y_type numeric)
  then Raise TypeError
  else Ok "v".

(** ** [VectorPlotter.get_semantics] *)

(** The class attribute [semantics]. *)
Definition semantics : list string := ["x"; "y"; "hue"; "size"; "style"; "units"].

(** The keyword arguments are a dict from names to values that may be
    [None]; the result keeps the entries of known names with a value. *)
Definition get_semantics {A} (kwargs : gmap string (option A))
  (semantics_arg : option (list string)) : gmap string (option A) :=
  let semantics := default semantics semantics_arg in
  map_fold (fun key val variables =>
              if existsb (String.eqb key) semantics && negb (is_None val)
              then <[key := val]> variables
              else variables)
           ∅ kwargs.

(** ** Orders on values, to state what [categorical_order] returns *)

(** [a < b] as numbers. *)
Definition num_lt (a b : value) : Prop :=
  match num_of a, num_of b with
  | Some x, Some y => (x < y)%Q
  | _, _ => False
  end.

(** Two cell lists hold the same keys. *)
Definition same_keys (l l' : list value) : Prop :=
  (forall x, x ∈ l -> exists y, y ∈ l' /\ key_eqb x y = true) /\
  (forall y, y ∈ l' -> exists x, x ∈ l /\ key_eqb x y = true).

(** ** [SizeMapping]: type inference, numeric mapping, constructor, lookup *)

(** [max(xs)] of a sequence of numbers. *)
Definition py_max (xs : list Q) : result Q :=
  match xs with
  | [] => Raise (ValueError "max() arg is an empty sequence")
  | x :: xs' => Ok (foldl (fun m y => if Qle_bool y m then m else y) x xs')
  end.

(** [np.ptp(size_range)]: the largest minus the smallest of the two. *)
Definition ptp (size_range : Q * Q) : Q :=
  let '(a, b) := size_range in
  ((if Qle_bool a b then b else a) - (if Qle_bool a b then a else b))%Q.

(** A normalizer with [clip] set. *)
Class Clip `{Matplotlib} : Type := {
  (* norm.clip = True, on the normalizer made here or on the copy of the
     one passed in *)
  with_clip : Normalize -> Normalize
}.

(** The methods of [SizeMapping] besides [categorical_mapping]. A size is
    [None] where the scaled number is NaN or masked. *)
Module SizeMap.
Section Collaborators.
Context `{Mpl : Matplotlib} `{Clp : !Clip}.

Record t : Type := Build {
  map_type : option VariableType;
  levels : option (list value);
  lookup_table : option (dict (option Q));
  norm : option norm_spec;
  sizes : option sizes_spec;
  size_range : option (Q * Q)
}.

(** The class attributes, which an instance keeps when no size is assigned;
    [sizes] and [size_range] are not set then. *)
Definition unset : t := Build None None None None None None.

Definition is_dict_or_list (sizes : option sizes_spec) : bool :=
  match sizes with
  | Some (SDict _) | Some (SList _) => true
  | _ => false
  end.

Definition infer_map_type (norm : option norm_spec) (sizes : option sizes_spec)
  (var_type : VariableType) : VariableType :=
  if negb (is_None norm) then numeric
  else if is_dict_or_list sizes then categorical
  else var_type.

Definition numeric_mapping (plotter : VectorPlotter) (data : vector)
  (sizes : option sizes_spec) (norm : option norm_spec)
  : result (list value * dict (option Q) * Normalize * (Q * Q)) :=
  '(levels, size_range) ←
    match sizes with
    | Some (SDict sizes) =>
        (* The presence of a norm object overrides a dictionary of sizes *)
        levels ← np_sort (dict_keys sizes);
        let size_values := map snd sizes in
        lo ← py_min size_values;
        hi ← py_max size_values;
        Ok (levels, (lo, hi))
    | _ =>
        (* The levels here will be the unique values in the data *)
        levels ← np_sort (remove_na (unique (cells data)));
        size_range ←
          match sizes with
          | Some (STuple sizes) =>
              match sizes with
              | [lo; hi] => Ok (lo, hi)
              | _ => Raise (ValueError "A `sizes` tuple must have only 2 values")
              end
          | Some _ => Raise (ValueError "Value for `sizes` not understood")
          | None => Ok (_default_size_range plotter)
          end;
        Ok (levels, size_range)
    end;
  norm ←
    match norm with
    | None => Ok (Normalize_new None None)
    | Some (NTuple vmin vmax) => Ok (Normalize_new (Some vmin) (Some vmax))
    | Some NOther =>
        Raise (ValueError "Value for size `norm` parameter not understood")
    | Some (NObject n) => Ok n
    end;
  (* Set the mapping so all output values are in [0, 1] *)
  let norm := with_clip norm in
  (* If the input range is not set, use the full range of the data *)
  norm ← (if negb (scaled norm) then autoscale norm levels else Ok norm);
  (* Map from data values to [0, 1] range *)
  sizes_scaled ← mapM (norm_call norm) levels;
  (* Now map from the scaled range into the artist units *)
  let lookup_table :=
    match sizes with
    | Some (SDict sizes) => map (fun kv => (kv.1, Some kv.2)) sizes
    | _ =>
        let '(lo, hi) := size_range in
        let sizes :=
          map (fun scaled : option Q =>
                 (fun s => lo + s * (hi - lo))%Q <$> scaled) sizes_scaled in
        dict_of (zip levels sizes)
    end in
  Ok (levels, lookup_table, norm, size_range).

Definition __init__ (sizes : option sizes_spec) (order : option (list value))
  (norm : option norm_spec) : M t :=
  plotter ← get_self;
  plot_data ← read (plot_data plotter);
  let data := get_column_default plot_data "size" in
  if forallb isna (cells data) then mret unset
  else
    var_type ← lift (match var_types plotter !! "size" with
                     | Some ty => Ok ty
                     | None => Raise KeyError
                     end);
    let map_type := infer_map_type norm sizes var_type in
    match map_type with
    | numeric =>
        '(levels, lookup_table, norm, size_range) ←
          lift (numeric_mapping plotter data sizes norm);
        mret (Build (Some map_type) (Some levels) (Some lookup_table)
                    (Some (NObject norm)) sizes (Some size_range))
    | categorical =>
        '(levels, lookup_table) ←
          lift (SizeMapping.categorical_mapping plotter data sizes order);
        mret (Build (Some map_type) (Some levels)
                    (Some (map (fun kv => (kv.1, Some kv.2)) lookup_table))
                    norm sizes None)
    | datetime =>
        (* Casting data to list *)
        '(levels, lookup_table) ←
          lift (SizeMapping.categorical_mapping
                  plotter (Vector DObject (cells data)) sizes order);
        mret (Build (Some map_type) (Some levels)
                    (Some (map (fun kv => (kv.1, Some kv.2)) lookup_table))
                    norm sizes None)
    end.

Definition _lookup_single (self : t) (key : value) : result (option Q) :=
  match lookup_table self with
  | None => Raise TypeError
  | Some lookup_table =>
      match dict_get lookup_table key with
      | Some v => Ok v
      | None =>
          match norm self with
          | None => Raise TypeError
          | Some norm =>
              match HueMapping.call_norm norm key with
              | Raise err => Raise err
              | Ok normed =>
                  match size_range self with
                  | None => Raise TypeError
                  | Some size_range =>
                      Ok ((fun normed => size_range.1 + normed * ptp size_range)%Q
                            <$> normed)
                  end
              end
          end
      end
  end.
End Collaborators.
End SizeMap.

(** ** [StyleMapping] *)

(** Matplotlib's marker styles. *)
Class Markers : Type := {
  MarkerStyle : Type;
  Path : Type;
  (* mpl.markers.MarkerStyle(m) *)
  MarkerStyle_new : marker -> result MarkerStyle;
  (* m.get_path().transformed(m.get_transform()) *)
  transformed_path : MarkerStyle -> Path;
  (* m.is_filled() *)
  is_filled : MarkerStyle -> bool
}.

(** A marker as the caller gives it: a spec, or a [MarkerStyle] object. *)
Inductive marker_arg `{Markers} : Type :=
  | MSpec (m : marker)
  | MObject (m : MarkerStyle).

(** The [markers] or [dashes] argument: [True], a dict, a sequence, or
    something else, of which only the truth value matters. *)
Inductive attr_arg (V : Type) : Type :=
  | ATrue
  | ADict (d : dict V)
  | ASeq (l : list V)
  | AOther (truth : bool).
Arguments ATrue {V}.
Arguments ADict {V} d.
Arguments ASeq {V} l.
Arguments AOther {V} truth.

(** [unique_markers(n)] and [unique_dashes(n)] for a length [n]: the loops
    end within [n] rounds, so the default is never taken. *)
Definition unique_markers_n (n : nat) : list marker :=
  default [] (unique_markers n (Z.of_nat n)).

Definition unique_dashes_n (n : nat) : result (list dash) :=
  default (Ok []) (unique_dashes n (Z.of_nat n)).

Module StyleMapping.
Section Collaborators.
Context `{Mk : Markers}.

(** The attributes of one level. *)
Record attrs : Type := Attrs {
  marker : option marker_arg;
  path : option Path;
  dashes : option dash
}.

Record t : Type := Build {
  levels : option (list value);
  lookup_table : option (dict attrs)
}.

(** Style mapping is always treated as categorical. *)
Definition map_type : VariableType := categorical.

Definition unset : t := Build None None.

(** Handle the specification for a given style attribute. *)
Definition _map_attributes {V} (arg : attr_arg V) (levels : list value)
  (defaults : list V) : result (dict V) :=
  match arg with
  | ATrue => Ok (dict_of (zip levels defaults))
  | ADict arg =>
      let missing := set_difference levels (dict_keys arg) in
      if negb (length missing =? 0)%nat
      then Raise (ValueError "These levels are missing values")
      else Ok arg
  | ASeq arg =>
      if negb (length levels =? length arg)%nat
      then Raise (ValueError "The argument has the wrong number of values")
      else Ok (dict_of (zip levels arg))
  | AOther true => Raise (ValueError "This argument was not understood")
  | AOther false => Ok []
  end.

Definition as_MarkerStyle (m : marker_arg) : result MarkerStyle :=
  match m with
  | MObject m => Ok m
  | MSpec m => MarkerStyle_new m
  end.

Definition getitem {V} (d : dict V) (key : value) : result V :=
  match dict_get d key with
  | Some v => Ok v
  | None => Raise KeyError
  end.

(** The truth value of a dict. *)
Definition nonempty {V} (d : dict V) : bool := negb (length d =? 0)%nat.

(** The loop [for key in levels] that fills the lookup table. *)
Fixpoint fill_table (markers : dict marker_arg) (paths : dict Path)
  (dashes : dict dash) (levels : list value) (lookup_table : dict attrs)
  : result (dict attrs) :=
  match levels with
  | [] => Ok lookup_table
  | key :: levels' =>
      '(marker, path) ←
        (if nonempty markers then
           marker ← getitem markers key;
           path ← getitem paths key;
           Ok (Some marker, Some path)
         else Ok (None, None));
      dashes_key ←
        (if nonempty dashes then d ← getitem dashes key; Ok (Some d) else Ok None);
      fill_table markers paths dashes levels'
                 (dict_set lookup_table key (Attrs marker path dashes_key))
  end.

Definition __init__ (markers : attr_arg marker_arg) (dashes : attr_arg dash)
  (order : option (list value)) : M t :=
  plotter ← get_self;
  plot_data ← read (plot_data plotter);
  let data := get_column_default plot_data "style" in
  if forallb isna (cells data) then mret unset
  else
    (* Cast to list to handle numpy/pandas datetime quirks *)
    let data :=
      if VariableType_eqb (variable_type data numeric) datetime
      then Vector DObject (cells data) else data in
    (* Find ordered unique values *)
    levels ← lift (categorical_order data order);
    markers ← lift (_map_attributes markers levels
                      (MSpec <$> unique_markers_n (length levels)));
    default_dashes ← lift (unique_dashes_n (length levels));
    dashes ← lift (_map_attributes dashes levels default_dashes);
    (* Build the paths matplotlib will use to draw the markers *)
    styles ← lift (mapM (fun km : value * marker_arg =>
                           m ← as_MarkerStyle km.2; Ok (km.1, m)) markers);
    let paths := dict_of (map (fun km => (km.1, transformed_path km.2)) styles) in
    let filled_markers := map (fun km => is_filled km.2) styles in
    (* Mixture of filled and unfilled markers is disallowed *)
    if existsb id filled_markers && negb (forallb id filled_markers)
    then raise (ValueError "Filled and line art markers cannot be mixed")
    else
      lookup_table ← lift (fill_table markers paths dashes levels []);
      mret (Build (Some levels) (Some lookup_table)).

(** What [_lookup_single] returns: all attributes of a level, or one. *)
Inductive looked_up : Type :=
  | AllAttrs (a : attrs)
  | Marker (m : marker_arg)
  | MarkerPath (p : Path)
  | Dashes (d : dash).

(** Get attribute(s) for a given data point. *)
Definition _lookup_single (self : t) (key : value) (attr : option string)
  : result looked_up :=
  match lookup_table self with
  | None => Raise TypeError
  | Some lookup_table =>
      a ← getitem lookup_table key;
      match attr with
      | None => Ok (AllAttrs a)
      | Some attr =>
          let found :=
            if String.eqb attr "marker" then Marker <$> marker a
            else if String.eqb attr "path" then MarkerPath <$> path a
            else if String.eqb attr "dashes" then Dashes <$> dashes a
            else None in
          match found with
          | Some v => Ok v
          | None => Raise KeyError
          end
      end
  end.
End Collaborators.
End StyleMapping.

(** What the loop over the levels of [StyleMapping.__init__] leaves in an
    entry of the table, given the attribute dicts. *)
Definition style_entry `{Markers} (markers : dict marker_arg) (paths : dict Path)
  (dashes : dict dash) (a : StyleMapping.attrs) : Prop :=
  (StyleMapping.marker a = None <-> StyleMapping.path a = None)
  /\ (StyleMapping.marker a = None <-> StyleMapping.nonempty markers = false)
  /\ (StyleMapping.dashes a = None <-> StyleMapping.nonempty dashes = false)
  /\ (forall m, StyleMapping.marker a = Some m -> exists k, (k, m) ∈ markers).

(** ** The grouping variables of [iter_data] *)

(** The [grouping_vars] argument of [iter_data] as a list: nothing for
    [None], the one name for a string, else the names listed. *)
Definition requested_vars (grouping_vars : grouping_arg) : list string :=
  match grouping_vars with
  | GNone => []
  | GStr s => [s]
  | GList l | GTuple l => l
  end.

(** The grouping variables a call of [iter_data] splits the data by: those
    requested, with [by_facet] followed by the faceting variables that are
    assigned and were not requested, all of them reduced to the variables
    assigned in the plot [p]. *)
Definition grouping_vars_in_use `{Rt : Runtime} (p : VectorPlotter)
  (grouping_vars : grouping_arg) (by_facet : bool) : list string :=
  let grouping_vars := requested_vars grouping_vars in
  let grouping_vars :=
    if by_facet
    then grouping_vars ++
         set_iter (List.filter
                     (fun v => bool_decide (v ∈ dom (variables p))
                               && negb (existsb (String.eqb v) grouping_vars))
                     ["col"; "row"])
    else grouping_vars in
  List.filter (fun var => bool_decide (var ∈ dom (variables p))) grouping_vars.
(** ** Sample collaborators and data *)

(** A colormap as its list of colors, a normalizer as its two limits. *)
Definition sample_norm_call (n : option Q * option Q) (x : value)
  : result (option Q) :=
  match num_of x, n with
  | Some q, (Some lo, Some hi) => Ok (Some ((q - lo) / (hi - lo))%Q)
  | Some _, _ => Ok None
  | None, _ => match x with VNaN => Ok None | _ => Raise TypeError end
  end.

#[local] Instance sample_matplotlib : Matplotlib := {|
  Colormap := list color;
  Normalize := option Q * option Q;
  ListedColormap := fun colors => colors;
  Normalize_new := fun vmin vmax => (vmin ≫= num_of, vmax ≫= num_of);
  scaled := fun n => negb (is_None n.1) && negb (is_None n.2);
  autoscale := fun n _ => Ok n;
  norm_call := sample_norm_call;
  cmap_call := fun cm x => match x with
                           | Some _ => hd transparent cm
                           | None => transparent
                           end;
  convert_units := fun _ levels => Ok levels;
  date2num := fun levels => Ok levels;
  log10 := fun levels => Ok levels;
  _log_scaled := fun _ => Ok false;
  comp_column := fun _ v _ => Ok v
|}.

Definition sample_cycle : list color :=
  [CName "C0"; CName "C1"; CName "C2"; CName "C3"; CName "C4";
   CName "C5"; CName "C6"; CName "C7"; CName "C8"; CName "C9"].

#[local] Instance sample_palettes : Palettes := {|
  QUAL_PALETTES := ["deep"; "muted"; "bright"; "pastel"; "dark"; "colorblind"];
  color_palette := fun _ n => Ok (take n (sample_cycle ++ sample_cycle));
  color_palette_as_cmap := fun _ => Ok sample_cycle;
  get_color_cycle := sample_cycle
|}.

(** An Index of numbers and nulls is a float Index; anything else is kept
    as it is. *)
Definition sample_Index_infer (values : list value) : list value :=
  if forallb (fun x => match x with
                       | VInt _ | VFloat _ | VNone | VNaN => true
                       | _ => false
                       end) values
     && existsb (fun x => match x with
                          | VInt _ | VFloat _ | VNaN => true
                          | _ => false
                          end) values
  then map (fun x => match num_of x with
                     | Some q => VFloat q
                     | None => VNaN
                     end) values
  else values.

#[local] Instance sample_runtime : Runtime := {|
  to_numeric := fun v => Ok v;
  float_str := fun q => pretty (Qnum q) +:+ "/" +:+ pretty (Zpos (Qden q));
  date_str := fun t => pretty t;
  set_iter := fun members => members;
  Index_infer := sample_Index_infer
|}.

Definition red : color := CTuple [1%Q; 0%Q; 0%Q].
Definition green : color := CTuple [0%Q; 1%Q; 0%Q].


(** A plot table with a hue column over the levels "a" and "b" in which no
    row has "b". *)
Definition abc_table : table :=
  Table [("x", DNumeric); ("hue", DObject)]
        [Row (VInt 0) [VInt 10; VStr "a"];
         Row (VInt 1) [VInt 20; VStr "a"];
         Row (VInt 2) [VInt 30; VStr "c"]].

Definition abc_plotter : VectorPlotter :=
  Plotter 0%nat
          {[ "x" := Some "x"; "hue" := Some "hue" ]}
          {[ "x" := numeric; "hue" := categorical ]}
          long
          ∅
          {[ "x" := false; "y" := false ]}
          {[ "hue" := Some [VStr "a"; VStr "b"; VStr "c"] ]}
          (1%Q, 2%Q)
          false
          None.

Definition abc_world : world := World [abc_table] abc_plotter.

(** A long-form plotter whose hue column holds the strings "a" and "b". *)
Definition ab_table : table :=
  Table [("x", DNumeric); ("hue", DObject)]
        [Row (VInt 0) [VInt 1; VStr "a"];
         Row (VInt 1) [VInt 2; VStr "b"]].

Definition ab_world : world :=
  World [ab_table]
        (Plotter 0%nat
                 {[ "x" := Some "x"; "hue" := Some "hue" ]}
                 {[ "x" := numeric; "hue" := categorical ]}
                 long ∅ {[ "x" := false; "y" := false ]} ∅
                 (1%Q, 2%Q) false None).

(** A plotter whose x column is categorical, with the categories declared
    in the order "a", "b" and the data in the order "b", "a". *)
Definition cat_table : table :=
  Table [("x", DCategory [VStr "a"; VStr "b"]); ("y", DNumeric)]
        [Row (VInt 0) [VStr "b"; VInt 1];
         Row (VInt 1) [VStr "a"; VInt 2]].

Definition cat_world : world :=
  World [cat_table]
        (Plotter 0%nat
                 {[ "x" := Some "x"; "y" := Some "y" ]}
                 {[ "x" := categorical; "y" := numeric ]}
                 long ∅ {[ "x" := false; "y" := false ]} ∅
                 (1%Q, 2%Q) false None).

(** A plotter whose x column holds a string and a missing value. *)
Definition nan_table : table :=
  Table [("x", DObject); ("y", DNumeric)]
        [Row (VInt 0) [VStr "a"; VInt 1];
         Row (VInt 1) [VNaN; VInt 2]].

Definition nan_world : world :=
  World [nan_table]
        (Plotter 0%nat
                 {[ "x" := Some "x"; "y" := Some "y" ]}
                 {[ "x" := categorical; "y" := numeric ]}
                 long ∅ {[ "x" := false; "y" := false ]} ∅
                 (1%Q, 2%Q) false None).

(** A formatter that puts a mark after the text of a value. *)
Definition marked (v : value) : value := VStr (py_str v +:+ "!").

(** A sample of matplotlib's marker styles: a style is its spec, the "x"
    and "+" symbols and the asterisks are line art. *)
#[local] Instance sample_markers : Markers := {|
  MarkerStyle := marker;
  Path := marker;
  MarkerStyle_new m := Ok m;
  transformed_path m := m;
  is_filled m :=
    match m with
    | MStr s => negb (String.eqb s "x" || String.eqb s "+")
    | MPoly _ style _ => negb (style =? 2)%Z
    end
|}.

(** Plot data with a style column of two levels. *)
Definition style_table : table :=
  Table [("x", DNumeric); ("style", DObject)]
        [Row (VInt 0) [VInt 1; VStr "b"];
         Row (VInt 1) [VInt 2; VStr "a"];
         Row (VInt 2) [VInt 3; VStr "b"]].

Definition style_world : world :=
  World [style_table]
        (Plotter 0%nat {["x" := None; "style" := None]}
                 {["x" := numeric; "style" := categorical]} long ∅
                 {["x" := false; "y" := false]} ∅ (1%Q, 2%Q) false None).

(** A sample in which setting [clip] leaves the limits as they are. *)
#[local] Instance sample_clip : Clip := {| with_clip n := n |}.

(** Plot data with a numeric size column. *)
Definition size_table : table :=
  Table [("x", DNumeric); ("size", DNumeric)]
        [Row (VInt 0) [VInt 1; VInt 4];
         Row (VInt 1) [VInt 2; VInt 0];
         Row (VInt 2) [VInt 3; VInt 2]].

Definition size_world : world :=
  World [size_table]
        (Plotter 0%nat {["x" := None; "size" := None]}
                 {["x" := numeric; "size" := numeric]} long ∅
                 {["x" := false; "y" := false]} ∅ (1%Q, 2%Q) false None).

(** Plot data with a size column of strings. *)
Definition size_cat_table : table :=
  Table [("x", DNumeric); ("size", DObject)]
        [Row (VInt 0) [VInt 1; VStr "small"];
         Row (VInt 1) [VInt 2; VStr "large"]].

Definition size_cat_world : world :=
  World [size_cat_table]
        (Plotter 0%nat {["x" := None; "size" := None]}
                 {["x" := numeric; "size" := categorical]} long ∅
                 {["x" := false; "y" := false]} ∅ (1%Q, 2%Q) false None).

(** The plotter of [ab_world] with axes attached. *)
Definition axes_world : world :=
  World [ab_table]
        (Plotter 0%nat
                 {[ "x" := Some "x"; "hue" := Some "hue" ]}
                 {[ "x" := numeric; "hue" := categorical ]}
                 long ∅ {[ "x" := false; "y" := false ]} ∅
                 (1%Q, 2%Q) true None).
(** * Properties *)

(** ** Keys *)

Lemma key_eqb_repr a b : key_eqb a b = true <-> key_repr a = key_repr b.
Proof.
  destruct a as [| | |[]| | | |], b as [| | |[]| | | |]; cbn;
    rewrite ?Qeq_bool_iff, ?String.eqb_eq, ?Z.eqb_eq;
    try (split; [intros ?%Qred_complete; congruence
                |intros [= ?%Qred_eq_iff]; done]);
    try (split; congruence); try done.
Qed.

Lemma key_eqb_refl a : key_eqb a a = true.
Proof. by apply key_eqb_repr. Qed.

Lemma key_eqb_sym a b : key_eqb a b = key_eqb b a.
Proof.
  apply eq_true_iff_eq. rewrite !key_eqb_repr. split; congruence.
Qed.

Lemma key_eqb_trans a b c :
  key_eqb a b = true -> key_eqb b c = true -> key_eqb a c = true.
Proof. rewrite !key_eqb_repr. congruence. Qed.

Lemma key_eqb_congr a b c : key_eqb a b = true -> key_eqb a c = key_eqb b c.
Proof.
  intros Hab. apply eq_true_iff_eq. rewrite !key_eqb_repr.
  apply key_eqb_repr in Hab. split; congruence.
Qed.

Lemma distinct_keys_NoDup l : distinct_keys l <-> NoDup (key_repr <$> l).
Proof.
  rewrite NoDup_alt. unfold distinct_keys. split.
  - intros H i j x. rewrite !list_lookup_fmap.
    destruct (l !! i) as [a|] eqn:Ea; [|done].
    destruct (l !! j) as [b|] eqn:Eb; [|done]. cbn.
    intros [= <-] [= Hb]. apply (H i j a b); [done..|]. by apply key_eqb_repr.
  - intros H i j a b Ha Hb Hab. apply (H i j (key_repr a)).
    + by rewrite list_lookup_fmap, Ha.
    + rewrite list_lookup_fmap, Hb. cbn. f_equal. symmetry. by apply key_eqb_repr.
Qed.

(** ** Dicts *)

Lemma dict_get_set {V} (d : dict V) k v k' :
  dict_get (dict_set d k v) k' = if key_eqb k k' then Some v else dict_get d k'.
Proof.
  induction d as [|[k0 v0] d IH]; cbn.
  - done.
  - destruct (key_eqb k0 k) eqn:E0; cbn.
    + rewrite (key_eqb_congr _ _ _ E0). by destruct (key_eqb k k').
    + rewrite IH. destruct (key_eqb k0 k') eqn:E1; [|done].
      destruct (key_eqb k k') eqn:E2; [|done].
      rewrite key_eqb_sym in E2. rewrite (key_eqb_trans _ _ _ E1 E2) in E0. done.
Qed.

Lemma dict_get_foldl_other {V} (ps : list (value * V)) d0 k :
  Forall (fun p => key_eqb p.1 k = false) ps ->
  dict_get (foldl (fun d kv => dict_set d kv.1 kv.2) d0 ps) k = dict_get d0 k.
Proof.
  intros H. revert d0. induction H as [|[k1 v1] ps Hk _ IH]; intros d0; cbn.
  - done.
  - rewrite IH, dict_get_set. cbn in Hk. by rewrite Hk.
Qed.

Lemma dict_get_None {V} (d : dict V) x k :
  k ∈ dict_keys d -> key_eqb k x = true -> dict_get d x <> None.
Proof.
  unfold dict_keys. induction d as [|[k1 v1] d IH]; cbn.
  - by intros ?%elem_of_nil.
  - intros [->|Hin]%elem_of_cons E.
    + by rewrite E.
    + destruct (key_eqb k1 x); [done | by apply IH].
Qed.

(** In [dict(zip(keys, vals))] over distinct keys, each key finds the value
    at its own position. *)
Lemma dict_get_dict_of_zip {V} (keys : list value) (vals : list V) i k v :
  distinct_keys keys ->
  keys !! i = Some k -> vals !! i = Some v ->
  dict_get (dict_of (zip keys vals)) k = Some v.
Proof.
  unfold dict_of. generalize (@nil (value * V)) as d0.
  revert vals i. induction keys as [|k1 keys IH]; intros vals i d0 Hd Hk Hv; [done|].
  destruct vals as [|v1 vals]; [done|]. cbn.
  destruct i as [|i]; cbn in Hk, Hv.
  - injection Hk as ->. injection Hv as ->.
    rewrite dict_get_foldl_other.
    + by rewrite dict_get_set, key_eqb_refl.
    + apply Forall_forall. intros [k2 v2] Hin. cbn.
      apply list_elem_of_lookup in Hin as [j Hj].
      apply lookup_zip_with_Some in Hj as (a & b & [= -> ->] & Ha & _).
      apply not_true_iff_false. intros E.
      by specialize (Hd (S j) 0%nat a k Ha eq_refl E).
  - apply (IH vals i); [|done..].
    intros a b x y Ha Hb E. by specialize (Hd (S a) (S b) x y Ha Hb E) as [= ->].
Qed.

(** ** Running a method *)

Lemma bind_Ok {A B} (c : M A) (k : A -> M B) w b w2 :
  (c ≫= k) w = Ok (b, w2) <->
  exists a w1, c w = Ok (a, w1) /\ k a w1 = Ok (b, w2).
Proof.
  unfold mbind, M_bind. destruct (c w) as [[a w1]|e].
  - split; [eauto|]. by intros (? & ? & [= -> ->] & ?).
  - split; [done|]. by intros (? & ? & ? & _).
Qed.

Lemma ret_Ok {A} (a : A) w a' w' :
  (mret a : M A) w = Ok (a', w') <-> a' = a /\ w' = w.
Proof. unfold mret, M_ret. split; [by intros [= -> ->] | by intros [-> ->]]. Qed.

Lemma lift_Ok {A} (r : result A) w a w' :
  lift r w = Ok (a, w') <-> r = Ok a /\ w' = w.
Proof.
  unfold lift. destruct r.
  - split; [by intros [= -> ->] | by intros [[= ->] ->]].
  - split; [done | by intros [? _]].
Qed.

Lemma get_self_Ok w p w' : get_self w = Ok (p, w') <-> p = self w /\ w' = w.
Proof. unfold get_self. split; [by intros [= -> ->] | by intros [-> ->]]. Qed.

Lemma modify_self_Ok f w u w' :
  modify_self f w = Ok (u, w') <-> w' = World (heap w) (f (self w)).
Proof. unfold modify_self. destruct u. split; [by intros [= <-] | by intros ->]. Qed.

Lemma read_Ok l w t w' : read l w = Ok (t, w') <-> heap w !! l = Some t /\ w' = w.
Proof.
  unfold read. destruct (heap w !! l).
  - split; [by intros [= -> ->] | by intros [[= ->] ->]].
  - split; [done | by intros [? _]].
Qed.

Lemma alloc_Ok t w l w' :
  alloc t w = Ok (l, w') <->
  l = length (heap w) /\ w' = World (heap w ++ [t]) (self w).
Proof. unfold alloc. split; [by intros [= <- <-] | by intros [-> ->]]. Qed.

Lemma write_Ok l t w u w' :
  write l t w = Ok (u, w') <->
  is_Some (heap w !! l) /\ w' = World (<[l := t]> (heap w)) (self w).
Proof.
  unfold write. destruct u. destruct (heap w !! l) eqn:E.
  - split; [intros [= <-]; eauto | by intros [_ ->]].
  - split; [done | by intros [[? ?] _]].
Qed.

(** Take a successful run apart: [run_bind] splits a sequence into its
    first step and the rest, [run_prim] resolves a primitive step. *)
Ltac run_bind H Hc :=
  let a := fresh "a" in
  let w := fresh "w" in
  apply bind_Ok in H as (a & w & Hc & H).

Ltac run_prim H :=
  first
    [ apply ret_Ok in H as [? ?]
    | apply lift_Ok in H as [H ?]
    | apply get_self_Ok in H as [? ?]
    | apply modify_self_Ok in H
    | apply read_Ok in H as [H ?]
    | apply alloc_Ok in H as [? ?]
    | apply write_Ok in H as [H ?] ];
  subst.

(** ** The type classifier *)

Lemma is01_notna x : is01 x = true -> isna x = false.
Proof. by destruct x. Qed.

Lemma is01_isin x : is01 x = true -> np_isin x [VInt 0; VInt 1; VNaN] = true.
Proof.
  unfold is01, np_isin. cbn [existsb].
  intros [->| ->]%orb_true_iff; rewrite ?orb_true_r; reflexivity.
Qed.

(** The rule on all-null data comes before the one on binary data: every
    non-null cell of an all-null vector is 0 or 1 (there is none), and the
    categorical flag is answered with numeric. *)
Lemma variable_type_all_null_ignores_flag :
  Forall (fun x => isna x = false -> is01 x = true) [VNaN; VNaN] /\
  variable_type (Vector DNumeric [VNaN; VNaN]) categorical = numeric.
Proof. split; [repeat constructor; discriminate | reflexivity]. Qed.

(** A categorical dtype wins over the flag as well. *)
Lemma variable_type_category_ignores_flag :
  variable_type (Vector (DCategory [VInt 0; VInt 1]) [VInt 0; VInt 1]) numeric
  = categorical.
Proof. reflexivity. Qed.

(** A missing cell among 0s and 1s: [np.isin] compares with [==], under
    which NaN equals nothing, so the rule on binary data does not fire. The
    numeric dtype then decides, and in an object vector [None] makes the
    vector categorical. *)
Lemma variable_type_null_among_binary :
  variable_type (Vector DNumeric [VFloat 0; VFloat 1; VNaN]) categorical = numeric /\
  variable_type (Vector DObject [VInt 0; VInt 1; VNone]) numeric = categorical.
Proof. split; reflexivity. Qed.

(** A null cell is not found by [np.isin] among 0, 1 and [np.nan]. *)
Lemma isna_not_isin x :
  isna x = true -> np_isin x [VInt 0; VInt 1; VNaN] = false.
Proof. by destruct x. Qed.

(** C1: the claim fails in the code once a null stands among the 0s and 1s.
    The float vector [0., 1., nan] has only 0 and 1 as non-null values, and
    with the categorical flag it is classified numeric: the test on binary
    data is [np.isin(vector, [0, 1, np.nan]).all()], [np.isin] compares
    with [==], and under [==] the NaN cell is not found in the list that
    names [np.nan]. So the rule on binary data does not fire and the numeric
    dtype decides. This holds of every vector with a null cell: the flag
    has no part in its classification, against the docstring, for which the
    flag is the type of vectors holding only 0s and 1s (and NAs). *)
Theorem variable_type_binary_null_ignores_flag :
  Forall (fun x => isna x = false -> is01 x = true) [VFloat 0; VFloat 1; VNaN] /\
  variable_type (Vector DNumeric [VFloat 0; VFloat 1; VNaN]) categorical = numeric /\
  forall (v : vector) (boolean_type boolean_type' : VariableType),
    Exists (fun x => isna x = true) (cells v) ->
    variable_type v boolean_type = variable_type v boolean_type'.
Proof.
  split; [repeat constructor; discriminate|].
  split; [reflexivity|].
  intros v bt bt' Hnull. unfold variable_type.
  assert (forallb (fun x => np_isin x [VInt 0; VInt 1; VNaN]) (cells v) = false)
    as ->; [|reflexivity].
  apply not_true_is_false. intros Hall.
  apply Exists_exists in Hnull as (x & Hin & Hx).
  rewrite forallb_forall in Hall. apply list_elem_of_In in Hin.
  specialize (Hall x Hin).
  by rewrite (isna_not_isin _ Hx) in Hall.
Qed.

(** Without nulls the rule on binary data works as the docstring has it: a
    vector without categorical dtype, with at least one cell, all of whose
    cells are exactly 0 or 1, is classified as the flag asks, whatever its
    storage dtype; so the rule comes before the one on numeric dtypes. *)
Theorem variable_type_binary (v : vector) (boolean_type : VariableType) :
  is_categorical_dtype v = false ->
  cells v <> [] ->
  Forall (fun x => is01 x = true) (cells v) ->
  variable_type v boolean_type = boolean_type.
Proof.
  intros Hcat Hne Hall. unfold variable_type. rewrite Hcat.
  destruct (cells v) as [|x l] eqn:E; [done|].
  assert (forallb isna (x :: l) = false) as ->.
  { cbn. inversion Hall; subst. by rewrite is01_notna. }
  assert (forallb (fun x => np_isin x [VInt 0; VInt 1; VNaN]) (x :: l) = true) as ->.
  { apply forallb_forall. intros y Hy. apply is01_isin.
    rewrite Forall_forall in Hall. apply Hall. by apply list_elem_of_In. }
  reflexivity.
Qed.

Lemma variable_type_binary_witness :
  variable_type (Vector DNumeric [VInt 0; VFloat 1; VBool true; VInt 1]) categorical
  = categorical.
Proof.
  apply variable_type_binary; [reflexivity | discriminate |].
  repeat constructor.
Defined.

(** ** Level order *)

Lemma existsb_key_eqb x seen :
  existsb (key_eqb x) seen = true <-> key_repr x ∈ key_repr <$> seen.
Proof.
  rewrite existsb_exists, list_elem_of_fmap. split.
  - intros (y & Hy & E). exists y. split; [by apply key_eqb_repr|].
    by apply list_elem_of_In.
  - intros (y & E & Hy). exists y. split; [by apply list_elem_of_In|].
    by apply key_eqb_repr.
Qed.

Lemma unique_from_sublist seen l : sublist (unique_from seen l) l.
Proof.
  revert seen. induction l as [|x l IH]; intros seen; cbn; [constructor|].
  destruct (existsb _ _); [apply sublist_cons | apply sublist_skip]; apply IH.
Qed.

Lemma unique_from_NoDup seen l :
  NoDup (key_repr <$> unique_from seen l) /\
  forall x, x ∈ unique_from seen l -> key_repr x ∉ key_repr <$> seen.
Proof.
  revert seen. induction l as [|x l IH]; intros seen; cbn.
  { split; [constructor | by intros ? ?%elem_of_nil]. }
  destruct (existsb (key_eqb x) seen) eqn:E; [apply IH|].
  destruct (IH (x :: seen)) as [Hnd Hout]. split.
  - cbn. constructor; [|done].
    intros (y & Hy & Hin)%list_elem_of_fmap. apply (Hout y Hin).
    rewrite fmap_cons, <- Hy. left.
  - intros y [->|Hin]%elem_of_cons.
    + rewrite <- existsb_key_eqb. by rewrite E.
    + intros Hy. apply (Hout y Hin). rewrite fmap_cons. by right.
Qed.

Lemma insert_sorted_Permutation {A} (le : A -> A -> bool) x l :
  insert_sorted le x l ≡ₚ x :: l.
Proof.
  induction l as [|y l IH]; cbn; [done|].
  destruct (le x y); [done|]. rewrite IH. apply Permutation_swap.
Qed.

Lemma stable_sort_Permutation {A} (le : A -> A -> bool) l :
  stable_sort le l ≡ₚ l.
Proof.
  induction l as [|x l IH]; cbn; [done|].
  by rewrite insert_sorted_Permutation, IH.
Qed.

Lemma np_sort_Permutation l r : np_sort l = Ok r -> r ≡ₚ l.
Proof.
  unfold np_sort. destruct (_ <=? _)%nat; [by intros [= <-]|].
  destruct (same_kind l); [|done]. intros [= <-]. apply stable_sort_Permutation.
Qed.

Lemma filter_sublist {A} (p : A -> bool) l : sublist (List.filter p l) l.
Proof.
  induction l as [|x l IH]; cbn; [constructor|].
  destruct (p x); [by apply sublist_skip | by apply sublist_cons].
Qed.

(** Without an explicit order, and with the categories of a categorical
    vector distinct, no level comes twice. *)
Lemma categorical_order_distinct (v : vector) (levels : list value) :
  match vdtype v with DCategory cats => distinct_keys cats | _ => True end ->
  categorical_order v None = Ok levels ->
  distinct_keys levels.
Proof.
  intros Hcat. unfold categorical_order.
  destruct (match vdtype v with DCategory _ => _ | _ => _ end) as [o|e] eqn:Ho;
    cbn; [|done].
  intros [= <-]. rewrite distinct_keys_NoDup.
  assert (NoDup (key_repr <$> unique (cells v))) as Hu by apply unique_from_NoDup.
  eapply sublist_NoDup; [|apply fmap_sublist, filter_sublist].
  destruct (vdtype v) as [cats| | |]; [injection Ho as <-; by apply distinct_keys_NoDup|..];
    (destruct (VariableType_eqb _ _);
     [apply np_sort_Permutation in Ho; by rewrite Ho | by injection Ho as <-]).
Qed.

Lemma same_kind_numbers l : forallb is_Number l = true -> same_kind l = true.
Proof.
  intros H. destruct l as [|x l]; [done|]. unfold same_kind.
  assert (forall y, is_Number y = true -> kind_of y = Some KNumber) as Hk
    by (by intros []).
  rewrite forallb_forall in H.
  rewrite (Hk x) by (apply H; by left).
  apply forallb_forall. intros y Hy. by rewrite (Hk y) by by apply H.
Qed.

Lemma np_sort_numbers l :
  forallb is_Number l = true -> exists r, np_sort l = Ok r.
Proof.
  intros H. unfold np_sort. destruct (_ <=? _)%nat; [eauto|].
  rewrite same_kind_numbers by done. eauto.
Qed.

(** [categorical_order] returns in each of these cases: an explicit order, a
    categorical vector, a vector that is not classified numeric, a vector of
    numbers. *)
Lemma categorical_order_returns (v : vector) (order : option (list value)) :
  order <> None \/ is_categorical_dtype v = true \/
  variable_type v numeric <> numeric \/ forallb is_Number (cells v) = true ->
  exists levels, categorical_order v order = Ok levels.
Proof.
  intros H. unfold categorical_order. destruct order as [o|]; [eauto|].
  assert (exists o, (match vdtype v with
                     | DCategory categories => Ok categories
                     | _ => if VariableType_eqb (variable_type v numeric) numeric
                            then np_sort (unique (cells v))
                            else Ok (unique (cells v))
                     end) = Ok o) as [o ->]; [|cbn; eauto].
  destruct H as [?|[Hc|[Hn|Hnum]]]; [done|..].
  - unfold is_categorical_dtype in Hc. destruct (vdtype v); try done. eauto.
  - destruct (vdtype v); eauto;
      (destruct (variable_type v numeric); [done | cbn; eauto..]).
  - assert (exists r, np_sort (unique (cells v)) = Ok r) as [r Hr].
    { apply np_sort_numbers, forallb_forall. intros x Hx%list_elem_of_In.
      rewrite forallb_forall in Hnum. apply Hnum, list_elem_of_In.
      eapply elem_of_sublist; [done | apply unique_from_sublist]. }
    rewrite Hr. destruct (vdtype v); eauto;
      destruct (VariableType_eqb (variable_type v numeric) numeric); eauto.
Qed.

(** C2, as stated, fails: an explicit order that holds a null value comes
    back as it is. *)
Lemma categorical_order_explicit_keeps_null :
  categorical_order (Vector DObject [VStr "a"; VNaN]) (Some [VStr "a"; VNaN])
  = Ok [VStr "a"; VNaN] /\
  existsb isna [VStr "a"; VNaN] = true.
Proof. split; reflexivity. Qed.

(** C2 (amended): without an explicit order no value of the returned
    sequence is null; an explicit order is returned as it is, with whatever
    nulls it holds. *)
Theorem categorical_order_nulls (v : vector) (order : option (list value))
  (r : list value) :
  categorical_order v order = Ok r ->
  match order with
  | None => Forall (fun x => isna x = false) r
  | Some given => r = given
  end.
Proof.
  unfold categorical_order. destruct order as [given|].
  - by intros [= <-].
  - destruct (match vdtype v with DCategory _ => _ | _ => _ end) as [o|e];
      cbn; [|discriminate].
    intros [= <-]. apply Forall_forall. intros x Hx%list_elem_of_In.
    apply filter_In in Hx as [_ Hx]. unfold notnull in Hx.
    by apply negb_true_iff.
Qed.

Lemma categorical_order_nulls_witness :
  Forall (fun x => isna x = false) [VStr "b"; VStr "a"].
Proof.
  apply (categorical_order_nulls
           (Vector DObject [VStr "b"; VNaN; VStr "a"; VNone; VStr "b"]) None).
  reflexivity.
Defined.

(** ** Hue mapping: choice of the strategy *)

Section HueFacts.
Context `{Mpl : Matplotlib} `{Pal : !Palettes} `{Rt : Runtime}.

(** C5 (amended): with a dict or list palette the strategy is categorical
    when no norm is given and numeric when one is, whatever the input format
    and the type of the column. *)
Theorem infer_map_type_dict_list (palette : option palette_spec)
  (norm : option norm_spec) (fmt : input_format_t) (var_type : VariableType) :
  HueMapping.is_dict_or_list palette = true ->
  HueMapping.infer_map_type palette norm fmt var_type
  = if is_None norm then categorical else numeric.
Proof.
  intros Hp. unfold HueMapping.infer_map_type. rewrite Hp.
  assert (HueMapping.in_QUAL_PALETTES palette = false) as ->.
  { by destruct palette as [[]|]. }
  by destruct norm.
Qed.

(** With a dict palette, a truthy level outside the dict is reported. *)
Lemma categorical_mapping_dict_raises (data : vector) (d : dict color)
  (order : option (list value)) (levels : list value) (x : value) :
  categorical_order data order = Ok levels ->
  x ∈ levels -> dict_get d x = None -> truthy x = true ->
  exists msg, HueMapping.categorical_mapping data (Some (PDict d)) order
              = Raise (ValueError msg).
Proof.
  intros Hl Hx Hget Htr. unfold HueMapping.categorical_mapping. rewrite Hl. cbn.
  assert (any (set_difference levels (dict_keys d)) = true) as ->; [|eauto].
  unfold any. apply existsb_exists. exists x. split; [|done].
  apply filter_In. split; [by apply list_elem_of_In|].
  apply negb_true_iff, not_true_iff_false. intros (k & Hk & Heq)%existsb_exists.
  apply list_elem_of_In in Hk. rewrite key_eqb_sym in Heq.
  by apply (dict_get_None d x k).
Qed.

(** The levels that a dict palette must cover are compared by truth value:
    a level that is missing from the dict but falsy (0, False, the empty
    string) goes unreported. *)
Lemma categorical_mapping_dict (data : vector) (d : dict color)
  (order : option (list value)) (levels : list value) :
  categorical_order data order = Ok levels ->
  HueMapping.categorical_mapping data (Some (PDict d)) order
  = if any (set_difference levels (dict_keys d))
    then Raise (ValueError "The palette dictionary is missing keys")
    else Ok (levels, d).
Proof. intros Hl. unfold HueMapping.categorical_mapping. by rewrite Hl. Qed.

Lemma dict_get_keys {V} (d : dict V) x :
  dict_get d x <> None -> existsb (key_eqb x) (dict_keys d) = true.
Proof.
  unfold dict_keys. induction d as [|[k v] d IH]; cbn; [done|].
  destruct (key_eqb k x) eqn:E.
  - intros _. by rewrite key_eqb_sym, E.
  - intros Hne. rewrite IH by done. apply orb_true_r.
Qed.

(** A dict palette that has every level as a key is the lookup table, as it
    is. *)
Lemma categorical_mapping_dict_complete (data : vector) (d : dict color)
  (order : option (list value)) (levels : list value) :
  categorical_order data order = Ok levels ->
  Forall (fun x => dict_get d x <> None) levels ->
  HueMapping.categorical_mapping data (Some (PDict d)) order = Ok (levels, d).
Proof.
  intros Hl Hall. rewrite (categorical_mapping_dict _ _ _ _ Hl). clear Hl.
  assert (set_difference levels (dict_keys d) = []) as ->; [|done].
  unfold set_difference. induction Hall as [|x l Hx _ IH]; cbn; [done|].
  rewrite dict_get_keys by done. exact IH.
Qed.

(** C3: hue data with the levels 0 and 1 and a dict palette that only has
    the key 1. Level 0 is absent from the dict, yet the build returns, with
    the dict as the lookup table. *)
Theorem categorical_mapping_dict_misses_zero :
  HueMapping.categorical_mapping (Vector DNumeric [VInt 0; VInt 1; VInt 0])
                                 (Some (PDict [(VInt 1, red)])) None
  = Ok ([VInt 0; VInt 1], [(VInt 1, red)]) /\
  VInt 0 ∈ [VInt 0; VInt 1] /\
  dict_get [(VInt 1, red)] (VInt 0) = None.
Proof. split; [reflexivity|]. split; [constructor | reflexivity]. Qed.

(** The level "c" of the design document's example is truthy and reported. *)
Lemma categorical_mapping_dict_misses_c :
  HueMapping.categorical_mapping
    (Vector DObject [VStr "a"; VStr "b"; VStr "c"])
    (Some (PDict [(VStr "a", red); (VStr "b", green)])) None
  = Raise (ValueError "The palette dictionary is missing keys").
Proof. reflexivity. Qed.

(** ** Hue mapping: lookup *)

(** C9: in a hue mapping built with the categorical strategy there is a
    lookup table and no norm, and a key outside the table is given the
    transparent color (0, 0, 0, 0). *)
Theorem lookup_single_categorical_absent (palette : option palette_spec)
  (order : option (list value)) (norm : option norm_spec)
  (w w' : world) (m : HueMapping.t) :
  HueMapping.__init__ palette order norm w = Ok (m, w') ->
  HueMapping.map_type m = Some categorical ->
  exists table,
    HueMapping.lookup_table m = Some table /\
    HueMapping.norm m = None /\
    forall key, dict_get table key = None ->
                HueMapping._lookup_single m key = Ok transparent.
Proof.
  unfold HueMapping.__init__. intros Hrun Hty.
  run_bind Hrun Hp. run_prim Hp. run_bind Hrun Hd. run_prim Hd.
  destruct (forallb isna _).
  { run_prim Hrun. discriminate. }
  run_bind Hrun Hv. run_prim Hv.
  destruct (HueMapping.infer_map_type _ _ _ _) eqn:Emap.
  - run_bind Hrun Hn. run_bind Hrun Hm. destruct a2 as [[[? ?] ?] ?].
    run_prim Hrun. discriminate.
  - run_bind Hrun Hm. destruct a1. run_prim Hrun. discriminate.
  - run_bind Hrun Hm. destruct a1 as [levels table]. run_prim Hrun.
    exists table. cbn. split; [done|]. split; [done|].
    intros key Hkey. unfold HueMapping._lookup_single. cbn. by rewrite Hkey.
Qed.
End HueFacts.

(** C5, as stated, fails: with a norm, a dict palette gives the numeric
    strategy. *)
Lemma infer_map_type_norm_overrides_dict :
  HueMapping.infer_map_type (Some (PDict [(VStr "a", red)]))
                            (Some (NTuple (VInt 0) (VInt 1))) long categorical
  = numeric.
Proof. reflexivity. Qed.

Lemma infer_map_type_dict_list_witness :
  HueMapping.infer_map_type (Some (PList [red; green])) None long numeric
  = categorical.
Proof.
  apply (infer_map_type_dict_list (Some (PList [red; green])) None long numeric).
  reflexivity.
Defined.

Lemma lookup_single_categorical_absent_witness :
  exists table,
    table = [(VStr "a", CName "C0"); (VStr "b", CName "C1")] /\
    forall key, dict_get table key = None ->
                HueMapping._lookup_single
                  (HueMapping.Build (Some categorical) (Some [VStr "a"; VStr "b"])
                                    (Some table) None None None) key
                = Ok transparent.
Proof.
  destruct (lookup_single_categorical_absent None None None ab_world ab_world
              (HueMapping.Build (Some categorical) (Some [VStr "a"; VStr "b"])
                 (Some [(VStr "a", CName "C0"); (VStr "b", CName "C1")])
                 None None None))
    as (table & Ht & _ & Hlook).
  - vm_compute. reflexivity.
  - reflexivity.
  - injection Ht as <-. eauto.
Defined.

(** ** Size mapping: the default ramp *)

Lemma rev_reverse' {A} (l : list A) : rev l = reverse l.
Proof. unfold reverse. by rewrite <- rev_alt. Qed.

Lemma linspace_length lo hi n : length (linspace lo hi n) = n.
Proof.
  unfold linspace.
  destruct (1 <? n)%nat; rewrite ?length_insert, length_map, length_seq; done.
Qed.

Lemma linspace_rev_lookup lo hi n i :
  (2 <= n)%nat -> (i < n)%nat ->
  exists s, rev (linspace lo hi n) !! i = Some s /\
            (s == hi - inject_Z (Z.of_nat i) * ((hi - lo) / inject_Z (Z.of_nat (n - 1))))%Q.
Proof.
  intros Hn Hi. rewrite rev_reverse', reverse_lookup by (rewrite linspace_length; lia).
  rewrite linspace_length. unfold linspace.
  assert ((1 <? n)%nat = true) as -> by (apply Nat.ltb_lt; lia).
  assert (~ (inject_Z (Z.of_nat (n - 1)) == 0)%Q) as Hnz.
  { intros E. assert (Z.of_nat (n - 1) = 0%Z); [|lia].
    revert E. unfold Qeq, inject_Z. cbn. lia. }
  destruct (decide (i = 0%nat)) as [->|Hi0].
  - rewrite list_lookup_insert_eq by (rewrite length_map, length_seq; lia).
    eexists; split; [done|]. cbn. field. done.
  - rewrite list_lookup_insert_ne by lia.
    rewrite list_lookup_fmap, lookup_seq_lt by lia. cbn.
    eexists; split; [done|].
    replace (Z.of_nat (n - S i)) with (Z.of_nat (n - 1) + - Z.of_nat i)%Z by lia.
    rewrite inject_Z_plus, inject_Z_opp. field. done.
Qed.

Lemma size_step_pos lo hi n :
  (2 <= n)%nat -> (lo < hi)%Q ->
  (0 < (hi - lo) / inject_Z (Z.of_nat (n - 1)))%Q.
Proof.
  intros Hn Hlt. apply Qlt_shift_div_l.
  - rewrite <- (Zlt_Qlt 0). lia.
  - lra.
Qed.

(** C8: a size mapping built with the categorical strategy, without a
    [sizes] argument, over at least two pairwise distinct levels and a default
    size range (lo, hi) with lo < hi. The level at position i is given the
    size hi - i * (hi - lo) / (n - 1): evenly spaced sizes, hi for the first
    level and lo for the last, strictly descending along the level
    sequence. *)
Theorem size_categorical_mapping_descending (plotter : VectorPlotter)
  (data : vector) (order : option (list value)) (levels : list value)
  (table : dict Q) :
  SizeMapping.categorical_mapping plotter data None order = Ok (levels, table) ->
  (2 <= length levels)%nat ->
  ((_default_size_range plotter).1 < (_default_size_range plotter).2)%Q ->
  distinct_keys levels ->
  let lo := (_default_size_range plotter).1 in
  let hi := (_default_size_range plotter).2 in
  let step := ((hi - lo) / inject_Z (Z.of_nat (length levels - 1)))%Q in
  (forall i level, levels !! i = Some level ->
     exists s, dict_get table level = Some s /\
               (s == hi - inject_Z (Z.of_nat i) * step)%Q) /\
  (forall level, levels !! 0%nat = Some level ->
     exists s, dict_get table level = Some s /\ (s == hi)%Q) /\
  (forall level, levels !! (length levels - 1)%nat = Some level ->
     exists s, dict_get table level = Some s /\ (s == lo)%Q) /\
  (forall i j li lj si sj, (i < j)%nat ->
     levels !! i = Some li -> levels !! j = Some lj ->
     dict_get table li = Some si -> dict_get table lj = Some sj ->
     (sj < si)%Q).
Proof.
  intros Hrun Hn Hlt Hd lo hi step.
  unfold SizeMapping.categorical_mapping in Hrun.
  destruct (categorical_order data order) as [levels'|] eqn:Hord; [|done].
  cbn in Hrun. injection Hrun as -> <-.
  assert (forall i level, levels !! i = Some level ->
     exists s, dict_get (dict_of (zip levels (rev (linspace lo hi (length levels)))))
                        level = Some s /\
               (s == hi - inject_Z (Z.of_nat i) * step)%Q) as Hspaced.
  { intros i level Hi.
    destruct (linspace_rev_lookup lo hi (length levels) i) as (s & Hs & Heq);
      [done | by eapply lookup_lt_Some |].
    exists s. split; [|done]. by eapply dict_get_dict_of_zip. }
  assert (0 < step)%Q as Hstep by by apply size_step_pos.
  split; [done|]. split; [|split].
  - intros level H0. destruct (Hspaced _ _ H0) as (s & Hs & Heq).
    exists s. split; [done|]. rewrite Heq. cbn. ring.
  - intros level Hl. destruct (Hspaced _ _ Hl) as (s & Hs & Heq).
    exists s. split; [done|]. rewrite Heq. unfold step. field.
    intros E. assert (Z.of_nat (length levels - 1) = 0%Z); [|lia].
    revert E. unfold Qeq, inject_Z. cbn. lia.
  - intros i j li lj si sj Hij Hi Hj Hsi Hsj.
    destruct (Hspaced _ _ Hi) as (s & Hs & Heq).
    destruct (Hspaced _ _ Hj) as (s' & Hs' & Heq').
    assert (si = s) as -> by (apply (inj Some); exact (eq_trans (eq_sym Hsi) Hs)).
    assert (sj = s') as -> by (apply (inj Some); exact (eq_trans (eq_sym Hsj) Hs')).
    rewrite Heq, Heq'.
    assert (inject_Z (Z.of_nat i) < inject_Z (Z.of_nat j))%Q as Hlt'.
    { rewrite <- Zlt_Qlt. lia. }
    nra.
Qed.

Lemma size_categorical_mapping_descending_witness :
  exists s, dict_get [(VStr "a", 2%Q); (VStr "b", 3 # 2); (VStr "c", 2 # 2)]
                     (VStr "a") = Some s /\ (s == 2)%Q.
Proof.
  apply (size_categorical_mapping_descending abc_plotter
           (Vector DObject [VStr "a"; VStr "b"; VStr "c"; VStr "a"]) None
           [VStr "a"; VStr "b"; VStr "c"]
           [(VStr "a", 2%Q); (VStr "b", 3 # 2); (VStr "c", 2 # 2)]).
  - reflexivity.
  - simpl. lia.
  - reflexivity.
  - intros [|[|[|i]]] [|[|[|j]]] a b Ha Hb; simpl in Ha, Hb;
      try discriminate; try reflexivity;
      injection Ha as <-; injection Hb as <-; discriminate.
  - reflexivity.
Defined.

(** The levels must be distinct for this: an explicit order that names a
    level twice makes the later size overwrite the earlier one. *)
Lemma size_categorical_mapping_repeated_level :
  SizeMapping.categorical_mapping abc_plotter
    (Vector DObject [VStr "a"; VStr "b"])
    None (Some [VStr "a"; VStr "b"; VStr "a"])
  = Ok ([VStr "a"; VStr "b"; VStr "a"], [(VStr "a", 2 # 2); (VStr "b", 3 # 2)]).
Proof. reflexivity. Qed.

(** The example of the design document: three levels on the range (1, 2)
    get the sizes 2, 1.5 and 1, in level order. *)
Lemma size_categorical_mapping_three_levels :
  exists table,
    SizeMapping.categorical_mapping abc_plotter
      (Vector DObject [VStr "a"; VStr "b"; VStr "c"]) None None
    = Ok ([VStr "a"; VStr "b"; VStr "c"], table) /\
    Forall2 (fun level s => exists s', dict_get table level = Some s' /\ (s' == s)%Q)
            [VStr "a"; VStr "b"; VStr "c"] [2%Q; 3 # 2; 1%Q].
Proof.
  eexists. split; [reflexivity|].
  repeat constructor; eexists; (split; [reflexivity|reflexivity]).
Qed.

(** ** Grouped iteration *)

Section IterFacts.
Context `{Mpl : Matplotlib} `{Rt : Runtime}.

Lemma bind_run {A B} (c : M A) (k : A -> M B) w a w1 :
  c w = Ok (a, w1) -> (c ≫= k) w = k a w1.
Proof. intros H. unfold mbind, M_bind. by rewrite H. Qed.

Lemma bind_raise {A B} (c : M A) (k : A -> M B) w e :
  c w = Raise e -> (c ≫= k) w = Raise e.
Proof. intros H. unfold mbind, M_bind. by rewrite H. Qed.

Lemma read_run l w t : heap w !! l = Some t -> read l w = Ok (t, w).
Proof. intros H. unfold read. by rewrite H. Qed.

Lemma extends_refl w : extends w w.
Proof. split; [exists []; by rewrite app_nil_r | done]. Qed.

Lemma extends_trans w1 w2 w3 : extends w1 w2 -> extends w2 w3 -> extends w1 w3.
Proof.
  intros [[e1 H1] P1] [[e2 H2] P2]. split; [|congruence].
  exists (e1 ++ e2). by rewrite H2, H1, app_assoc.
Qed.

Lemma extends_lookup w w' l t :
  extends w w' -> heap w !! l = Some t -> heap w' !! l = Some t.
Proof. intros [[ext ->] _] H. by apply lookup_app_l_Some. Qed.

Lemma extends_length w w' : extends w w' -> (length (heap w) <= length (heap w'))%nat.
Proof. intros [[ext ->] _]. rewrite length_app. lia. Qed.

(** The subset the loop stores for a key is the one of the group-by, with or
    without rows. *)
Lemma get_group_subset t js key :
  match get_group t js key with
  | Ok g => g = subset_of t js key
  | Raise e => e = KeyError /\ subset_of t js key = loc_empty t
  end.
Proof.
  unfold get_group, subset_of, loc_empty.
  by destruct (List.filter (in_group js key) (rows t)).
Qed.

Lemma yields_key_skip t js ae key :
  yields_key t js ae key = negb (empty (subset_of t js key) && negb ae).
Proof. unfold yields_key. by destruct (empty _), ae. Qed.

(** The loop of [iter_data] runs to its end once the table is there. Its
    yields follow the keys it does not skip, each with the key's subset in a
    table of its own, made during the loop. *)
Lemma iter_groups_run data gvs js ae keys w t :
  heap w !! data = Some t ->
  exists ys ext,
    iter_groups data gvs js ae keys w = Ok (ys, World (heap w ++ ext) (self w)) /\
    Forall2 (fun key y => y.1 = dict_zip gvs key /\
                          (heap w ++ ext) !! y.2 = Some (subset_of t js key))
            (List.filter (yields_key t js ae) keys) ys /\
    Forall (fun y => (length (heap w) <= y.2 < length (heap w ++ ext))%nat) ys /\
    NoDup ys.*2.
Proof.
  revert w. induction keys as [|key keys IH]; intros w Ht.
  { exists [], []. rewrite app_nil_r. destruct w. cbn. repeat split; constructor. }
  pose proof (lookup_lt_Some _ _ _ Ht) as Hlt.
  cbn [iter_groups List.filter].
  rewrite (bind_run _ _ _ _ _ (read_run _ _ _ Ht)).
  set (sub := subset_of t js key).
  set (w1 := World (heap w ++ [sub]) (self w)).
  assert ((match get_group t js key with
           | Ok g => alloc g
           | Raise KeyError => alloc (loc_empty t)
           | Raise err => raise err
           end) w = Ok (length (heap w), w1)) as Hsub.
  { pose proof (get_group_subset t js key) as Hg.
    destruct (get_group t js key) as [g|e].
    - by rewrite Hg.
    - destruct Hg as [-> Hg]. unfold w1, sub. by rewrite Hg. }
  rewrite (bind_run _ _ _ _ _ Hsub).
  assert (heap w1 !! length (heap w) = Some sub) as Hw1.
  { cbn. by rewrite lookup_app_r, Nat.sub_diag by lia. }
  rewrite (bind_run _ _ _ _ _ (read_run _ _ _ Hw1)).
  rewrite yields_key_skip. fold sub.
  destruct (empty sub && negb ae); cbn [negb].
  - (* continue *)
    destruct (IH w1) as (ys & ext & Hrun & Hys & Hfresh & Hnd).
    { cbn. by rewrite lookup_app_l. }
    rewrite Hrun. exists ys, ([sub] ++ ext).
    cbn in Hys, Hfresh |- *. rewrite <- !app_assoc in Hys, Hfresh.
    split; [by rewrite <- !app_assoc|]. split; [done|]. split; [|done].
    eapply Forall_impl; [exact Hfresh|]. intros [? l]; cbn.
    rewrite !length_app; cbn; lia.
  - (* yield sub_vars, data_subset.copy() *)
    set (w2 := World (heap w1 ++ [sub]) (self w1)).
    assert (alloc sub w1 = Ok (length (heap w1), w2)) as Hcopy by done.
    rewrite (bind_run _ _ _ _ _ Hcopy).
    destruct (IH w2) as (ys & ext & Hrun & Hys & Hfresh & Hnd).
    { cbn. by rewrite !lookup_app_l by (rewrite ?length_app; cbn; lia). }
    rewrite (bind_run _ _ _ _ _ Hrun).
    exists ((dict_zip gvs key, length (heap w1)) :: ys), ([sub; sub] ++ ext).
    cbn in Hrun, Hys, Hfresh |- *.
    rewrite <- !app_assoc in Hys, Hfresh. cbn in Hys, Hfresh.
    rewrite !length_app in Hfresh. cbn in Hfresh.
    split; [unfold mret, M_ret; cbn; by rewrite <- !app_assoc|].
    split; [|split].
    + constructor; [|done]. cbn. split; [done|].
      rewrite lookup_app_r by (rewrite length_app; cbn; lia).
      rewrite length_app. cbn.
      by replace (length (heap w) + 1 - length (heap w))%nat with 1%nat by lia.
    + constructor.
      * cbn. rewrite !length_app. cbn. lia.
      * eapply Forall_impl; [exact Hfresh|]. intros [? l]. cbn.
        rewrite !length_app. cbn. lia.
    + cbn. constructor; [|done].
      intros ([? l] & Heq & Hin)%list_elem_of_fmap. cbn in Heq. subst l.
      rewrite Forall_forall in Hfresh. apply Hfresh in Hin. cbn in Hin.
      rewrite !length_app in Hin. cbn in Hin. lia.
Qed.

Lemma grows_bind {A B} (c : M A) (k : A -> M B) :
  grows_only c -> (forall a, grows_only (k a)) -> grows_only (c ≫= k).
Proof.
  intros Hc Hk w b w' H. run_bind H Ha.
  eapply extends_trans; [by eapply Hc | by eapply Hk].
Qed.

Lemma grows_ret {A} (a : A) : grows_only (mret a : M A).
Proof. intros w a' w' H. run_prim H. apply extends_refl. Qed.

Lemma grows_lift {A} (r : result A) : grows_only (lift r).
Proof. intros w a w' H. run_prim H. apply extends_refl. Qed.

Lemma grows_raise {A} e : grows_only (raise e : M A).
Proof. intros w a w' H. discriminate. Qed.

Lemma grows_get_self : grows_only get_self.
Proof. intros w a w' H. run_prim H. apply extends_refl. Qed.

Lemma grows_read l : grows_only (read l).
Proof. intros w a w' H. run_prim H. apply extends_refl. Qed.

Lemma grows_alloc t : grows_only (alloc t).
Proof. intros w l w' H. run_prim H. split; [by exists [t] | done]. Qed.

Lemma grows_modify_self f :
  (forall p, plot_data (f p) = plot_data p) -> grows_only (modify_self f).
Proof.
  intros Hf w u w' H. run_prim H.
  split; [exists []; cbn; by rewrite app_nil_r | apply Hf].
Qed.

(** Methods built from the steps above grow only. *)
Ltac grows :=
  repeat first
    [ apply grows_bind; [|intros ?]
    | apply grows_ret
    | apply grows_lift
    | apply grows_raise
    | apply grows_get_self
    | apply grows_read
    | apply grows_alloc
    | apply grows_modify_self; intros ?; reflexivity
    | progress (repeat case_match) ].

Lemma grows_var_levels : grows_only var_levels.
Proof. unfold var_levels. grows. Qed.

Lemma grows_comp_data_var var c : grows_only (comp_data_var var c).
Proof. unfold comp_data_var. grows. Qed.

Lemma grows_comp_data : grows_only comp_data.
Proof. unfold comp_data. grows; apply grows_comp_data_var. Qed.

Lemma grows_comp_levels_axis data axis lv :
  grows_only (comp_levels_axis data axis lv).
Proof. unfold comp_levels_axis. grows. Qed.

Lemma grows_comp_levels data axes lv : grows_only (comp_levels data axes lv).
Proof.
  revert lv. induction axes as [|axis axes IH]; intros lv; cbn.
  - apply grows_ret.
  - apply grows_bind; [apply grows_comp_levels_axis | intros lv'; apply IH].
Qed.

Lemma grows_iter_data_setup gv fcd bf dn :
  grows_only (iter_data_setup gv fcd bf dn).
Proof.
  unfold iter_data_setup.
  apply grows_bind; [apply grows_get_self | intros p].
  apply grows_bind; [destruct fcd; [apply grows_comp_data | apply grows_ret] |].
  intros data.
  apply grows_bind; [destruct dn; grows |]. intros data'.
  apply grows_bind; [apply grows_var_levels | intros lv].
  apply grows_bind; [destruct fcd; [apply grows_comp_levels | apply grows_ret] |].
  intros lv'. apply grows_ret.
Qed.

Lemma contents_Forall2 gvs t js w ks ys :
  Forall2 (fun key y => y.1 = dict_zip gvs key /\
                        heap w !! y.2 = Some (subset_of t js key)) ks ys ->
  contents w ys = map (fun key => (dict_zip gvs key, Some (subset_of t js key))) ks.
Proof.
  unfold contents. induction 1 as [|key [sv l] ks ys [Hsv Hl] _ IH]; [done|].
  cbn in *. by rewrite IH, Hsv, Hl.
Qed.

(** What a returning run of [iter_data] went through. *)
Lemma iter_data_inv gv reverse fcd bf ae dn w ys w' :
  iter_data gv reverse fcd bf ae dn w = Ok (ys, w') ->
  exists gvs data levels w1 t,
    iter_data_setup gv fcd bf dn w = Ok ((gvs, data, levels), w1) /\
    heap w1 !! data = Some t /\
    ((gvs = [] /\ ys = [(∅, length (heap w1))] /\
      w' = World (heap w1 ++ [t]) (self w1)) \/
     (gvs <> [] /\
      exists js gks,
        groupby t gvs = Ok js /\ grouping_keys_of levels gvs = Ok gks /\
        iter_groups data gvs js ae
          (if reverse then rev (product gks) else product gks) w1
        = Ok (ys, w'))).
Proof.
  unfold iter_data. intros H. run_bind H Hs. destruct a as [[gvs data] levels].
  exists gvs, data, levels, w0.
  destruct gvs as [|g gvs].
  - run_bind H Hr. run_prim Hr. run_bind H Ha. run_prim Ha. run_prim H.
    exists a. split; [done|]. split; [done|]. by left.
  - run_bind H Hr. run_prim Hr. run_bind H Hj. run_prim Hj.
    run_bind H Hk. run_prim Hk.
    exists a. split; [done|]. split; [done|]. right. split; [done|]. eauto.
Qed.

(** C6: when the setup has chosen the grouping variables, the table and the
    levels, and the group-by and the level sequences are there, [iter_data]
    returns. It yields, in the order of the keys of the product, one pair for
    every key it does not skip: the key as a dict over the grouping variables
    and the key's subset. A key without matching rows is skipped when
    [allow_empty] is false; when it is true the key is yielded with the
    subset that has the columns of the table and no row. A key with matching
    rows is always yielded. *)
Theorem iter_data_empty_groups (grouping_vars : grouping_arg)
  (reverse from_comp_data by_facet allow_empty dropna : bool)
  (w w1 : world) (gvs : list string) (data : loc)
  (levels : gmap string (option (list value))) (t : table) (js : list nat)
  (gks : list (list value)) :
  iter_data_setup grouping_vars from_comp_data by_facet dropna w
  = Ok ((gvs, data, levels), w1) ->
  gvs <> [] ->
  heap w1 !! data = Some t ->
  groupby t gvs = Ok js ->
  grouping_keys_of levels gvs = Ok gks ->
  let iter_keys := if reverse then rev (product gks) else product gks in
  exists ys w',
    iter_data grouping_vars reverse from_comp_data by_facet allow_empty dropna w
    = Ok (ys, w') /\
    Forall2 (fun key y => y.1 = dict_zip gvs key /\
                          heap w' !! y.2 = Some (subset_of t js key))
            (List.filter (yields_key t js allow_empty) iter_keys) ys /\
    (forall key, rows (subset_of t js key) = [] ->
                 yields_key t js allow_empty key = allow_empty /\
                 subset_of t js key = Table (columns t) []) /\
    (forall key, rows (subset_of t js key) <> [] ->
                 yields_key t js allow_empty key = true).
Proof.
  intros Hsetup Hgvs Ht Hjs Hgks iter_keys.
  destruct (iter_groups_run data gvs js allow_empty iter_keys w1 t Ht)
    as (ys & ext & Hrun & Hys & _ & _).
  exists ys, (World (heap w1 ++ ext) (self w1)).
  split; [|split; [done|split]].
  - unfold iter_data. rewrite (bind_run _ _ _ _ _ Hsetup).
    destruct gvs as [|g gvs]; [done|].
    rewrite (bind_run _ _ _ _ _ (read_run _ _ _ Ht)).
    unfold lift at 1. rewrite Hjs. unfold mbind at 1, M_bind at 1.
    unfold lift at 1. rewrite Hgks. unfold mbind at 1, M_bind at 1.
    exact Hrun.
  - intros key Hrows. unfold yields_key, empty. rewrite Hrows.
    split; [by destruct allow_empty|].
    unfold subset_of in *. cbn in Hrows. by rewrite Hrows.
  - intros key Hrows. unfold yields_key, empty.
    destruct (rows (subset_of t js key)); [done|].
    assert (columns t <> []) as Hcols.
    { destruct gvs as [|g gvs]; [done|]. unfold groupby in Hjs.
      cbn in Hjs. unfold col_pos, col_names in Hjs.
      destruct (columns t); [|done]. done. }
    cbn. destruct (columns t); [done|]. by destruct allow_empty.
Qed.

(** C7: a run with [reverse=True] fails exactly when the run without does,
    and else yields the same pairs of key and subset contents, in the
    reverse order. *)
Theorem iter_data_reverse (grouping_vars : grouping_arg)
  (from_comp_data by_facet allow_empty dropna : bool) (w : world) :
  match iter_data grouping_vars false from_comp_data by_facet allow_empty dropna w,
        iter_data grouping_vars true from_comp_data by_facet allow_empty dropna w
  with
  | Ok (ys, w1), Ok (zs, w2) => contents w2 zs = rev (contents w1 ys)
  | Raise e1, Raise e2 => e1 = e2
  | _, _ => False
  end.
Proof.
  unfold iter_data.
  destruct (iter_data_setup grouping_vars from_comp_data by_facet dropna w)
    as [[[[gvs data] levels] w1]|e] eqn:Hsetup.
  2: { by rewrite !(bind_raise _ _ _ _ Hsetup). }
  rewrite !(bind_run _ _ _ _ _ Hsetup).
  destruct gvs as [|g gvs].
  - destruct (heap w1 !! data) as [t|] eqn:Ht.
    + rewrite !(bind_run _ _ _ _ _ (read_run _ _ _ Ht)). done.
    + unfold read, mbind, M_bind. by rewrite Ht.
  - destruct (heap w1 !! data) as [t|] eqn:Ht.
    2: { unfold read, mbind, M_bind. by rewrite Ht. }
    rewrite !(bind_run _ _ _ _ _ (read_run _ _ _ Ht)).
    destruct (groupby t (g :: gvs)) as [js|e] eqn:Hjs.
    2: { unfold lift, mbind, M_bind. done. }
    destruct (grouping_keys_of levels (g :: gvs)) as [gks|e] eqn:Hgks.
    2: { unfold lift, mbind, M_bind. done. }
    unfold lift, mbind at 1 2 3 4, M_bind at 1 2 3 4.
    destruct (iter_groups_run data (g :: gvs) js allow_empty (product gks) w1 t Ht)
      as (ys & ext & Hrun & Hys & _ & _).
    destruct (iter_groups_run data (g :: gvs) js allow_empty (rev (product gks)) w1 t Ht)
      as (zs & ext' & Hrun' & Hzs & _ & _).
    rewrite Hrun, Hrun'.
    rewrite (contents_Forall2 _ _ _ (World (heap w1 ++ ext) (self w1)) _ _ Hys).
    rewrite (contents_Forall2 _ _ _ (World (heap w1 ++ ext') (self w1)) _ _ Hzs).
    by rewrite <- map_rev, filter_rev.
Qed.

(** C10: a run of [iter_data] from a state whose plot table exists changes
    no table that was there and leaves the plotter on the same plot table.
    Every subset it yields is a table made during the run, its own: the
    references yielded are pairwise different, and overwriting the table
    behind any of them leaves the plot table as it was. *)
Theorem iter_data_fresh_copies (grouping_vars : grouping_arg)
  (reverse from_comp_data by_facet allow_empty dropna : bool)
  (w w' : world) (ys : list (gmap string value * loc)) :
  is_Some (heap w !! plot_data (self w)) ->
  iter_data grouping_vars reverse from_comp_data by_facet allow_empty dropna w
  = Ok (ys, w') ->
  extends w w' /\
  heap w' !! plot_data (self w') = heap w !! plot_data (self w) /\
  Forall (fun y => (length (heap w) <= y.2 < length (heap w'))%nat) ys /\
  NoDup ys.*2 /\
  forall y t', y ∈ ys ->
    <[y.2 := t']> (heap w') !! plot_data (self w') = heap w !! plot_data (self w).
Proof.
  intros [pd Hpd] Hrun.
  apply iter_data_inv in Hrun
    as (gvs & data & levels & w1 & t & Hsetup & Ht & Hcase).
  apply grows_iter_data_setup in Hsetup as Hext.
  pose proof (extends_length _ _ Hext) as Hlen.
  assert (extends w1 w' /\
          Forall (fun y => (length (heap w1) <= y.2 < length (heap w'))%nat) ys /\
          NoDup ys.*2) as (Hext' & Hfresh & Hnd).
  { destruct Hcase as [(-> & -> & ->)|(Hne & js & gks & Hjs & Hgks & Hloop)].
    - split; [split; [by exists [t] | done]|]. cbn. split.
      + repeat constructor; cbn; rewrite ?length_app; cbn; lia.
      + apply NoDup_singleton.
    - destruct (iter_groups_run data gvs js allow_empty
                  (if reverse then rev (product gks) else product gks) w1 t Ht)
        as (ys' & ext & Hrun' & _ & Hfresh & Hnd).
      rewrite Hloop in Hrun'. injection Hrun' as <- ->.
      split; [split; [by exists ext | done]|].
      split; [exact Hfresh | exact Hnd]. }
  pose proof (extends_trans _ _ _ Hext Hext') as Hall.
  assert (heap w' !! plot_data (self w') = heap w !! plot_data (self w)) as Hsame.
  { pose proof Hall as [_ Hpl]. rewrite Hpl, Hpd. by apply (extends_lookup w w'). }
  split; [done|]. split; [done|]. split; [|split; [done|]].
  - eapply Forall_impl; [exact Hfresh|]. intros y. cbn. lia.
  - intros y t' Hy. rewrite Forall_forall in Hfresh. apply Hfresh in Hy.
    rewrite list_lookup_insert_ne; [done|].
    destruct Hall as [_ ->]. apply lookup_lt_Some in Hpd. cbn in Hy.
    unfold loc in *. lia.
Qed.
End IterFacts.

Lemma iter_data_empty_groups_witness :
  exists ys w',
    iter_data (GStr "hue") false false true true true abc_world = Ok (ys, w') /\
    length ys = 3%nat.
Proof.
  edestruct (iter_data_empty_groups (GStr "hue") false false true true true abc_world)
    as (ys & w' & Hrun & Hys & _).
  - vm_compute. reflexivity.
  - discriminate.
  - reflexivity.
  - reflexivity.
  - reflexivity.
  - exists ys, w'. split; [exact Hrun|].
    apply Forall2_length in Hys. rewrite <- Hys. reflexivity.
Defined.

(** The example of the design document: the levels of hue are "a", "b" and
    "c" and no row has "b". The default run skips "b"; with
    [allow_empty=True] it yields "b" with the columns and no row. *)
Lemma iter_data_skips_b :
  match iter_data (GStr "hue") false false true false true abc_world with
  | Ok (ys, w') =>
      contents w' ys
      = [({[ "hue" := VStr "a" ]},
          Some (Table [("x", DNumeric); ("hue", DObject)]
                      [Row (VInt 0) [VInt 10; VStr "a"];
                       Row (VInt 1) [VInt 20; VStr "a"]]));
         ({[ "hue" := VStr "c" ]},
          Some (Table [("x", DNumeric); ("hue", DObject)]
                      [Row (VInt 2) [VInt 30; VStr "c"]]))]
  | Raise _ => False
  end.
Proof. vm_compute. reflexivity. Qed.

Lemma iter_data_allow_empty_yields_b :
  match iter_data (GStr "hue") false false true true true abc_world with
  | Ok (ys, w') =>
      contents w' ys
      = [({[ "hue" := VStr "a" ]},
          Some (Table [("x", DNumeric); ("hue", DObject)]
                      [Row (VInt 0) [VInt 10; VStr "a"];
                       Row (VInt 1) [VInt 20; VStr "a"]]));
         ({[ "hue" := VStr "b" ]},
          Some (Table [("x", DNumeric); ("hue", DObject)] []));
         ({[ "hue" := VStr "c" ]},
          Some (Table [("x", DNumeric); ("hue", DObject)]
                      [Row (VInt 2) [VInt 30; VStr "c"]]))]
  | Raise _ => False
  end.
Proof. vm_compute. reflexivity. Qed.

Lemma iter_data_fresh_copies_witness :
  exists ys w',
    iter_data (GStr "hue") false false true true true abc_world = Ok (ys, w') /\
    NoDup ys.*2 /\
    heap w' !! 0%nat = Some abc_table.
Proof.
  destruct (iter_data (GStr "hue") false false true true true abc_world)
    as [[ys w']|e] eqn:Hrun; [|vm_compute in Hrun; discriminate].
  destruct (iter_data_fresh_copies (GStr "hue") false false true true true
              abc_world w' ys) as (Hext & Hsame & _ & Hnd & _).
  - eexists. reflexivity.
  - exact Hrun.
  - exists ys, w'. split; [reflexivity|]. split; [exact Hnd|].
    destruct Hext as [_ Hpd]. rewrite Hpd in Hsame. exact Hsame.
Defined.

(** ** Categorical scaling *)

Section ScalingFacts.
Context `{Mpl : Matplotlib} `{Rt : Runtime}.

(** C4: [scale_categorical] invoked twice on the axis x of a plotter whose
    x column is categorical, with the defaults for [order] and [formatter].
    Both invocations return. The first records the order of the declared
    categories and that the axis is ordered; the second replaces the order
    by the order of appearance and records the axis as unordered. *)
Theorem scale_categorical_twice_changes_order :
  exists w1 w2,
    scale_categorical "x" None None cat_world = Ok (tt, w1) /\
    scale_categorical "x" None None w1 = Ok (tt, w2) /\
    _var_levels (self w1) !! "x" = Some (Some [VStr "a"; VStr "b"]) /\
    _var_levels (self w2) !! "x" = Some (Some [VStr "b"; VStr "a"]) /\
    _var_ordered (self w1) !! "x" = Some true /\
    _var_ordered (self w2) !! "x" = Some false /\
    heap w2 !! plot_data (self w2) = heap w1 !! plot_data (self w1).
Proof.
  destruct (scale_categorical "x" None None cat_world) as [[[] w1]|e] eqn:H1;
    [|vm_compute in H1; discriminate].
  destruct (scale_categorical "x" None None w1) as [[[] w2]|e] eqn:H2.
  2: { revert H2. injection H1 as <-. vm_compute. discriminate. }
  exists w1, w2. split; [done|]. split; [done|].
  revert H2. injection H1 as <-. intros H2.
  vm_compute in H2. injection H2 as <-.
  vm_compute. done.
Qed.
End ScalingFacts.

(** The same on a column with a missing value: the first invocation turns
    the missing cell into the string "nan", which the second takes for a
    level. *)
Lemma scale_categorical_twice_adds_nan_level :
  match (scale_categorical "x" None None nan_world),
        (scale_categorical "x" None None;; scale_categorical "x" None None) nan_world
  with
  | Ok (_, w1), Ok (_, w2) =>
      _var_levels (self w1) !! "x" = Some (Some [VStr "a"]) /\
      _var_levels (self w2) !! "x" = Some (Some [VStr "a"; VStr "nan"])
  | _, _ => False
  end.
Proof. vm_compute. done. Qed.

(** With a formatter the table changes as well: the formatter is applied
    to the cells again. *)
Lemma scale_categorical_twice_formats_twice :
  match (scale_categorical "x" None (Some marked)) ab_world,
        (scale_categorical "x" None (Some marked);;
         scale_categorical "x" None (Some marked)) ab_world
  with
  | Ok (_, w1), Ok (_, w2) =>
      (heap w1 !! plot_data (self w1) ≫= fun t => rows t !! 0%nat)
      = Some (Row (VInt 0) [VStr "1!"; VStr "a"]) /\
      (heap w2 !! plot_data (self w2) ≫= fun t => rows t !! 0%nat)
      = Some (Row (VInt 0) [VStr "1!!"; VStr "a"])
  | _, _ => False
  end.
Proof. vm_compute. done. Qed.

(** On a numeric column without missing values and with the defaults, the
    second invocation changes nothing. *)
Lemma scale_categorical_twice_numeric_same :
  match (scale_categorical "x" None None) abc_world with
  | Ok (_, w1) => scale_categorical "x" None None w1 = Ok (tt, w1)
  | Raise _ => False
  end.
Proof. vm_compute. reflexivity. Qed.

(** * Further properties of the module *)

(** ** [unique_dashes] and [unique_markers] *)

Lemma cwr_single {A} (b : A) p :
  combinations_with_replacement [b] p = [replicate p b].
Proof.
  induction p as [|p IH]; [done|].
  cbn [combinations_with_replacement]. rewrite IH. done.
Qed.

Lemma cwr_pair {A} (a b : A) p :
  combinations_with_replacement [a; b] p
  = map (fun k => replicate (p - k) a ++ replicate k b) (seq 0 (S p)).
Proof.
  induction p as [|p IH]; [done|].
  cbn [combinations_with_replacement]. rewrite IH, cwr_single.
  rewrite app_nil_r.
  replace (S (S p)) with (S p + 1)%nat by lia. rewrite seq_app, map_app.
  f_equal.
  - rewrite map_map. apply map_ext_in. intros k Hk%in_seq.
    replace (S p - k)%nat with (S (p - k)) by lia. done.
  - cbn. replace (p - p)%nat with 0%nat by lia. done.
Qed.
Lemma trim_ends_map_seq {A} (f : nat -> A) p :
  trim_ends (map f (seq 0 (S p))) = map f (seq 1 (p - 1)).
Proof.
  unfold trim_ends. cbn [seq map tl].
  destruct p as [|p]; [done|].
  replace (S p - 1)%nat with p by lia.
  replace (S p) with (p + 1)%nat by lia.
  rewrite seq_app, map_app. cbn. rewrite removelast_last. done.
Qed.

Lemma rev_seq_1 n : rev (seq 1 n) = map (fun i => (S n - i)%nat) (seq 1 n).
Proof.
  induction n as [|n IH]; [done|].
  replace (S n) with (n + 1)%nat at 1 by lia.
  rewrite seq_app, rev_app_distr. cbn [seq rev app Nat.add].
  rewrite IH. replace (1 + n)%nat with (S n) by lia.
  replace (S (S n) - S n)%nat with 1%nat by lia.
  change (seq 1 (S n)) with (1%nat :: seq 2 n).
  cbn [map]. replace (S (S n) - 1)%nat with (S n) by lia.
  rewrite <- (seq_shift n 1), !map_map.
  done.
Qed.

Lemma zip_map_same {A B C} (f : A -> B) (g : A -> C) l :
  zip (map f l) (map g l) = map (fun x => (f x, g x)) l.
Proof. induction l as [|x l IH]; [done|]. cbn. by rewrite IH. Qed.

Lemma mapM_result_Ok {A B} (f : A -> result B) (h : A -> B) l :
  Forall (fun x => f x = Ok (h x)) l -> mapM f l = Ok (map h l).
Proof.
  induction 1 as [|x l Hx _ IH]; [done|].
  cbn. rewrite Hx. cbn. rewrite IH. done.
Qed.

Lemma foldl_min_replicate m n :
  foldl (fun m y => if Qle_bool m y then m else y) m (replicate n m) = m.
Proof.
  induction n as [|n IH]; [done|]. cbn.
  replace (Qle_bool m m) with true; [done|].
  symmetry. apply Qle_bool_iff. apply Qle_refl.
Qed.

Lemma py_min_long_short long short p k :
  Qle_bool long short = false -> (1 <= k)%nat ->
  py_min (long_short long short p k) = Ok short.
Proof.
  intros Hls Hk. unfold long_short.
  assert (Hfold : forall n, foldl (fun m y => if Qle_bool m y then m else y) long
            (replicate n long ++ replicate k short) = short).
  { intros n. rewrite foldl_app, foldl_min_replicate.
    destruct k as [|k]; [lia|]. cbn. rewrite Hls. apply foldl_min_replicate. }
  destruct (p - k)%nat as [|n].
  - destruct k as [|k]; [lia|]. cbn. by rewrite foldl_min_replicate.
  - cbn. by rewrite Hfold.
Qed.

Lemma more_dashes_eq p : more_dashes p = Ok (dash_round p).
Proof.
  unfold more_dashes, chain_zip, dash_round.
  rewrite !cwr_pair, !trim_ends_map_seq.
  rewrite <- map_rev, rev_seq_1, map_map, zip_map_same.
  assert (Hl : Forall (fun i => 1 <= i <= p - 1)%nat (seq 1 (p - 1))).
  { apply List.Forall_forall. intros i Hi%in_seq. lia. }
  induction Hl as [|i l Hi _ IH]; [done|].
  cbn [map flat_map app fst snd mapM].
  rewrite IH.
  replace (S (p - 1) - i)%nat with (p - i)%nat by lia.
  fold (long_short 4 1 p i). fold (long_short 3 (5 # 4) p (p - i)).
  unfold dash_spec.
  rewrite !py_min_long_short by (done || lia). done.
Qed.
Lemma flat_map_bind {A B} (f : A -> list B) l : flat_map f l = l ≫= f.
Proof. induction l as [|x l IH]; [done|]. cbn. by rewrite IH. Qed.

Lemma NoDup_flat_map {A B} (f : A -> list B) l :
  (forall x1 x2 y, x1 ∈ l -> x2 ∈ l -> y ∈ f x1 -> y ∈ f x2 -> x1 = x2) ->
  (forall x, x ∈ l -> NoDup (f x)) -> NoDup l -> NoDup (flat_map f l).
Proof. rewrite flat_map_bind. apply NoDup_bind. Qed.

Lemma elem_of_flat_map {A B} (f : A -> list B) l y :
  y ∈ flat_map f l <-> exists x, x ∈ l /\ y ∈ f x.
Proof.
  rewrite flat_map_bind, list_elem_of_bind. split; intros (x & ? & ?); eauto.
Qed.

Lemma dashes_upto_S k : dashes_upto (S k) = dashes_upto k ++ dash_round (3 + k).
Proof.
  unfold dashes_upto. replace (S k) with (k + 1)%nat by lia.
  rewrite seq_app, flat_map_app. cbn [seq flat_map]. by rewrite app_nil_r, app_assoc.
Qed.

Lemma dash_round_length p : length (dash_round p) = (2 * (p - 1))%nat.
Proof.
  unfold dash_round.
  rewrite (flat_map_constant_length (c := 2)) by done.
  rewrite length_seq. lia.
Qed.

Lemma dashes_upto_prefix k k' : (k <= k')%nat -> dashes_upto k `prefix_of` dashes_upto k'.
Proof.
  induction 1 as [|k' _ IH]; [done|].
  rewrite dashes_upto_S. by apply prefix_app_r.
Qed.

Lemma dashes_upto_grows k : (5 + 4 * k <= length (dashes_upto k))%nat.
Proof.
  induction k as [|k IH]; [cbn; lia|].
  rewrite dashes_upto_S, length_app, dash_round_length. lia.
Qed.

Lemma unique_dashes_loop_upto fuel n k r :
  unique_dashes_loop fuel n (3 + k) (dashes_upto k) = Some r ->
  exists k', (k <= k')%nat /\ r = Ok (dashes_upto k')
             /\ (n <= Z.of_nat (length (dashes_upto k')))%Z.
Proof.
  revert k. induction fuel as [|fuel IH]; intros k; cbn [unique_dashes_loop].
  - case_match eqn:Hlt; [done|]. intros [= <-]. exists k. split_and!; [done..|lia].
  - case_match eqn:Hlt.
    + rewrite more_dashes_eq, <- dashes_upto_S.
      change (S (3 + k)) with (3 + S k)%nat.
      intros (k' & ? & ? & ?)%IH. exists k'. split_and!; [lia|done..].
    + intros [= <-]. exists k. split_and!; [done..|lia].
Qed.

Lemma unique_dashes_loop_returns fuel n k :
  (Z.to_nat n <= length (dashes_upto k) + fuel)%nat ->
  exists r, unique_dashes_loop fuel n (3 + k) (dashes_upto k) = Some r.
Proof.
  revert k. induction fuel as [|fuel IH]; intros k Hn; cbn [unique_dashes_loop].
  - case_match eqn:Hlt; [lia|]. eauto.
  - case_match eqn:Hlt; [|eauto].
    rewrite more_dashes_eq, <- dashes_upto_S.
    change (S (3 + k)) with (3 + S k)%nat. apply IH.
    rewrite dashes_upto_S, length_app, dash_round_length. lia.
Qed.

Lemma unique_dashes_loop_fuel fuel fuel' n p dashes r :
  unique_dashes_loop fuel n p dashes = Some r -> (fuel <= fuel')%nat ->
  unique_dashes_loop fuel' n p dashes = Some r.
Proof.
  revert fuel' p dashes. induction fuel as [|fuel IH]; intros fuel' p dashes;
    cbn [unique_dashes_loop].
  - case_match eqn:Hlt; [done|]. intros [= <-] _.
    destruct fuel'; cbn [unique_dashes_loop]; by rewrite Hlt.
  - intros Hr Hf. destruct fuel' as [|fuel']; [lia|]. cbn [unique_dashes_loop].
    case_match eqn:Hlt; [|done].
    destruct (more_dashes p); [|done]. apply IH; [done|lia].
Qed.

Lemma unique_dashes_upto fuel n l :
  unique_dashes fuel n = Some (Ok l) ->
  exists k, l = slice_to (dashes_upto k) n /\ (n <= Z.of_nat (length (dashes_upto k)))%Z.
Proof.
  unfold unique_dashes.
  destruct (unique_dashes_loop fuel n 3 first_dashes) as [r|] eqn:Hloop; [|done].
  apply (unique_dashes_loop_upto fuel n 0) in Hloop as (k & _ & -> & Hn).
  intros [= <-]. eauto.
Qed.

Lemma unique_dashes_returns (n extra : nat) :
  exists l, unique_dashes (n + extra) (Z.of_nat n) = Some (Ok l).
Proof.
  destruct (unique_dashes_loop_returns (n + extra) (Z.of_nat n) 0) as [r Hr].
  { rewrite Nat2Z.id. lia. }
  pose proof Hr as Hr'.
  apply unique_dashes_loop_upto in Hr' as (k & _ & -> & _).
  unfold unique_dashes. change (dashes_upto 0) with first_dashes in Hr.
  change (3 + 0)%nat with 3%nat in Hr. rewrite Hr. eauto.
Qed.

Lemma slice_to_nat {A} (l : list A) (n : nat) : slice_to l (Z.of_nat n) = take n l.
Proof.
  unfold slice_to. destruct (Z.leb_spec 0 (Z.of_nat n)); [|lia]. by rewrite Nat2Z.id.
Qed.

(** X1: [unique_dashes(n)] returns, and returns exactly [n] specs. *)
Theorem unique_dashes_length (n extra : nat) :
  exists l, unique_dashes (n + extra) (Z.of_nat n) = Some (Ok l) /\ length l = n.
Proof.
  destruct (unique_dashes_returns n extra) as [l Hl]. exists l. split; [done|].
  apply unique_dashes_upto in Hl as (k & -> & Hk).
  rewrite slice_to_nat, length_take. lia.
Qed.

(** X2: asking for more specs does not change the first ones. *)
Theorem unique_dashes_prefix (n more : nat) :
  exists l, unique_dashes (n + more) (Z.of_nat (n + more)) = Some (Ok l)
            /\ unique_dashes n (Z.of_nat n) = Some (Ok (take n l)).
Proof.
  destruct (unique_dashes_returns (n + more) 0) as [l Hl].
  destruct (unique_dashes_returns n 0) as [l' Hl'].
  rewrite Nat.add_0_r in Hl, Hl'. exists l. split; [done|].
  rewrite Hl'. do 2 f_equal.
  apply unique_dashes_upto in Hl as (k & -> & Hk).
  apply unique_dashes_upto in Hl' as (k' & -> & Hk').
  rewrite !slice_to_nat, take_take.
  replace (n `min` (n + more))%nat with n by lia.
  destruct (Nat.le_ge_cases k k') as [Hle|Hle];
    apply dashes_upto_prefix in Hle as [rest ->].
  - rewrite take_app_le by lia. done.
  - rewrite take_app_le by lia. done.
Qed.
Lemma count_with_gaps x g segs :
  Qeq_bool x g = false ->
  length (List.filter (Qeq_bool x) (with_gaps g segs))
  = length (List.filter (Qeq_bool x) segs).
Proof.
  intros Hg. unfold with_gaps. induction segs as [|s segs IH]; [done|].
  cbn. rewrite Hg. destruct (Qeq_bool x s); cbn; by rewrite IH.
Qed.

Lemma count_replicate x y n :
  length (List.filter (Qeq_bool x) (replicate n y))
  = if Qeq_bool x y then n else O.
Proof.
  induction n as [|n IH]; cbn; [by destruct (Qeq_bool x y)|].
  destruct (Qeq_bool x y); cbn; by rewrite ?IH.
Qed.

Lemma dash_count_long_short x g long short p k :
  Qeq_bool x g = false -> Qeq_bool x long = true -> Qeq_bool x short = false ->
  dash_count x (DashSeq (with_gaps g (long_short long short p k))) = (p - k)%nat.
Proof.
  intros Hg Hl Hs. unfold dash_count. rewrite count_with_gaps by done.
  unfold long_short. rewrite List.filter_app, length_app, !count_replicate, Hl, Hs. lia.
Qed.

Lemma dash_count_none x g long short p k :
  Qeq_bool x g = false -> Qeq_bool x long = false -> Qeq_bool x short = false ->
  dash_count x (DashSeq (with_gaps g (long_short long short p k))) = O.
Proof.
  intros Hg Hl Hs. unfold dash_count. rewrite count_with_gaps by done.
  unfold long_short. rewrite List.filter_app, length_app, !count_replicate, Hl, Hs. lia.
Qed.

Lemma dash_length_long_short g long short p k :
  (k <= p)%nat ->
  dash_length (DashSeq (with_gaps g (long_short long short p k))) = (2 * p)%nat.
Proof.
  intros Hk. unfold dash_length, with_gaps, long_short.
  rewrite (flat_map_constant_length (c := 2)) by done.
  rewrite length_app, !length_replicate. lia.
Qed.

Lemma elem_of_dash_round d p :
  d ∈ dash_round p ->
  exists i, (1 <= i <= p - 1)%nat
    /\ (d = DashSeq (with_gaps (5 # 4) (long_short 3 (5 # 4) p (p - i)))
        \/ d = DashSeq (with_gaps 1 (long_short 4 1 p i))).
Proof.
  unfold dash_round. rewrite elem_of_flat_map. intros (i & Hi & Hd).
  apply elem_of_seq in Hi. exists i. split; [lia|].
  apply elem_of_cons in Hd as [->|Hd]; [by left|].
  apply list_elem_of_singleton in Hd as ->. by right.
Qed.

Lemma dash_round_measures d p :
  d ∈ dash_round p ->
  dash_length d = (2 * p)%nat /\ (2 <= p)%nat
  /\ (1 <= dash_count 3 d + dash_count 4 d)%nat.
Proof.
  intros (i & Hi & [->| ->])%elem_of_dash_round.
  - rewrite dash_length_long_short, dash_count_long_short by (done || lia). lia.
  - rewrite dash_length_long_short, (dash_count_long_short 4) by (done || lia). lia.
Qed.

Lemma NoDup_dash_round p : NoDup (dash_round p).
Proof.
  unfold dash_round. apply NoDup_flat_map; [| |apply NoDup_seq].
  - intros i1 i2 d Hi1%elem_of_seq Hi2%elem_of_seq H1 H2.
    assert (H3 : forall i, (1 <= i <= p - 1)%nat ->
      d ∈ [DashSeq (with_gaps (5 # 4) (long_short 3 (5 # 4) p (p - i)));
            DashSeq (with_gaps 1 (long_short 4 1 p i))] ->
      (dash_count 3 d = i /\ dash_count 4 d = O)
      \/ (dash_count 3 d = O /\ dash_count 4 d = (p - i)%nat)).
    { intros i Hi [->|Hd]%elem_of_cons; [left|right].
      - rewrite (dash_count_long_short 3), (dash_count_none 4) by done. lia.
      - apply list_elem_of_singleton in Hd as ->.
        by rewrite (dash_count_none 3), (dash_count_long_short 4) by done. }
    apply H3 in H1; [|lia]. apply H3 in H2; [|lia]. lia.
  - intros i Hi%elem_of_seq. apply NoDup_cons. split; [|apply NoDup_singleton].
    intros Heq%list_elem_of_singleton.
    apply (f_equal (dash_count 3)) in Heq.
    rewrite (dash_count_long_short 3), (dash_count_none 3) in Heq by done. lia.
Qed.

Lemma NoDup_dashes_upto k : NoDup (dashes_upto k).
Proof.
  unfold dashes_upto. apply NoDup_app. split_and!.
  - unfold first_dashes.
    repeat (apply NoDup_cons; split;
            [intros Hin;
             repeat (apply elem_of_cons in Hin as [Hin|Hin]; [discriminate Hin|]);
             by apply elem_of_nil in Hin|]).
    apply NoDup_nil_2.
  - intros d Hd (p & Hp & Hr)%elem_of_flat_map.
    apply dash_round_measures in Hr as (Hlen & _). apply elem_of_seq in Hp.
    unfold first_dashes in Hd.
    repeat (apply elem_of_cons in Hd as [->|Hd]; [cbn in Hlen; lia|]).
    by apply elem_of_nil in Hd.
  - apply NoDup_flat_map; [| |apply NoDup_seq].
    + intros p1 p2 d _ _ (H1 & _)%dash_round_measures (H2 & _)%dash_round_measures. lia.
    + intros p _. apply NoDup_dash_round.
Qed.

Lemma slice_to_sublist {A} (l : list A) n : slice_to l n `sublist_of` l.
Proof. unfold slice_to. case_match; apply sublist_take. Qed.

(** X3: the dash specs that [unique_dashes] returns are pairwise different. *)
Theorem unique_dashes_distinct fuel n l :
  unique_dashes fuel n = Some (Ok l) -> NoDup l.
Proof.
  intros (k & -> & _)%unique_dashes_upto.
  eapply sublist_NoDup; [apply NoDup_dashes_upto|apply slice_to_sublist].
Qed.

Lemma unique_dashes_distinct_witness :
  exists l, unique_dashes 3 12 = Some (Ok l) /\ length l = 12%nat /\ NoDup l.
Proof.
  eexists. split; [vm_compute; reflexivity|]. split; [reflexivity|].
  apply (unique_dashes_distinct 3 12). vm_compute. reflexivity.
Defined.
Lemma Forall_with_gaps (P : Q -> Prop) g segs :
  P g -> Forall P segs -> Forall P (with_gaps g segs).
Proof.
  intros Hg. unfold with_gaps. induction 1; cbn; [done|].
  by repeat apply Forall_cons_2.
Qed.

(** X4: every dash spec of [unique_dashes] is the solid line or a sequence of
    an even number of positive lengths. *)
Theorem unique_dashes_valid fuel n l d :
  unique_dashes fuel n = Some (Ok l) -> d ∈ l ->
  d = DashStr ""
  \/ exists segments, d = DashSeq segments /\ segments <> []
       /\ Nat.Even (length segments) /\ Forall (fun q => 0 < q)%Q segments.
Proof.
  intros (k & -> & _)%unique_dashes_upto Hd.
  eapply elem_of_sublist in Hd; [|apply slice_to_sublist].
  unfold dashes_upto in Hd. apply elem_of_app in Hd as [Hd|Hd].
  - unfold first_dashes in Hd.
    apply elem_of_cons in Hd as [->|Hd]; [by left|]. right.
    repeat (apply elem_of_cons in Hd as [->|Hd];
            [eexists; split_and!; [done|done| |by repeat constructor]|]);
      [by exists 1%nat|by exists 1%nat|by exists 2%nat|by exists 2%nat|].
    by apply elem_of_nil in Hd.
  - right. apply elem_of_flat_map in Hd as (p & _ & Hd).
    pose proof (dash_round_measures _ _ Hd) as (Hlen & Hp & _).
    apply elem_of_dash_round in Hd as (i & Hi & [->| ->]);
      (eexists; split_and!; [done| | |]).
    + intros Hnil. by rewrite Hnil in Hlen; cbn in Hlen; lia.
    + exists p. apply Hlen.
    + apply Forall_with_gaps; [done|]. apply Forall_app; split; by apply Forall_replicate.
    + intros Hnil. by rewrite Hnil in Hlen; cbn in Hlen; lia.
    + exists p. apply Hlen.
    + apply Forall_with_gaps; [done|]. apply Forall_app; split; by apply Forall_replicate.
Qed.

Lemma unique_dashes_valid_witness :
  DashSeq [4%Q; 1%Q; 4%Q; 1%Q; 1%Q; 1%Q] = DashStr ""
  \/ exists segments, DashSeq [4%Q; 1%Q; 4%Q; 1%Q; 1%Q; 1%Q] = DashSeq segments
       /\ segments <> []
       /\ Nat.Even (length segments) /\ Forall (fun q => 0 < q)%Q segments.
Proof.
  eapply (unique_dashes_valid 1 7); [vm_compute; reflexivity|].
  do 6 apply list_elem_of_further. apply list_elem_of_here.
Defined.

(** ** The marker loop *)

Lemma markers_upto_S k :
  markers_upto (S k) = markers_upto k ++ more_markers (Z.of_nat (5 + k)).
Proof.
  unfold markers_upto. replace (S k) with (k + 1)%nat by lia.
  rewrite seq_app, flat_map_app. cbn [seq flat_map]. by rewrite app_nil_r, app_assoc.
Qed.

Lemma markers_upto_length k : length (markers_upto k) = (9 + 4 * k)%nat.
Proof.
  induction k as [|k IH]; [done|].
  rewrite markers_upto_S, length_app, IH. cbn. lia.
Qed.

Lemma unique_markers_loop_upto fuel n k r :
  unique_markers_loop fuel n (Z.of_nat (5 + k)) (markers_upto k) = Some r ->
  exists k', r = markers_upto k' /\ (n <= Z.of_nat (length (markers_upto k')))%Z.
Proof.
  revert k. induction fuel as [|fuel IH]; intros k; cbn [unique_markers_loop].
  - case_match eqn:Hlt; [done|]. intros [= <-]. exists k. split; [done|lia].
  - case_match eqn:Hlt.
    + rewrite <- markers_upto_S.
      replace (Z.of_nat (5 + k) + 1)%Z with (Z.of_nat (5 + S k)) by lia.
      apply IH.
    + intros [= <-]. exists k. split; [done|lia].
Qed.

Lemma unique_markers_loop_returns fuel n k :
  (Z.to_nat n <= length (markers_upto k) + fuel)%nat ->
  exists r, unique_markers_loop fuel n (Z.of_nat (5 + k)) (markers_upto k) = Some r.
Proof.
  revert k. induction fuel as [|fuel IH]; intros k Hn; cbn [unique_markers_loop].
  - case_match eqn:Hlt; [lia|]. eauto.
  - case_match eqn:Hlt; [|eauto].
    rewrite <- markers_upto_S.
    replace (Z.of_nat (5 + k) + 1)%Z with (Z.of_nat (5 + S k)) by lia.
    apply IH. rewrite !markers_upto_length in *. lia.
Qed.

Lemma unique_markers_upto fuel n l :
  unique_markers fuel n = Some l ->
  exists k, l = slice_to (markers_upto k) n /\ (n <= Z.of_nat (length (markers_upto k)))%Z.
Proof.
  unfold unique_markers.
  destruct (unique_markers_loop fuel n 5 first_markers) as [r|] eqn:Hloop; [|done].
  apply (unique_markers_loop_upto fuel n 0) in Hloop as (k & -> & Hn).
  intros [= <-]. eauto.
Qed.

Lemma unique_markers_returns (n extra : nat) :
  exists l, unique_markers (n + extra) (Z.of_nat n) = Some l.
Proof.
  destruct (unique_markers_loop_returns (n + extra) (Z.of_nat n) 0) as [r Hr].
  { rewrite Nat2Z.id. lia. }
  unfold unique_markers. change (markers_upto 0) with first_markers in Hr.
  change (Z.of_nat (5 + 0)) with 5%Z in Hr. rewrite Hr. cbn. eauto.
Qed.

(** X5: [unique_markers(n)] returns, and returns exactly [n] markers. *)
Theorem unique_markers_length (n extra : nat) :
  exists l, unique_markers (n + extra) (Z.of_nat n) = Some l /\ length l = n.
Proof.
  destruct (unique_markers_returns n extra) as [l Hl]. exists l. split; [done|].
  apply unique_markers_upto in Hl as (k & -> & Hk).
  rewrite slice_to_nat, length_take. lia.
Qed.

Lemma marker_angle_nonzero (s : nat) :
  (360 / inject_Z (Z.of_nat s + 1) / 2)%Q <> 0%Q.
Proof.
  intros Heq.
  assert (Hpos : (0 < 360 / inject_Z (Z.of_nat s + 1) / 2)%Q).
  { apply Qlt_shift_div_l; [done|]. apply Qlt_shift_div_l.
    - change 0%Q with (inject_Z 0). rewrite <- Zlt_Qlt. lia.
    - done. }
  rewrite Heq in Hpos. by apply Qlt_irrefl in Hpos.
Qed.

Ltac marker_eq H :=
  injection H; intros; try lia;
  match goal with
  | Ha : _ = 0%Q |- _ => by apply marker_angle_nonzero in Ha
  | Ha : 0%Q = _ |- _ => symmetry in Ha; by apply marker_angle_nonzero in Ha
  end.

Lemma more_markers_round (s1 s2 : nat) m :
  m ∈ more_markers (Z.of_nat s1) -> m ∈ more_markers (Z.of_nat s2) -> s1 = s2.
Proof.
  unfold more_markers. intros H1 H2.
  repeat (apply elem_of_cons in H1 as [->|H1]);
    try (by apply elem_of_nil in H1);
    repeat (apply elem_of_cons in H2 as [H2|H2]);
    try (by apply elem_of_nil in H2);
    marker_eq H2.
Qed.

Lemma NoDup_more_markers (s : nat) : NoDup (more_markers (Z.of_nat s)).
Proof.
  unfold more_markers.
  repeat (apply NoDup_cons; split;
          [intros Hin;
           repeat (apply elem_of_cons in Hin as [Hin|Hin];
                   [marker_eq Hin|]);
           by apply elem_of_nil in Hin|]).
  apply NoDup_nil_2.
Qed.

Lemma NoDup_markers_upto k : NoDup (markers_upto k).
Proof.
  unfold markers_upto. apply NoDup_app. split_and!.
  - unfold first_markers.
    repeat (apply NoDup_cons; split;
            [intros Hin;
             repeat (apply elem_of_cons in Hin as [Hin|Hin]; [discriminate Hin|]);
             by apply elem_of_nil in Hin|]).
    apply NoDup_nil_2.
  - intros m Hm (s & Hs & Hr)%elem_of_flat_map. apply elem_of_seq in Hs.
    unfold first_markers in Hm. unfold more_markers in Hr.
    repeat (apply elem_of_cons in Hr as [->|Hr]);
      try (by apply elem_of_nil in Hr);
      repeat (apply elem_of_cons in Hm as [Hm|Hm]; [try discriminate Hm; injection Hm; lia|]);
      by apply elem_of_nil in Hm.
  - apply NoDup_flat_map; [| |apply NoDup_seq].
    + intros s1 s2 m _ _. apply more_markers_round.
    + intros s _. apply NoDup_more_markers.
Qed.

(** X6: the markers that [unique_markers] returns are pairwise different. *)
Theorem unique_markers_distinct fuel n l :
  unique_markers fuel n = Some l -> NoDup l.
Proof.
  intros (k & -> & _)%unique_markers_upto.
  eapply sublist_NoDup; [apply NoDup_markers_upto|apply slice_to_sublist].
Qed.

Lemma unique_markers_distinct_witness :
  exists l, unique_markers 2 14 = Some l /\ length l = 14%nat /\ NoDup l.
Proof.
  eexists. split; [vm_compute; reflexivity|]. split; [reflexivity|].
  apply (unique_markers_distinct 2 14). vm_compute. reflexivity.
Defined.
(** ** [infer_orient] *)

(** X7: with [require_numeric], a returned orientation has a numeric dependent
    variable, except that a datetime [x] against a categorical [y] is
    returned as horizontal when the orientation is inferred. *)
Theorem infer_orient_dependent_numeric (x y : option vector)
  (orient : option string) (o : string) :
  infer_orient x y orient true = Ok o ->
  (o = "v" /\ exists yv, y = Some yv /\ variable_type yv numeric = numeric)
  \/ (o = "h" /\ exists xv, x = Some xv
        /\ (variable_type xv numeric = numeric
            \/ (orient = None /\ variable_type xv numeric = datetime
                /\ exists yv, y = Some yv
                     /\ variable_type yv numeric = categorical))).
Proof.
  unfold infer_orient, type_ne, type_eq.
  destruct x as [xv|], y as [yv|]; cbn [fmap option_fmap option_map is_None].
  - destruct (startswith (orient_str orient) "v").
    { destruct (variable_type yv numeric) eqn:Hy; cbn; intros [= <-]; left; eauto. }
    destruct (startswith (orient_str orient) "h").
    { destruct (variable_type xv numeric) eqn:Hx; cbn; intros [= <-]; right; eauto. }
    destruct orient as [s|]; [done|]. cbn.
    destruct (variable_type xv numeric) eqn:Hx, (variable_type yv numeric) eqn:Hy;
      cbn; intros [= <-]; try (left; by eauto); right;
      (split; [done|]); exists xv; (split; [done|]); eauto 10.
  - destruct (variable_type xv numeric) eqn:Hx; cbn; intros [= <-]; right; eauto.
  - destruct (variable_type yv numeric) eqn:Hy; cbn; intros [= <-]; left; eauto.
  - done.
Qed.

Lemma infer_orient_dependent_numeric_witness :
  ("h" = "v" /\ exists yv, Some (Vector DObject [VStr "a"]) = Some yv
                   /\ variable_type yv numeric = numeric)
  \/ ("h" = "h" /\ exists xv, Some (Vector DDatetime [VDate 1; VDate 2]) = Some xv
        /\ (variable_type xv numeric = numeric
            \/ (@None string = None /\ variable_type xv numeric = datetime
                /\ exists yv, Some (Vector DObject [VStr "a"]) = Some yv
                     /\ variable_type yv numeric = categorical))).
Proof.
  apply (infer_orient_dependent_numeric
           (Some (Vector DDatetime [VDate 1; VDate 2]))
           (Some (Vector DObject [VStr "a"])) None "h").
  vm_compute. reflexivity.
Defined.

(** X8: with only one of [x] and [y], the orientation argument has no effect
    on the result; a value that starts with neither "v" nor "h" raises
    nothing. *)
Theorem infer_orient_single_variable (v : option vector)
  (orient orient' : option string) (require_numeric : bool) :
  infer_orient None v orient require_numeric
  = infer_orient None v orient' require_numeric
  /\ infer_orient v None orient require_numeric
     = infer_orient v None orient' require_numeric
  /\ (forall msg, infer_orient None v orient require_numeric <> Raise (ValueError msg))
  /\ (forall msg, infer_orient v None orient require_numeric <> Raise (ValueError msg)).
Proof.
  unfold infer_orient. cbn [is_None]. split_and!; [done|by destruct v| |].
  - intros msg. by destruct (_ && _).
  - intros msg. destruct v; cbn [is_None]; by destruct (_ && _).
Qed.

(** X9: with both variables, a returned orientation is the letter that the
    orientation argument starts with. *)
Theorem infer_orient_explicit (x y : vector) (orient o : string)
  (require_numeric : bool) :
  infer_orient (Some x) (Some y) (Some orient) require_numeric = Ok o ->
  (o = "v" \/ o = "h") /\ startswith orient o = true.
Proof.
  unfold infer_orient. cbn [is_None orient_str default negb id].
  destruct (startswith orient "v") eqn:Hv.
  { destruct (_ && _); [done|]. intros [= <-]. eauto. }
  destruct (startswith orient "h") eqn:Hh; [|by cbn].
  destruct (_ && _); [done|]. intros [= <-]. eauto.
Qed.

Lemma infer_orient_explicit_witness :
  ("h" = "v" \/ "h" = "h") /\ startswith "horizontal" "h" = true.
Proof.
  apply (infer_orient_explicit (Vector DNumeric [VInt 3]) (Vector DObject [VStr "a"])
                               "horizontal" "h" true).
  vm_compute. reflexivity.
Defined.

(** X10: when the orientation is inferred without [require_numeric] from two
    variables of different types, exchanging the variables exchanges the
    orientation; two variables of one type are vertical either way. *)
Theorem infer_orient_exchange (x y : vector) :
  (infer_orient (Some x) (Some y) None false = Ok "v"
   \/ infer_orient (Some x) (Some y) None false = Ok "h")
  /\ (variable_type x numeric = variable_type y numeric ->
      infer_orient (Some x) (Some y) None false = Ok "v"
      /\ infer_orient (Some y) (Some x) None false = Ok "v")
  /\ (variable_type x numeric <> variable_type y numeric ->
      infer_orient (Some x) (Some y) None false
      <> infer_orient (Some y) (Some x) None false).
Proof.
  unfold infer_orient, type_ne, type_eq.
  cbn [fmap option_fmap option_map is_None orient_str default negb andb].
  change (startswith "None" "v") with false.
  change (startswith "None" "h") with false. cbn iota.
  destruct (variable_type x numeric), (variable_type y numeric); cbn;
    split_and!; eauto; try done.
Qed.
(** ** [VectorPlotter.get_semantics] *)

Lemma get_semantics_lookup {A} (kwargs : gmap string (option A)) sem k :
  get_semantics kwargs sem !! k
  = if existsb (String.eqb k) (default semantics sem)
    then match kwargs !! k with
         | Some (Some a) => Some (Some a)
         | _ => None
         end
    else None.
Proof.
  unfold get_semantics. revert k.
  apply (map_fold_weak_ind (fun r (m : gmap string (option A)) => forall k,
    r !! k = if existsb (String.eqb k) (default semantics sem)
             then match m !! k with
                  | Some (Some a) => Some (Some a)
                  | _ => None
                  end
             else None)).
  - intros k. rewrite !lookup_empty. by destruct (existsb _ _).
  - intros i x m r Hi IH k.
    destruct (decide (i = k)) as [->|Hne].
    + rewrite lookup_insert_eq. specialize (IH k). rewrite Hi in IH.
      destruct (existsb _ _); cbn.
      * destruct x as [a|]; cbn; [by rewrite lookup_insert_eq|].
        rewrite IH. done.
      * done.
    + rewrite lookup_insert_ne by done.
      destruct (existsb (String.eqb i) _ && _); [rewrite lookup_insert_ne by done|];
        apply IH.
Qed.

(** X11: [get_semantics] keeps entries of the keyword arguments unchanged,
    keeps only known names with a value other than [None], and selecting
    again from its result changes nothing. *)
Theorem get_semantics_selects {A} (kwargs : gmap string (option A))
  (sem : option (list string)) :
  get_semantics kwargs sem ⊆ kwargs
  /\ (forall k v, get_semantics kwargs sem !! k = Some v ->
        v <> None /\ k ∈ default semantics sem)
  /\ get_semantics (get_semantics kwargs sem) sem = get_semantics kwargs sem.
Proof.
  split_and!.
  - apply map_subseteq_spec. intros k v. rewrite get_semantics_lookup.
    destruct (existsb _ _); [|done].
    destruct (kwargs !! k) as [[a|]|]; by intros [= <-].
  - intros k v. rewrite get_semantics_lookup.
    destruct (existsb _ _) eqn:Hk; [|done].
    apply existsb_exists in Hk as (k' & Hin & ->%String.eqb_eq).
    apply list_elem_of_In in Hin.
    destruct (kwargs !! k') as [[a|]|]; by intros [= <-].
  - apply map_eq. intros k. rewrite !get_semantics_lookup.
    destruct (existsb _ _); [|done]. by destruct (kwargs !! k) as [[a|]|].
Qed.
(** ** The type classifier and the level order *)

Lemma key_eqb_isna a b : key_eqb a b = true -> isna a = isna b.
Proof. by destruct a, b. Qed.

Lemma key_eqb_is_Number a b : key_eqb a b = true -> is_Number a = is_Number b.
Proof. by destruct a, b. Qed.

Lemma key_eqb_is_datetime a b : key_eqb a b = true -> is_datetime a = is_datetime b.
Proof. by destruct a, b. Qed.

Lemma np_isin_binary x :
  np_isin x [VInt 0; VInt 1; VNaN] = key_eqb x (VInt 0) || key_eqb x (VInt 1).
Proof. destruct x; cbn; by rewrite ?orb_false_r. Qed.

Lemma key_eqb_np_isin a b :
  key_eqb a b = true ->
  np_isin a [VInt 0; VInt 1; VNaN] = np_isin b [VInt 0; VInt 1; VNaN].
Proof.
  intros H. rewrite !np_isin_binary.
  by rewrite (key_eqb_congr a b (VInt 0)), (key_eqb_congr a b (VInt 1)).
Qed.

Lemma forallb_same_keys (P : value -> bool) l l' :
  (forall a b, key_eqb a b = true -> P a = P b) ->
  same_keys l l' -> forallb P l = forallb P l'.
Proof.
  intros HP [H1 H2]. apply eq_true_iff_eq. rewrite !forallb_forall. split.
  - intros H y Hy%list_elem_of_In. destruct (H2 y Hy) as (x & Hx & Hxy).
    rewrite <- (HP x y Hxy). by apply H, list_elem_of_In.
  - intros H x Hx%list_elem_of_In. destruct (H1 x Hx) as (y & Hy & Hxy).
    rewrite (HP x y Hxy). by apply H, list_elem_of_In.
Qed.

Lemma variable_type_same_keys d l l' boolean_type :
  same_keys l l' ->
  variable_type (Vector d l) boolean_type = variable_type (Vector d l') boolean_type.
Proof.
  intros H. unfold variable_type, all_numeric, all_datetime. cbn [cells].
  rewrite (forallb_same_keys isna l l' key_eqb_isna H).
  rewrite (forallb_same_keys _ l l' key_eqb_np_isin H).
  rewrite (forallb_same_keys is_Number l l' key_eqb_is_Number H).
  rewrite (forallb_same_keys is_datetime l l' key_eqb_is_datetime H).
  done.
Qed.

(** X12: the type of a vector depends on its cells only through the set of
    values they hold: two vectors of one dtype whose cells hold the same keys
    are of the same type. *)
Theorem variable_type_set_of_values (v v' : vector) (boolean_type : VariableType) :
  vdtype v = vdtype v' -> same_keys (cells v) (cells v') ->
  variable_type v boolean_type = variable_type v' boolean_type.
Proof.
  destruct v as [d l], v' as [d' l']. cbn. intros <-.
  apply variable_type_same_keys.
Qed.

Lemma variable_type_set_of_values_witness :
  variable_type (Vector DObject [VInt 1; VStr "a"; VFloat 1; VStr "a"]) categorical
  = variable_type (Vector DObject [VStr "a"; VBool true]) categorical.
Proof.
  apply variable_type_set_of_values; [reflexivity|].
  split; intros x Hx.
  - repeat (apply elem_of_cons in Hx as [->|Hx]);
      [exists (VBool true)|exists (VStr "a")|exists (VBool true)|exists (VStr "a")|
       by apply elem_of_nil in Hx];
      (split; [|vm_compute; reflexivity]);
      repeat ((by apply list_elem_of_here) || apply list_elem_of_further).
  - repeat (apply elem_of_cons in Hx as [->|Hx]);
      [exists (VStr "a")|exists (VInt 1)|by apply elem_of_nil in Hx];
      (split; [|vm_compute; reflexivity]);
      repeat ((by apply list_elem_of_here) || apply list_elem_of_further).
Defined.

(** X13: an object vector that holds a string is categorical, whatever else it
    holds and whatever the type asked for binary data. *)
Theorem variable_type_string_cell (v : vector) (s : string)
  (boolean_type : VariableType) :
  vdtype v = DObject -> VStr s ∈ cells v ->
  variable_type v boolean_type = categorical.
Proof.
  intros Hd Hs. unfold variable_type, is_categorical_dtype, is_numeric_dtype,
    is_datetime64_dtype, all_numeric, all_datetime. rewrite Hd.
  apply list_elem_of_In in Hs.
  assert (Hfalse : forall P, P (VStr s) = false -> forallb P (cells v) = false).
  { intros P HP. apply not_true_is_false. rewrite forallb_forall.
    intros H. apply H in Hs. congruence. }
  by rewrite !Hfalse.
Qed.

Lemma variable_type_string_cell_witness :
  variable_type (Vector DObject [VInt 1; VStr "a"; VNaN]) numeric = categorical.
Proof.
  apply (variable_type_string_cell _ "a"); [reflexivity|].
  apply list_elem_of_further, list_elem_of_here.
Defined.
Lemma Qle_bool_total x y : Qle_bool x y = false -> Qle_bool y x = true.
Proof.
  intros H. apply Qle_bool_iff. apply Qlt_le_weak, Qnot_le_lt.
  intros Hle%Qle_bool_iff. congruence.
Qed.

Lemma sort_le_total a b : sort_le a b = false -> sort_le b a = true.
Proof.
  destruct a, b; cbn; try done; try apply Qle_bool_total.
  - intros H. by destruct (String.leb_total s s0) as [H'|H']; [congruence|].
  - lia.
Qed.

Section Sorting.
Context {A : Type} (le : A -> A -> bool).
Hypothesis le_total : forall a b, le a b = false -> le b a = true.

Lemma insert_sorted_HdRel x y l :
  le y x = true -> HdRel (fun a b => le a b = true) y l ->
  HdRel (fun a b => le a b = true) y (insert_sorted le x l).
Proof.
  intros Hyx Hl. destruct l as [|z l]; cbn; [by constructor|].
  destruct (le x z); constructor; [done|]. by inversion Hl.
Qed.

Lemma insert_sorted_Sorted x l :
  Sorted (fun a b => le a b = true) l ->
  Sorted (fun a b => le a b = true) (insert_sorted le x l).
Proof.
  induction 1 as [|y l Hl IH Hy]; cbn; [by repeat constructor|].
  destruct (le x y) eqn:Hxy.
  - constructor; [by constructor|by constructor].
  - constructor; [done|]. apply insert_sorted_HdRel; [by apply le_total|done].
Qed.

Lemma stable_sort_Sorted l : Sorted (fun a b => le a b = true) (stable_sort le l).
Proof.
  induction l as [|x l IH]; cbn; [constructor|]. by apply insert_sorted_Sorted.
Qed.

Lemma stable_sort_sorted l :
  Sorted (fun a b => le a b = true) l -> stable_sort le l = l.
Proof.
  induction 1 as [|x l Hl IH Hx]; [done|].
  cbn. unfold stable_sort in IH. rewrite IH.
  destruct Hx as [|y l Hxy]; [done|]. cbn. by rewrite Hxy.
Qed.
End Sorting.

Lemma StronglySorted_filter {A} (R : A -> A -> Prop) (p : A -> bool) l :
  StronglySorted R l -> StronglySorted R (List.filter p l).
Proof.
  induction 1 as [|x l Hl IH Hx]; cbn; [constructor|].
  destruct (p x); [|done]. constructor; [done|].
  rewrite List.Forall_forall in *. intros y Hy%List.filter_In. apply Hx, Hy.
Qed.

Lemma unique_from_id seen l :
  NoDup (key_repr <$> l) ->
  (forall x, x ∈ l -> key_repr x ∉ key_repr <$> seen) ->
  unique_from seen l = l.
Proof.
  revert seen. induction l as [|x l IH]; intros seen Hnd Hseen; [done|].
  cbn. rewrite fmap_cons in Hnd. apply NoDup_cons in Hnd as [Hx Hnd].
  destruct (existsb (key_eqb x) seen) eqn:E.
  { apply existsb_key_eqb in E. by apply Hseen in E; [|left]. }
  f_equal. apply IH; [done|].
  intros y Hy. rewrite fmap_cons. intros [Heq|Hin]%elem_of_cons.
  - apply Hx. rewrite <- Heq. by apply list_elem_of_fmap_2.
  - by apply (Hseen y); [right|].
Qed.

Lemma unique_same_keys l : same_keys (unique l) l.
Proof.
  split.
  - intros x Hx. exists x. split; [|apply key_eqb_refl].
    eapply elem_of_sublist; [done|apply unique_from_sublist].
  - unfold unique.
    assert (H : forall seen y, y ∈ l ->
              (exists x, x ∈ unique_from seen l /\ key_eqb x y = true)
              \/ existsb (key_eqb y) seen = true).
    { induction l as [|z l IH]; intros seen y Hy; [by apply elem_of_nil in Hy|].
      cbn. apply elem_of_cons in Hy as [->|Hy].
      - destruct (existsb (key_eqb z) seen) eqn:E; [by right|].
        left. exists z. split; [left|apply key_eqb_refl].
      - destruct (existsb (key_eqb z) seen) eqn:E; [by apply IH|].
        destruct (IH (z :: seen) y Hy) as [(x & Hx & Hxy)|Hs].
        + left. exists x. split; [by right|done].
        + cbn in Hs. apply orb_true_iff in Hs as [Hs|Hs]; [|by right].
          left. exists z. split; [left|]. by rewrite key_eqb_sym. }
    intros y Hy. destruct (H [] y Hy) as [?|?]; done.
Qed.

Lemma same_keys_trans l1 l2 l3 : same_keys l1 l2 -> same_keys l2 l3 -> same_keys l1 l3.
Proof.
  intros [H1 H2] [H3 H4]. split.
  - intros x (y & Hy & Hxy)%H1. destruct (H3 y Hy) as (z & Hz & Hyz).
    exists z. split; [done|]. by eapply key_eqb_trans.
  - intros z (y & Hy & Hyz)%H4. destruct (H2 y Hy) as (x & Hx & Hxy).
    exists x. split; [done|]. by eapply key_eqb_trans.
Qed.

Lemma Permutation_same_keys l l' : l ≡ₚ l' -> same_keys l l'.
Proof.
  intros H. split; intros x Hx; exists x; (split; [|apply key_eqb_refl]).
  - by rewrite <- H.
  - by rewrite H.
Qed.

Lemma same_kind_Forall l :
  same_kind l = true <->
  l = [] \/ exists k, Forall (fun y => kind_of y = Some k) l.
Proof.
  destruct l as [|x l]; [by split; [left|]|].
  unfold same_kind. split.
  - destruct (kind_of x) as [k|] eqn:Hk; [|done]. intros H. right. exists k.
    apply List.Forall_forall. intros y Hy.
    rewrite forallb_forall in H. apply H in Hy.
    destruct (kind_of y) as [k'|]; [|done]. by destruct k, k'.
  - intros [?|[k Hk]]; [done|].
    pose proof (Forall_inv Hk) as Hx. cbn in Hx. rewrite Hx.
    apply forallb_forall. intros y Hy%list_elem_of_In.
    rewrite List.Forall_forall in Hk. rewrite (Hk y) by by apply list_elem_of_In.
    by destruct k.
Qed.

Lemma same_kind_Permutation l l' : l ≡ₚ l' -> same_kind l = true -> same_kind l' = true.
Proof.
  intros Hp. rewrite !same_kind_Forall. intros [->|[k Hk]].
  - left. by apply Permutation_nil.
  - right. exists k. by rewrite <- Hp.
Qed.

Lemma np_sort_sorted l r : np_sort l = Ok r -> np_sort r = Ok r.
Proof.
  unfold np_sort. destruct (length l <=? 1)%nat eqn:Hlen.
  - intros [= <-]. by rewrite Hlen.
  - destruct (same_kind l) eqn:Hk; [|done]. intros [= <-].
    pose proof (stable_sort_Permutation sort_le l) as Hp.
    rewrite (Permutation_length Hp), Hlen.
    rewrite (same_kind_Permutation l) by done.
    f_equal. apply stable_sort_sorted, stable_sort_Sorted, sort_le_total.
Qed.

Lemma filter_all {A} (p : A -> bool) l : forallb p l = true -> List.filter p l = l.
Proof.
  induction l as [|x l IH]; [done|]. cbn. intros [Hx Hl]%andb_true_iff.
  by rewrite Hx, IH.
Qed.

Lemma forallb_sublist {A} (p : A -> bool) l l' :
  sublist l l' -> forallb p l' = true -> forallb p l = true.
Proof.
  intros Hs. rewrite !forallb_forall. intros H x Hx%list_elem_of_In.
  apply H, list_elem_of_In. by eapply elem_of_sublist.
Qed.

Lemma forallb_Permutation {A} (p : A -> bool) l l' :
  l ≡ₚ l' -> forallb p l' = true -> forallb p l = true.
Proof.
  intros Hp. rewrite !forallb_forall. intros H x Hx%list_elem_of_In.
  apply H, list_elem_of_In. by rewrite <- Hp.
Qed.

(** X14: without nulls in the data, the levels of the levels are the levels:
    [categorical_order] maps a vector of its own result to the same list. *)
Theorem categorical_order_idempotent (v : vector) (levels : list value) :
  is_categorical_dtype v = false ->
  forallb notnull (cells v) = true ->
  categorical_order v None = Ok levels ->
  categorical_order (Vector (vdtype v) levels) None = Ok levels.
Proof.
  intros Hcat Hnn. unfold categorical_order. cbn [vdtype cells].
  unfold is_categorical_dtype in Hcat.
  set (ty := fun l => VariableType_eqb (variable_type (Vector (vdtype v) l) numeric) numeric).
  assert (Hfirst :
    (match vdtype v with
     | DCategory categories => Ok categories
     | _ => if VariableType_eqb (variable_type v numeric) numeric
            then np_sort (unique (cells v)) else Ok (unique (cells v))
     end) = if ty (cells v) then np_sort (unique (cells v)) else Ok (unique (cells v))).
  { unfold ty. destruct v as [d l]. by destruct d. }
  assert (Hsecond : forall l,
    (match vdtype v with
     | DCategory categories => Ok categories
     | _ => if VariableType_eqb (variable_type (Vector (vdtype v) l) numeric) numeric
            then np_sort (unique l) else Ok (unique l)
     end) = if ty l then np_sort (unique l) else Ok (unique l)).
  { intros l. unfold ty. by destruct (vdtype v). }
  rewrite Hfirst, Hsecond. clear Hfirst Hsecond.
  destruct (if ty (cells v) then _ else _) as [o|e] eqn:Ho; [|done].
  cbn. intros [= <-].
  assert (Hperm : o ≡ₚ unique (cells v)).
  { destruct (ty (cells v)); [by apply np_sort_Permutation|by injection Ho as <-]. }
  assert (Honn : forallb notnull o = true).
  { eapply forallb_Permutation; [done|].
    eapply forallb_sublist; [apply unique_from_sublist|done]. }
  rewrite (filter_all _ o Honn).
  assert (Hty : ty o = ty (cells v)).
  { unfold ty. f_equal. apply variable_type_same_keys.
    eapply same_keys_trans; [by apply Permutation_same_keys|apply unique_same_keys]. }
  assert (Hu : unique o = o).
  { apply unique_from_id; [|intros ? _ []%elem_of_nil].
    rewrite Hperm. apply unique_from_NoDup. }
  rewrite Hty, Hu.
  destruct (ty (cells v)).
  - rewrite (np_sort_sorted _ _ Ho). cbn. by rewrite filter_all.
  - cbn. by rewrite filter_all.
Qed.

Lemma categorical_order_idempotent_witness :
  categorical_order (Vector DObject [VStr "b"; VStr "a"]) None
  = Ok [VStr "b"; VStr "a"].
Proof.
  apply (categorical_order_idempotent
           (Vector DObject [VStr "b"; VStr "a"; VStr "b"])); reflexivity.
Defined.
Lemma sort_le_numbers a b :
  is_Number a = true -> is_Number b = true ->
  sort_le a b = match num_of a, num_of b with
                | Some x, Some y => Qle_bool x y
                | Some _, None => true
                | None, Some _ => false
                | None, None => true
                end.
Proof. by destruct a, b. Qed.

Lemma Sorted_numbers l :
  Forall (fun x => is_Number x = true) l ->
  Sorted (fun a b => sort_le a b = true) l ->
  StronglySorted (fun a b => is_Number a = true /\ is_Number b = true
                             /\ sort_le a b = true) l.
Proof.
  intros Hnum Hs. apply Sorted_StronglySorted.
  - intros a b c (Ha & Hb & Hab) (_ & Hc & Hbc). split_and!; [done..|].
    rewrite sort_le_numbers in * by done.
    destruct (num_of a), (num_of b), (num_of c); try done.
    apply Qle_bool_iff. apply Qle_bool_iff in Hab, Hbc. by eapply Qle_trans.
  - induction Hs as [|x l Hl IH Hx]; [constructor|].
    apply Forall_cons in Hnum as [Hxn Hln]. constructor; [by apply IH|].
    destruct Hx as [|y l Hxy]; constructor.
    apply Forall_cons in Hln as [Hyn _]. done.
Qed.

Lemma StronglySorted_num_lt l :
  StronglySorted (fun a b => is_Number a = true /\ is_Number b = true
                             /\ sort_le a b = true) l ->
  Forall (fun x => is_Number x = true /\ notnull x = true) l ->
  NoDup (key_repr <$> l) ->
  StronglySorted num_lt l.
Proof.
  induction 1 as [|x l Hl IH Hx]; intros Hnn Hnd; [constructor|].
  apply Forall_cons in Hnn as [[Hxn Hxnn] Hnn].
  rewrite fmap_cons in Hnd. apply NoDup_cons in Hnd as [Hxl Hnd].
  constructor; [by apply IH|].
  rewrite List.Forall_forall in *. intros y Hy.
  destruct (Hx y Hy) as (_ & Hyn & Hxy).
  destruct (Hnn y Hy) as [_ Hynn].
  apply list_elem_of_In in Hy.
  assert (Hne : key_eqb x y = false).
  { apply not_true_is_false. intros Heq%key_eqb_repr.
    apply Hxl. rewrite Heq. by apply list_elem_of_fmap_2. }
  rewrite sort_le_numbers in Hxy by done. unfold num_lt.
  destruct x, y; try done; cbn in *;
    (apply Qle_bool_iff in Hxy; apply Qle_lt_or_eq in Hxy as [?|Heq]; [done|];
     apply Qeq_eq_bool in Heq; congruence).
Qed.

(** X15: the levels of a vector of numbers are strictly ascending: sorted, and
    without a missing value or a number twice. The vector has a numeric
    dtype, where NaN is allowed and sorted last before it is dropped, or it
    is an object vector of numbers without NaN. *)
Theorem categorical_order_numbers_ascending (v : vector) :
  vdtype v = DNumeric
  \/ (vdtype v = DObject /\ forallb notnull (cells v) = true) ->
  forallb is_Number (cells v) = true ->
  exists levels, categorical_order v None = Ok levels /\ StronglySorted num_lt levels.
Proof.
  intros Hd Hnum.
  assert (Hty : variable_type v numeric = numeric).
  { unfold variable_type, is_categorical_dtype, is_numeric_dtype,
      is_datetime64_dtype, all_numeric.
    rewrite Hnum. destruct Hd as [-> | [-> _]]; by repeat destruct (forallb _ _). }
  assert (Hunum : forallb is_Number (unique (cells v)) = true).
  { eapply forallb_sublist; [apply unique_from_sublist|done]. }
  assert (Hsort : exists o, np_sort (unique (cells v)) = Ok o
            /\ Sorted (fun a b => sort_le a b = true) o
            /\ o ≡ₚ unique (cells v)).
  { unfold np_sort. destruct (length (unique (cells v)) <=? 1)%nat eqn:Hlen.
    - eexists. split_and!; [done| |done].
      destruct (unique (cells v)) as [|x [|y l]]; [repeat constructor..|done].
    - rewrite same_kind_numbers by done. eexists. split_and!; [done| |].
      + apply stable_sort_Sorted, sort_le_total.
      + apply stable_sort_Permutation. }
  destruct Hsort as (o & Ho & Hsorted & Hperm).
  exists (List.filter notnull o). split.
  { unfold categorical_order. rewrite Hty. cbn [VariableType_eqb].
    destruct Hd as [-> | [-> _]]; by rewrite Ho. }
  assert (Honum : Forall (fun x => is_Number x = true) o).
  { rewrite Hperm. apply List.Forall_forall. intros x Hx.
    rewrite forallb_forall in Hunum. by apply Hunum. }
  apply StronglySorted_num_lt.
  - apply StronglySorted_filter. by apply Sorted_numbers.
  - apply List.Forall_forall. intros x [Hx Hnn]%List.filter_In. split; [|done].
    rewrite List.Forall_forall in Honum. by apply Honum.
  - eapply sublist_NoDup; [|apply fmap_sublist, filter_sublist].
    rewrite Hperm. apply unique_from_NoDup.
Qed.

Lemma categorical_order_numbers_ascending_witness :
  exists levels,
    categorical_order
      (Vector DNumeric [VFloat 3; VNaN; VFloat (1 # 2); VFloat 3]) None
    = Ok levels /\ StronglySorted num_lt levels.
Proof.
  apply categorical_order_numbers_ascending; [by left|reflexivity].
Defined.
(** ** Style mapping *)

Lemma bind_Raise {A B} (c : M A) (k : A -> M B) w e :
  (c ≫= k) w = Raise e <->
  c w = Raise e \/ exists a w1, c w = Ok (a, w1) /\ k a w1 = Raise e.
Proof.
  unfold mbind, M_bind. destruct (c w) as [[a w1]|e'].
  - split.
    + intros H. right. by exists a, w1.
    + intros [H|(a' & w' & H & Hk)]; [discriminate|].
      injection H as -> ->. exact Hk.
  - split.
    + intros [= ->]. by left.
    + intros [H|(a' & w' & H & _)]; [by injection H as ->|discriminate].
Qed.

Lemma lift_Raise {A} (r : result A) w e : lift r w = Raise e <-> r = Raise e.
Proof. unfold lift. destruct r; split; congruence. Qed.

Lemma dict_get_dict_set_Some {V} (d : dict V) k v x :
  dict_get d x <> None -> dict_get (dict_set d k v) x <> None.
Proof. rewrite dict_get_set. by destruct (key_eqb k x). Qed.

Lemma dict_get_foldl_Some {V} (ps : list (value * V)) d0 x :
  dict_get (foldl (fun d kv => dict_set d kv.1 kv.2) d0 ps) x <> None <->
  dict_get d0 x <> None \/ exists p, p ∈ ps /\ key_eqb p.1 x = true.
Proof.
  revert d0. induction ps as [|[k v] ps IH]; intros d0; cbn.
  - split; [by left|]. by intros [?|(? & []%elem_of_nil & _)].
  - rewrite IH, dict_get_set. cbn. split.
    + intros [H|(p & Hp & Hk)].
      * destruct (key_eqb k x) eqn:E; [|by left].
        right. exists (k, v). split; [left|done].
      * right. exists p. split; [by right|done].
    + intros [H|(p & [->|Hp]%elem_of_cons & Hk)].
      * left. by destruct (key_eqb k x).
      * left. cbn in Hk. by rewrite Hk.
      * right. eauto.
Qed.

Lemma dict_get_dict_of {V} (ps : list (value * V)) x :
  dict_get (dict_of ps) x <> None <-> exists p, p ∈ ps /\ key_eqb p.1 x = true.
Proof.
  unfold dict_of. rewrite dict_get_foldl_Some. cbn. split; [by intros [?|?]|eauto].
Qed.

Lemma dict_get_elem_of {V} (d : dict V) x v :
  dict_get d x = Some v -> exists k, (k, v) ∈ d /\ key_eqb k x = true.
Proof.
  induction d as [|[k1 v1] d IH]; cbn; [done|].
  destruct (key_eqb k1 x) eqn:E.
  - intros [= ->]. exists k1. split; [left|done].
  - intros (k & Hk & Hx)%IH. exists k. split; [by right|done].
Qed.

Lemma dict_get_keys_iff {V} (d : dict V) x :
  dict_get d x <> None <-> existsb (key_eqb x) (dict_keys d) = true.
Proof.
  split; [apply dict_get_keys|].
  intros (k & Hk & Hx)%existsb_exists. rewrite key_eqb_sym in Hx.
  apply (dict_get_None d x k); [by apply list_elem_of_In|done].
Qed.

Lemma dict_of_zip_covers {V} (keys : list value) (vals : list V) x :
  (length keys <= length vals)%nat -> x ∈ keys ->
  dict_get (dict_of (zip keys vals)) x <> None.
Proof.
  intros Hlen Hx. apply dict_get_dict_of.
  apply list_elem_of_lookup in Hx as [i Hi].
  destruct (lookup_lt_is_Some_2 vals i) as [v Hv].
  { apply lookup_lt_Some in Hi. lia. }
  exists (x, v). split; [|apply key_eqb_refl].
  apply list_elem_of_lookup. exists i. by apply lookup_zip_with_Some; eauto.
Qed.

Lemma set_difference_nil xs ys :
  set_difference xs ys = [] <-> Forall (fun x => existsb (key_eqb x) ys = true) xs.
Proof.
  unfold set_difference. induction xs as [|x xs IH]; cbn; [by split; [constructor|]|].
  destruct (existsb (key_eqb x) ys) eqn:E; cbn.
  - rewrite IH. split; [by constructor|]. by intros [_ ?]%Forall_cons.
  - split; [done|]. intros [? _]%Forall_cons. congruence.
Qed.

(** X16: with a dict argument, [_map_attributes] returns the dict itself when
    every level is one of its keys, and raises a [ValueError] when any level
    is not, whatever the level's truth value. *)
Theorem map_attributes_dict {V} (d : dict V) (levels : list value)
  (defaults : list V) :
  (Forall (fun x => dict_get d x <> None) levels ->
   StyleMapping._map_attributes (ADict d) levels defaults = Ok d)
  /\ (forall x, x ∈ levels -> dict_get d x = None ->
      exists msg, StyleMapping._map_attributes (ADict d) levels defaults
                  = Raise (ValueError msg)).
Proof.
  unfold StyleMapping._map_attributes. split.
  - intros Hall.
    assert (set_difference levels (dict_keys d) = []) as ->; [|done].
    apply set_difference_nil. eapply Forall_impl; [done|].
    intros x. apply dict_get_keys_iff.
  - intros x Hx Hget.
    destruct (set_difference levels (dict_keys d)) eqn:Hm; [|cbn; eauto].
    apply set_difference_nil in Hm. rewrite List.Forall_forall in Hm.
    apply list_elem_of_In, Hm, dict_get_keys_iff in Hx. done.
Qed.
Lemma np_sort_raises l e : np_sort l = Raise e -> e = TypeError.
Proof. unfold np_sort. repeat case_match; congruence. Qed.

Lemma categorical_order_raises v o e : categorical_order v o = Raise e -> e = TypeError.
Proof.
  unfold categorical_order. destruct o as [o|]; [done|].
  destruct (match vdtype v with DCategory _ => _ | _ => _ end) as [r|e'] eqn:Hr;
    cbn; [done|]. intros [= <-].
  destruct (vdtype v); try done;
    (destruct (VariableType_eqb _ _); [by apply np_sort_raises in Hr|done]).
Qed.

Lemma mapM_result_inv {A B} (f : A -> result B) l r :
  mapM f l = Ok r -> Forall2 (fun x y => f x = Ok y) l r.
Proof.
  revert r. induction l as [|x l IH]; intros r; cbn.
  - intros [= <-]. constructor.
  - destruct (f x) as [y|] eqn:Hy; cbn; [|done].
    destruct (mapM f l) as [ys|]; cbn; [|done].
    intros [= <-]. constructor; [done|by apply IH].
Qed.

Lemma mapM_result_raises {A B} (f : A -> result B) l e :
  mapM f l = Raise e -> exists x, x ∈ l /\ f x = Raise e.
Proof.
  induction l as [|x l IH]; cbn; [done|].
  destruct (f x) as [y|e'] eqn:Hy; cbn.
  - destruct (mapM f l) as [ys|e'']; cbn; [done|].
    intros [= ->]. destruct IH as (x' & ? & ?); [done|].
    exists x'. split; [by right|done].
  - intros [= ->]. exists x. split; [left|done].
Qed.

Lemma unique_markers_n_length n : length (unique_markers_n n) = n.
Proof.
  unfold unique_markers_n. destruct (unique_markers_returns n 0) as (l & Hl).
  rewrite Nat.add_0_r in Hl. rewrite Hl. cbn.
  apply unique_markers_upto in Hl as (k & -> & Hk).
  rewrite slice_to_nat, length_take. lia.
Qed.

Lemma unique_dashes_n_length n :
  exists l, unique_dashes_n n = Ok l /\ length l = n.
Proof.
  unfold unique_dashes_n. destruct (unique_dashes_returns n 0) as (l & Hl).
  rewrite Nat.add_0_r in Hl. rewrite Hl. exists l. split; [done|].
  apply unique_dashes_upto in Hl as (k & -> & Hk).
  rewrite slice_to_nat, length_take. lia.
Qed.

Lemma not_mixed l :
  existsb id l && negb (forallb id l) = false ->
  forall a b : bool, a ∈ l -> b ∈ l -> a = b.
Proof.
  intros H a b Ha%list_elem_of_In Hb%list_elem_of_In.
  destruct (forallb id l) eqn:Hall.
  - rewrite forallb_forall in Hall. pose proof (Hall a Ha). pose proof (Hall b Hb).
    unfold id in *. congruence.
  - rewrite andb_true_r in H.
    destruct a, b; try done.
    + assert (existsb id l = true) by (apply existsb_exists; by exists true). congruence.
    + assert (existsb id l = true) by (apply existsb_exists; by exists true). congruence.
Qed.

Section StyleFacts.
Context `{Mk : Markers}.

Lemma map_attributes_raises {V} (arg : attr_arg V) levels defaults e :
  StyleMapping._map_attributes arg levels defaults = Raise e ->
  exists msg, e = ValueError msg.
Proof.
  unfold StyleMapping._map_attributes.
  destruct arg as [|d|l|[]]; try done; repeat case_match; intros [= <-]; eauto.
Qed.

Lemma map_attributes_covers {V} (arg : attr_arg V) levels defaults d x :
  StyleMapping._map_attributes arg levels defaults = Ok d ->
  (length levels <= length defaults)%nat ->
  StyleMapping.nonempty d = true -> x ∈ levels ->
  dict_get d x <> None.
Proof.
  unfold StyleMapping._map_attributes. intros Hd Hlen Hne Hx.
  destruct arg as [|arg|arg|[]]; try done.
  - injection Hd as <-. by apply dict_of_zip_covers.
  - destruct (length (set_difference levels (dict_keys arg))) eqn:Hm; [|done].
    injection Hd as <-. apply length_zero_iff_nil, set_difference_nil in Hm.
    rewrite List.Forall_forall in Hm. by apply dict_get_keys_iff, Hm, list_elem_of_In.
  - destruct (length levels =? length arg)%nat eqn:Hl; [|done].
    injection Hd as <-. apply dict_of_zip_covers; [|done].
    apply Nat.eqb_eq in Hl. lia.
  - by injection Hd as <-.
Qed.

End StyleFacts.
Section StyleInit.
Context `{Mk : Markers}.

Lemma fill_table_returns markers paths dashes levels t0 :
  (StyleMapping.nonempty markers = true ->
   forall x, x ∈ levels -> dict_get markers x <> None /\ dict_get paths x <> None) ->
  (StyleMapping.nonempty dashes = true ->
   forall x, x ∈ levels -> dict_get dashes x <> None) ->
  exists t, StyleMapping.fill_table markers paths dashes levels t0 = Ok t.
Proof.
  intros Hm Hd. revert t0.
  induction levels as [|key levels IH]; intros t0; cbn; [eauto|].
  assert (Hkey : key ∈ key :: levels) by left.
  unfold StyleMapping.getitem.
  destruct (StyleMapping.nonempty markers) eqn:Em;
    destruct (StyleMapping.nonempty dashes) eqn:Ed.
  - destruct (Hm eq_refl key Hkey) as [H1 H2]. pose proof (Hd eq_refl key Hkey) as H3.
    destruct (dict_get markers key), (dict_get paths key), (dict_get dashes key);
      try done. cbn. apply IH; intros _ x Hx; [apply Hm|apply Hd]; by try right.
  - destruct (Hm eq_refl key Hkey) as [H1 H2].
    destruct (dict_get markers key), (dict_get paths key); try done.
    cbn. apply IH; [intros _ x Hx; apply Hm; by try right|done].
  - pose proof (Hd eq_refl key Hkey) as H3.
    destruct (dict_get dashes key); try done.
    cbn. apply IH; [done|intros _ x Hx; apply Hd; by try right].
  - cbn. by apply IH.
Qed.

Lemma fill_table_inv markers paths dashes levels t0 t :
  StyleMapping.fill_table markers paths dashes levels t0 = Ok t ->
  (forall x, x ∈ levels \/ dict_get t0 x <> None -> dict_get t x <> None)
  /\ (forall x a, dict_get t x = Some a ->
        dict_get t0 x = Some a \/ style_entry markers paths dashes a).
Proof.
  revert t0. induction levels as [|key levels IH]; intros t0; cbn.
  { intros [= <-]. split; [by intros x [[]%elem_of_nil|?]|eauto]. }
  unfold StyleMapping.getitem.
  destruct (if StyleMapping.nonempty markers then _ else _)
    as [[marker path]|] eqn:Hmp; cbn; [|done].
  destruct (if StyleMapping.nonempty dashes then _ else _)
    as [dashes_key|] eqn:Hdk; cbn; [|done].
  intros [Hcov Hent]%IH.
  assert (Hentry : style_entry markers paths dashes
                     (StyleMapping.Attrs marker path dashes_key)).
  { assert (Hd : dashes_key = None <-> StyleMapping.nonempty dashes = false).
    { destruct (StyleMapping.nonempty dashes).
      - destruct (dict_get dashes key); cbn in Hdk; [|done]. by injection Hdk as <-.
      - by injection Hdk as <-. }
    unfold style_entry; cbn.
    destruct (StyleMapping.nonempty markers).
    - destruct (dict_get markers key) as [mk|] eqn:Hgm; cbn in Hmp; [|done].
      destruct (dict_get paths key) as [pk|]; cbn in Hmp; [|done].
      injection Hmp as <- <-. split_and!; [done..|].
      intros ? [= <-]. apply dict_get_elem_of in Hgm as (k & Hk & _). eauto.
    - injection Hmp as <- <-. by split_and!. }
  split.
  - intros x Hx. apply Hcov. rewrite dict_get_set.
    destruct (key_eqb key x) eqn:E; [by right|].
    destruct Hx as [[->|Hx]%elem_of_cons|Hx]; [|by left|by right].
    by rewrite key_eqb_refl in E.
  - intros x a Ha. apply Hent in Ha as [Ha|Ha]; [|by right].
    rewrite dict_get_set in Ha. destruct (key_eqb key x); [|by left].
    injection Ha as <-. by right.
Qed.

Lemma styles_keys (markers : dict marker_arg) styles :
  mapM (fun km : value * marker_arg =>
          m ← StyleMapping.as_MarkerStyle km.2; Ok (km.1, m)) markers = Ok styles ->
  Forall2 (fun km ks => ks.1 = km.1 /\ StyleMapping.as_MarkerStyle km.2 = Ok ks.2)
          markers styles.
Proof.
  intros H%mapM_result_inv. eapply Forall2_impl; [done|].
  intros [k m] [k' s]; cbn. destruct (StyleMapping.as_MarkerStyle m); cbn; [|done].
  by intros [= <- <-].
Qed.

Lemma paths_cover (markers : dict marker_arg) styles x :
  Forall2 (fun km ks => ks.1 = km.1 /\ StyleMapping.as_MarkerStyle km.2 = Ok ks.2)
          markers styles ->
  dict_get markers x <> None ->
  dict_get (dict_of (map (fun km => (km.1, transformed_path km.2)) styles)) x <> None.
Proof.
  intros Hst Hx. apply dict_get_dict_of.
  destruct (dict_get markers x) as [m|] eqn:Hm; [|done].
  apply dict_get_elem_of in Hm as (k & Hk & Hkx).
  apply list_elem_of_lookup in Hk as [i Hi].
  destruct (Forall2_lookup_l _ _ _ _ _ Hst Hi) as ([k' s] & Hs & Hk' & _).
  cbn in Hk'. subst k'.
  exists (k, transformed_path s). split; [|done].
  apply list_elem_of_lookup. exists i. by rewrite list_lookup_fmap, Hs.
Qed.
End StyleInit.
Section StyleTheorems.
Context `{Mk : Markers}.

(** X17: the constructor of a style mapping never fails on a lookup of its own:
    whatever the arguments, every level finds its marker, path and dashes in
    the dicts built before, so no [KeyError] leaves it, as long as the
    marker styles of matplotlib raise none. *)
Theorem style_init_no_KeyError (markers : attr_arg marker_arg)
  (dashes : attr_arg dash) (order : option (list value)) (w : world) :
  (forall m, MarkerStyle_new m <> Raise KeyError) ->
  match StyleMapping.__init__ markers dashes order w with
  | Raise KeyError => False
  | _ => True
  end.
Proof.
  intros Hnew.
  destruct (StyleMapping.__init__ markers dashes order w) as [[m w']|e] eqn:H; [done|].
  destruct e; try done. exfalso.
  unfold StyleMapping.__init__ in H.
  apply bind_Raise in H as [H|(p & w1 & Hp & H)]; [discriminate|]. run_prim Hp.
  apply bind_Raise in H as [H|(pd & w1 & Hr & H)].
  { unfold read in H. by destruct (heap w !! _). }
  run_prim Hr.
  destruct (forallb isna _); [discriminate|].
  apply bind_Raise in H as [H|(levels & w1 & Hl & H)].
  { apply lift_Raise in H. by apply categorical_order_raises in H. }
  run_prim Hl.
  apply bind_Raise in H as [H|(mk & w1 & Hm & H)].
  { apply lift_Raise in H. by apply map_attributes_raises in H as [msg ?]. }
  run_prim Hm.
  destruct (unique_dashes_n_length (length levels)) as (dd & Hdd & Hddlen).
  rewrite Hdd in H.
  apply bind_Raise in H as [H|(dd' & w1 & Hd' & H)]; [discriminate|]. run_prim Hd'.
  apply bind_Raise in H as [H|(da & w1 & Hda & H)].
  { apply lift_Raise in H. by apply map_attributes_raises in H as [msg ?]. }
  run_prim Hda.
  apply bind_Raise in H as [H|(styles & w1 & Hst & H)].
  { apply lift_Raise in H. apply mapM_result_raises in H as ([k m] & _ & H).
    cbn in H. destruct m as [m|m]; cbn in H; [|done].
    destruct (MarkerStyle_new m) eqn:Hm'; cbn in H; [done|].
    injection H as ->. by apply Hnew in Hm'. }
  run_prim Hst.
  destruct (existsb id _ && _); [discriminate|].
  apply bind_Raise in H as [H|(t & w1 & _ & H)]; [|discriminate].
  apply lift_Raise in H.
  destruct (fill_table_returns mk
              (dict_of (map (fun km => (km.1, transformed_path km.2)) styles))
              da levels []) as [t Ht]; [| |congruence].
  - intros Hne x Hx.
    assert (dict_get mk x <> None) as Hmx.
    { eapply map_attributes_covers; [done| |done..].
      by rewrite length_fmap, unique_markers_n_length. }
    split; [done|]. eapply paths_cover; [by apply styles_keys|done].
  - intros Hne x Hx. eapply map_attributes_covers; [done| |done..]. lia.
Qed.

(** X18: a style mapping that is built has an entry for every level; an entry
    has a marker exactly when it has a path; and the markers of the entries
    are all filled or all line art. *)
Theorem style_init_table (markers : attr_arg marker_arg)
  (dashes : attr_arg dash) (order : option (list value)) (w w' : world)
  (m : StyleMapping.t) :
  StyleMapping.__init__ markers dashes order w = Ok (m, w') ->
  w' = w /\
  match StyleMapping.levels m, StyleMapping.lookup_table m with
  | None, None => True
  | Some levels, Some table =>
      (forall x, x ∈ levels -> dict_get table x <> None)
      /\ (forall x a, dict_get table x = Some a ->
            (StyleMapping.marker a = None <-> StyleMapping.path a = None))
      /\ (forall x y a b ma mb sa sb,
            dict_get table x = Some a -> dict_get table y = Some b ->
            StyleMapping.marker a = Some ma -> StyleMapping.marker b = Some mb ->
            StyleMapping.as_MarkerStyle ma = Ok sa ->
            StyleMapping.as_MarkerStyle mb = Ok sb ->
            is_filled sa = is_filled sb)
  | _, _ => False
  end.
Proof.
  intros H. unfold StyleMapping.__init__ in H.
  apply bind_Ok in H as (p & w1 & Hp & H). run_prim Hp.
  apply bind_Ok in H as (pd & w1 & Hr & H). run_prim Hr.
  destruct (forallb isna _); [by run_prim H|].
  apply bind_Ok in H as (levels & w1 & Hl & H). run_prim Hl.
  apply bind_Ok in H as (mk & w1 & Hm & H). run_prim Hm.
  apply bind_Ok in H as (dd & w1 & Hd & H). run_prim Hd.
  apply bind_Ok in H as (da & w1 & Hda & H). run_prim Hda.
  apply bind_Ok in H as (styles & w1 & Hst & H). run_prim Hst.
  destruct (existsb id _ && _) eqn:Hmix; [discriminate|].
  apply bind_Ok in H as (t & w1 & Ht & H). run_prim Ht. run_prim H.
  split; [done|]. cbn.
  apply fill_table_inv in Ht as [Hcov Hent].
  pose proof (styles_keys _ _ Hst) as Hkeys.
  split_and!.
  - intros x Hx. apply Hcov. by left.
  - intros x e He. apply Hent in He as [He|He]; [done|]. apply He.
  - intros x y ea eb ma mb sa sb Ha Hb Hma Hmb Hsa Hsb.
    apply Hent in Ha as [Ha|(_ & _ & _ & Ha)]; [done|].
    apply Hent in Hb as [Hb|(_ & _ & _ & Hb)]; [done|].
    destruct (Ha ma Hma) as (ka & Hka). destruct (Hb mb Hmb) as (kb & Hkb).
    apply (not_mixed _ Hmix).
    + apply list_elem_of_lookup in Hka as [i Hi].
      destruct (Forall2_lookup_l _ _ _ _ _ Hkeys Hi) as ([k s] & Hs & _ & Hs').
      cbn in Hs'. rewrite Hsa in Hs'. injection Hs' as <-.
      apply list_elem_of_lookup. exists i. by rewrite list_lookup_fmap, Hs.
    + apply list_elem_of_lookup in Hkb as [i Hi].
      destruct (Forall2_lookup_l _ _ _ _ _ Hkeys Hi) as ([k s] & Hs & _ & Hs').
      cbn in Hs'. rewrite Hsb in Hs'. injection Hs' as <-.
      apply list_elem_of_lookup. exists i. by rewrite list_lookup_fmap, Hs.
Qed.
End StyleTheorems.

Lemma style_init_no_KeyError_witness :
  match StyleMapping.__init__ (ADict [(VStr "a", MSpec (MStr "o"))]) ATrue None
                              style_world with
  | Raise KeyError => False
  | _ => True
  end.
Proof.
  apply style_init_no_KeyError. intros m H. discriminate H.
Defined.

Lemma style_init_table_witness :
  exists m w',
    StyleMapping.__init__ ATrue ATrue None style_world = Ok (m, w')
    /\ w' = style_world
    /\ match StyleMapping.levels m, StyleMapping.lookup_table m with
       | None, None => True
       | Some levels, Some table =>
           (forall x, x ∈ levels -> dict_get table x <> None)
           /\ (forall x a, dict_get table x = Some a ->
                 (StyleMapping.marker a = None <-> StyleMapping.path a = None))
           /\ (forall x y a b ma mb sa sb,
                 dict_get table x = Some a -> dict_get table y = Some b ->
                 StyleMapping.marker a = Some ma ->
                 StyleMapping.marker b = Some mb ->
                 StyleMapping.as_MarkerStyle ma = Ok sa ->
                 StyleMapping.as_MarkerStyle mb = Ok sb ->
                 is_filled sa = is_filled sb)
       | _, _ => False
       end.
Proof.
  do 2 eexists. split; [vm_compute; reflexivity|].
  apply (style_init_table ATrue ATrue None style_world).
  vm_compute. reflexivity.
Defined.
(** ** Hue and size mappings: list arguments, numeric sizes *)

Section MappingFacts.
Context `{Mpl : Matplotlib} `{Pal : !Palettes} `{Rt : Runtime} `{Clp : !Clip}.

(** X19: with a list palette the colors go to the levels by position: the list
    has one color per level, and with distinct levels the lookup of the
    level at a position returns the color at that position. *)
Theorem hue_categorical_mapping_list (data : vector) (colors : list color)
  (order : option (list value)) (levels : list value) (table : dict color) :
  HueMapping.categorical_mapping data (Some (PList colors)) order
  = Ok (levels, table) ->
  categorical_order data order = Ok levels
  /\ length colors = length levels
  /\ (distinct_keys levels ->
      forall i level c, levels !! i = Some level -> colors !! i = Some c ->
        HueMapping._lookup_single
          (HueMapping.Build (Some categorical) (Some levels) (Some table)
                            (Some (PList colors)) None None) level
        = Ok c).
Proof.
  unfold HueMapping.categorical_mapping.
  destruct (categorical_order data order) as [lv|] eqn:Hl; cbn; [|done].
  destruct (length colors =? length lv)%nat eqn:Hlen; cbn; [|done].
  intros [= <- <-]. apply Nat.eqb_eq in Hlen. split_and!; [done..|].
  intros Hd i level c Hi Hc. unfold HueMapping._lookup_single. cbn.
  by rewrite (dict_get_dict_of_zip lv colors i level c).
Qed.

(** X20: with a list of sizes the sizes go to the levels by position, and a
    list of another length than the levels is refused. *)
Theorem size_categorical_mapping_list (plotter : VectorPlotter) (data : vector)
  (sizes : list Q) (order : option (list value)) (levels : list value) :
  categorical_order data order = Ok levels ->
  (length sizes <> length levels ->
   exists msg, SizeMapping.categorical_mapping plotter data (Some (SList sizes)) order
               = Raise (ValueError msg))
  /\ (length sizes = length levels ->
      exists table,
        SizeMapping.categorical_mapping plotter data (Some (SList sizes)) order
        = Ok (levels, table)
        /\ (distinct_keys levels ->
            forall i level s, levels !! i = Some level -> sizes !! i = Some s ->
              dict_get table level = Some s)).
Proof.
  intros Hl. unfold SizeMapping.categorical_mapping. rewrite Hl. cbn. split.
  - intros Hne%Nat.eqb_neq. rewrite Hne. cbn. eauto.
  - intros Heq%Nat.eqb_eq. rewrite Heq. cbn. eexists. split; [done|].
    intros Hd i level s Hi Hs. by apply (dict_get_dict_of_zip levels sizes i).
Qed.

Lemma ptp_ascending lo hi : (lo <= hi)%Q -> ptp (lo, hi) = (hi - lo)%Q.
Proof. intros H%Qle_bool_iff. unfold ptp. by rewrite H. Qed.

(** X21: a numeric size mapping over a range [(lo, hi)] with [lo <= hi] gives
    a level and a value outside the levels their size by one formula,
    [lo + t * (hi - lo)] for the normalized value [t]: the table holds it for
    every level, and the lookup computes it for a key that is not in the
    table. *)
Theorem size_numeric_lookup_consistent (plotter : VectorPlotter) (data : vector)
  (lo hi : Q) (norm : option norm_spec) (levels : list value)
  (table : dict (option Q)) (n : Normalize) (size_range : Q * Q) :
  SizeMap.numeric_mapping plotter data (Some (STuple [lo; hi])) norm
  = Ok (levels, table, n, size_range) ->
  (lo <= hi)%Q ->
  let self := SizeMap.Build (Some numeric) (Some levels) (Some table)
                            (Some (NObject n)) (Some (STuple [lo; hi]))
                            (Some size_range) in
  (forall key t, dict_get table key = None -> norm_call n key = Ok t ->
     SizeMap._lookup_single self key
     = Ok ((fun t => lo + t * (hi - lo))%Q <$> t))
  /\ (forall level, level ∈ levels ->
        exists t, norm_call n level = Ok t
          /\ SizeMap._lookup_single self level
             = Ok ((fun t => lo + t * (hi - lo))%Q <$> t)).
Proof.
  unfold SizeMap.numeric_mapping.
  destruct (np_sort _) as [lv|] eqn:Hsort; cbn; [|done].
  destruct (match norm with None => _ | Some _ => _ end) as [n0|]; cbn; [|done].
  destruct (if negb (scaled (with_clip n0)) then _ else _) as [n1|]; cbn; [|done].
  destruct (mapM (norm_call n1) lv) as [scaled_sizes|] eqn:Hsc; cbn; [|done].
  intros [= <- <- <- <-] Hle. split.
  - intros key t Hget Ht. rewrite Hget, Ht. by rewrite ptp_ascending.
  - assert (Hd : distinct_keys lv).
    { apply distinct_keys_NoDup. rewrite (np_sort_Permutation _ _ Hsort).
      eapply sublist_NoDup; [apply unique_from_NoDup|].
      apply fmap_sublist, filter_sublist. }
    intros level [i Hi]%list_elem_of_lookup.
    apply mapM_result_inv in Hsc.
    destruct (Forall2_lookup_l _ _ _ _ _ Hsc Hi) as (t & Ht & Hn).
    exists t. split; [done|].
    rewrite (dict_get_dict_of_zip lv _ i level
               ((fun t => lo + t * (hi - lo))%Q <$> t)); [done..|].
    by rewrite list_lookup_fmap, Ht.
Qed.

(** X22: a size mapping that is built as categorical (or datetime) keeps no
    norm, so the lookup of a key outside its table raises a [TypeError]; it
    does not fall back to a default. *)
Theorem size_categorical_lookup_absent (sizes : option sizes_spec)
  (order : option (list value)) (norm : option norm_spec) (w w' : world)
  (self : SizeMap.t) (table : dict (option Q)) (key : value) :
  SizeMap.__init__ sizes order norm w = Ok (self, w') ->
  SizeMap.map_type self <> Some numeric ->
  SizeMap.lookup_table self = Some table ->
  dict_get table key = None ->
  SizeMap._lookup_single self key = Raise TypeError.
Proof.
  intros H Hty Htab Hget. unfold SizeMap.__init__ in H.
  apply bind_Ok in H as (p & w1 & Hp & H). run_prim Hp.
  apply bind_Ok in H as (pd & w1 & Hr & H). run_prim Hr.
  destruct (forallb isna _); [by run_prim H|].
  apply bind_Ok in H as (ty & w1 & Hv & H). run_prim Hv.
  assert (Hnorm : SizeMap.infer_map_type norm sizes ty <> numeric -> norm = None).
  { unfold SizeMap.infer_map_type. by destruct norm. }
  destruct (SizeMap.infer_map_type norm sizes ty) eqn:Hmt.
  - apply bind_Ok in H as ([[[lv tb] n] rg] & w1 & Hm & H). run_prim Hm. run_prim H.
    by cbn in Hty.
  - apply bind_Ok in H as ([lv tb] & w1 & Hm & H). run_prim Hm. run_prim H.
    cbn in Htab. injection Htab as <-.
    unfold SizeMap._lookup_single. cbn. rewrite Hget. by rewrite Hnorm.
  - apply bind_Ok in H as ([lv tb] & w1 & Hm & H). run_prim Hm. run_prim H.
    cbn in Htab. injection Htab as <-.
    unfold SizeMap._lookup_single. cbn. rewrite Hget. by rewrite Hnorm.
Qed.
End MappingFacts.
Lemma hue_categorical_mapping_list_witness :
  categorical_order (Vector DObject [VStr "b"; VStr "a"; VStr "b"]) None
  = Ok [VStr "b"; VStr "a"]
  /\ length [red; green] = length [VStr "b"; VStr "a"]
  /\ (distinct_keys [VStr "b"; VStr "a"] ->
      forall i level c,
        [VStr "b"; VStr "a"] !! i = Some level -> [red; green] !! i = Some c ->
        HueMapping._lookup_single
          (HueMapping.Build (Some categorical) (Some [VStr "b"; VStr "a"])
                            (Some [(VStr "b", red); (VStr "a", green)])
                            (Some (PList [red; green])) None None) level
        = Ok c).
Proof.
  apply (hue_categorical_mapping_list
           (Vector DObject [VStr "b"; VStr "a"; VStr "b"]) [red; green] None).
  reflexivity.
Defined.

Lemma size_categorical_mapping_list_witness :
  (length [2%Q; 1%Q] <> length [VStr "b"; VStr "a"] ->
   exists msg,
     SizeMapping.categorical_mapping
       abc_plotter (Vector DObject [VStr "b"; VStr "a"; VStr "b"])
       (Some (SList [2%Q; 1%Q])) None
     = Raise (ValueError msg))
  /\ (length [2%Q; 1%Q] = length [VStr "b"; VStr "a"] ->
      exists table,
        SizeMapping.categorical_mapping
          abc_plotter (Vector DObject [VStr "b"; VStr "a"; VStr "b"])
          (Some (SList [2%Q; 1%Q])) None
        = Ok ([VStr "b"; VStr "a"], table)
        /\ (distinct_keys [VStr "b"; VStr "a"] ->
            forall i level s,
              [VStr "b"; VStr "a"] !! i = Some level ->
              [2%Q; 1%Q] !! i = Some s ->
              dict_get table level = Some s)).
Proof.
  apply (size_categorical_mapping_list
           abc_plotter (Vector DObject [VStr "b"; VStr "a"; VStr "b"])).
  reflexivity.
Defined.

Lemma size_numeric_lookup_consistent_witness :
  exists levels table n size_range,
    SizeMap.numeric_mapping abc_plotter (Vector DNumeric [VInt 4; VInt 0; VInt 2])
                            (Some (STuple [1%Q; 3%Q]))
                            (Some (NTuple (VInt 0) (VInt 4)))
    = Ok (levels, table, n, size_range)
    /\ (1 <= 3)%Q
    /\ let self := SizeMap.Build (Some numeric) (Some levels) (Some table)
                                 (Some (NObject n)) (Some (STuple [1%Q; 3%Q]))
                                 (Some size_range) in
       (forall key t, dict_get table key = None -> norm_call n key = Ok t ->
          SizeMap._lookup_single self key
          = Ok ((fun t => 1 + t * (3 - 1))%Q <$> t))
       /\ (forall level, level ∈ levels ->
             exists t, norm_call n level = Ok t
               /\ SizeMap._lookup_single self level
                  = Ok ((fun t => 1 + t * (3 - 1))%Q <$> t)).
Proof.
  do 4 eexists. split; [vm_compute; reflexivity|].
  split; [discriminate|].
  apply (size_numeric_lookup_consistent
           abc_plotter (Vector DNumeric [VInt 4; VInt 0; VInt 2]) 1 3
           (Some (NTuple (VInt 0) (VInt 4)))).
  - vm_compute. reflexivity.
  - discriminate.
Defined.

Lemma size_categorical_lookup_absent_witness :
  exists self w' table,
    SizeMap.__init__ None None None size_cat_world = Ok (self, w')
    /\ SizeMap.map_type self <> Some numeric
    /\ SizeMap.lookup_table self = Some table
    /\ dict_get table (VStr "medium") = None
    /\ SizeMap._lookup_single self (VStr "medium") = Raise TypeError.
Proof.
  do 3 eexists. split; [vm_compute; reflexivity|].
  split; [discriminate|]. split; [reflexivity|]. split; [reflexivity|].
  eapply (size_categorical_lookup_absent None None None size_cat_world size_cat_world).
  - vm_compute. reflexivity.
  - discriminate.
  - reflexivity.
  - reflexivity.
Defined.
(** ** The plotter: levels, converted data, iteration, scaling *)

Section PlotterFacts.
Context `{Mpl : Matplotlib} `{Rt : Runtime}.

(** The record of levels after a refresh from the mappings. *)
Lemma refreshed_lookup (p : VectorPlotter) (init : gmap string (option (list value)))
  var :
  map_fold (fun var _ acc =>
              match map_levels p !! var with
              | Some levels => <[var := levels]> acc
              | None => acc
              end) init (variables p) !! var
  = match variables p !! var, map_levels p !! var with
    | Some _, Some levels => Some levels
    | _, _ => init !! var
    end.
Proof.
  revert var.
  apply (map_fold_weak_ind
           (fun r (m : gmap string (option string)) => forall var,
              r !! var = match m !! var, map_levels p !! var with
                         | Some _, Some levels => Some levels
                         | _, _ => init !! var
                         end)).
  - intros var. by rewrite lookup_empty.
  - intros i x m r Hi IH var. destruct (decide (i = var)) as [->|Hne].
    + rewrite lookup_insert_eq. specialize (IH var). rewrite Hi in IH.
      destruct (map_levels p !! var); [by rewrite lookup_insert_eq|done].
    + rewrite (lookup_insert_ne m) by done.
      destruct (map_levels p !! i); [by rewrite lookup_insert_ne|done].
Qed.

Lemma var_levels_run w :
  exists lv, var_levels w = Ok (lv, World (heap w) (set_var_levels lv (self w)))
    /\ forall var,
         lv !! var = match variables (self w) !! var, map_levels (self w) !! var with
                     | Some _, Some levels => Some levels
                     | _, _ => _var_levels (self w) !! var
                     end.
Proof.
  exists (map_fold (fun var _ acc =>
                      match map_levels (self w) !! var with
                      | Some levels => <[var := levels]> acc
                      | None => acc
                      end) (_var_levels (self w)) (variables (self w))).
  split; [reflexivity|]. intros var. apply refreshed_lookup.
Qed.

(** X23: reading [var_levels] records, for every assigned variable with a
    mapping, the levels of the mapping, and keeps what was recorded for the
    other names; a second read returns the same record and leaves the state
    as the first did. *)
Theorem var_levels_refresh (w : world) :
  exists lv w1,
    var_levels w = Ok (lv, w1)
    /\ heap w1 = heap w /\ _var_levels (self w1) = lv
    /\ (forall var,
          lv !! var = match variables (self w) !! var, map_levels (self w) !! var with
                      | Some _, Some levels => Some levels
                      | _, _ => _var_levels (self w) !! var
                      end)
    /\ var_levels w1 = Ok (lv, w1).
Proof.
  destruct (var_levels_run w) as (lv & Hrun & Hlv).
  exists lv, (World (heap w) (set_var_levels lv (self w))).
  split_and!; [done..|].
  destruct (var_levels_run (World (heap w) (set_var_levels lv (self w))))
    as (lv' & Hrun' & Hlv').
  assert (lv' = lv) as ->.
  { apply map_eq. intros var. rewrite Hlv'. cbn. rewrite !Hlv.
    by destruct (variables (self w) !! var), (map_levels (self w) !! var). }
  rewrite Hrun'. by destruct w as [h []].
Qed.

Lemma var_levels_keeps w lv w1 :
  var_levels w = Ok (lv, w1) ->
  heap w1 = heap w /\ has_ax (self w1) = has_ax (self w)
  /\ _comp_data (self w1) = _comp_data (self w)
  /\ plot_data (self w1) = plot_data (self w)
  /\ variables (self w1) = variables (self w)
  /\ var_types (self w1) = var_types (self w)
  /\ _var_ordered (self w1) = _var_ordered (self w)
  /\ _var_levels (self w1) = lv.
Proof.
  destruct (var_levels_run w) as (lv0 & Hrun & _). rewrite Hrun.
  by intros [= <- <-].
Qed.

Lemma comp_data_var_keeps var c w c' w1 :
  comp_data_var var c w = Ok (c', w1) ->
  heap w1 = heap w /\ has_ax (self w1) = has_ax (self w)
  /\ _comp_data (self w1) = _comp_data (self w)
  /\ plot_data (self w1) = plot_data (self w).
Proof.
  unfold comp_data_var. intros H.
  apply bind_Ok in H as (p & w0 & Hp & H). run_prim Hp.
  destruct (bool_decide _); [|by run_prim H].
  apply bind_Ok in H as (pd & w0 & Hr & H). run_prim Hr.
  apply bind_Ok in H as (orig & w0 & Ho & H). run_prim Ho.
  apply bind_Ok in H as (lv & w0 & Hl & H).
  apply bind_Ok in H as (cc & w2 & Hc & H). run_prim Hc. run_prim H.
  destruct (bool_decide _); [by run_prim Hl|].
  apply bind_Ok in Hl as (lv0 & w2 & Hv & Hl). run_prim Hl.
  apply var_levels_keeps in Hv as (H1 & H2 & H3 & H4 & _). by split_and!.
Qed.

(** X24: the converted data are computed once: after a read of [comp_data], a
    second read returns the same table object and leaves the state as it is.
    Without axes the plot data itself is returned, not a copy. *)
Theorem comp_data_cached (w w1 : world) (l : loc) :
  comp_data w = Ok (l, w1) ->
  comp_data w1 = Ok (l, w1)
  /\ (has_ax (self w) = false -> l = plot_data (self w) /\ w1 = w).
Proof.
  unfold comp_data at 1. intros H.
  apply bind_Ok in H as (p & w0 & Hp & H). run_prim Hp.
  destruct (has_ax (self w)) eqn:Hax; cbn in H.
  - split; [|done]. destruct (_comp_data (self w)) as [c|] eqn:Hc.
    + run_prim H. unfold comp_data, mbind, M_bind, get_self. by rewrite Hax, Hc.
    + apply bind_Ok in H as (pd & w0 & Hr & H). run_prim Hr.
      apply bind_Ok in H as (c1 & w2 & H1 & H).
      apply bind_Ok in H as (c2 & w3 & H2 & H).
      apply bind_Ok in H as (l' & w4 & Ha & H). run_prim Ha.
      apply bind_Ok in H as (u & w4 & Hm & H). run_prim Hm. run_prim H.
      apply comp_data_var_keeps in H1 as (_ & Hax1 & _).
      apply comp_data_var_keeps in H2 as (_ & Hax2 & _).
      unfold comp_data, mbind, M_bind, get_self. cbn.
      by rewrite Hax2, Hax1, Hax.
  - run_prim H. split; [|done].
    unfold comp_data, mbind, M_bind, get_self. by rewrite Hax.
Qed.
End PlotterFacts.
Section IterExtra.
Context `{Mpl : Matplotlib} `{Rt : Runtime}.

Lemma iter_data_setup_no_grouping (dropna : bool) (w : world) (t : table) :
  heap w !! plot_data (self w) = Some t ->
  exists lv,
    iter_data_setup GNone false false dropna w
    = Ok (([], (if dropna then length (heap w) else plot_data (self w)), lv),
          World (if dropna then heap w ++ [table_dropna t] else heap w)
                (set_var_levels lv (self w))).
Proof.
  intros Ht. unfold iter_data_setup. cbn [List.filter].
  destruct dropna.
  - destruct (var_levels_run (World (heap w ++ [table_dropna t]) (self w)))
      as (lv & Hlv & _).
    exists lv.
    erewrite bind_run; [|reflexivity].
    erewrite bind_run; [|reflexivity].
    erewrite bind_run; [|erewrite bind_run; [reflexivity|by apply read_run]].
    erewrite bind_run; [|exact Hlv].
    erewrite bind_run; reflexivity.
  - destruct (var_levels_run w) as (lv & Hlv & _). exists lv.
    erewrite bind_run; [|reflexivity].
    erewrite bind_run; [|reflexivity].
    erewrite bind_run; [|reflexivity].
    erewrite bind_run; [|exact Hlv].
    erewrite bind_run; reflexivity.
Qed.

(** X25: without grouping variables and facets, [iter_data] on the plot data
    returns and yields exactly one pair: the empty key with a new table that
    holds the plot data, less the rows with a missing cell when [dropna] is
    set. The plot data stay as they are. *)
Theorem iter_data_no_grouping (reverse allow_empty dropna : bool) (w : world)
  (t : table) :
  heap w !! plot_data (self w) = Some t ->
  exists l w',
    iter_data GNone reverse false false allow_empty dropna w = Ok ([(∅, l)], w')
    /\ heap w' !! l = Some (if dropna then table_dropna t else t)
    /\ l <> plot_data (self w)
    /\ heap w' !! plot_data (self w) = Some t.
Proof.
  intros Ht. pose proof (lookup_lt_Some _ _ _ Ht) as Hlt.
  destruct (iter_data_setup_no_grouping dropna w t Ht) as (lv & Hsetup).
  unfold iter_data. rewrite (bind_run _ _ _ _ _ Hsetup).
  destruct dropna.
  - erewrite bind_run.
    2:{ apply read_run. cbn. by rewrite lookup_app_r, Nat.sub_diag by lia. }
    erewrite bind_run; [|reflexivity].
    eexists _, _. split; [reflexivity|]. cbn. split_and!.
    + rewrite lookup_app_r; rewrite length_app; cbn; [|lia].
      by replace (length (heap w) + 1 - (length (heap w) + 1))%nat with 0%nat by lia.
    + rewrite length_app. cbn. unfold loc in *. lia.
    + by rewrite !lookup_app_l by (rewrite ?length_app; lia).
  - erewrite bind_run; [|by apply read_run].
    erewrite bind_run; [|reflexivity].
    eexists _, _. split; [reflexivity|]. cbn. split_and!.
    + by rewrite lookup_app_r, Nat.sub_diag by lia.
    + unfold loc in *. lia.
    + by rewrite lookup_app_l by lia.
Qed.

Lemma iter_data_setup_dropna gv fcd bf w gvs data levels w1 :
  iter_data_setup gv fcd bf true w = Ok ((gvs, data, levels), w1) ->
  exists t0, heap w1 !! data = Some (table_dropna t0).
Proof.
  unfold iter_data_setup. intros H.
  apply bind_Ok in H as (p & w0 & Hp & H). run_prim Hp.
  apply bind_Ok in H as (d0 & w2 & Hd0 & H).
  apply bind_Ok in H as (d & w3 & Hd & H).
  apply bind_Ok in Hd as (t0 & w4 & Hr & Ha). run_prim Hr. run_prim Ha.
  apply bind_Ok in H as (lv & w4 & Hv & H).
  apply bind_Ok in H as (lv' & w5 & Hc & H).
  exists t0.
  apply grows_var_levels in Hv.
  assert (extends w4 w5) as Hext.
  { destruct fcd; [by apply grows_comp_levels in Hc|by apply grows_ret in Hc]. }
  run_prim H. injection H as -> -> ->.
  eapply extends_lookup; [exact Hext|].
  eapply extends_lookup; [exact Hv|].
  cbn. by rewrite lookup_app_r, Nat.sub_diag by lia.
Qed.

(** X26: with [dropna], no subset that [iter_data] yields has a row with a
    missing cell, whatever the grouping and wherever the data come from. *)
Theorem iter_data_dropna_complete (gv : grouping_arg)
  (reverse from_comp_data by_facet allow_empty : bool) (w w' : world)
  (ys : list (gmap string value * loc)) (y : gmap string value * loc)
  (t' : table) :
  iter_data gv reverse from_comp_data by_facet allow_empty true w = Ok (ys, w') ->
  y ∈ ys -> heap w' !! y.2 = Some t' ->
  Forall (fun r => forallb notnull (rcells r) = true) (rows t').
Proof.
  intros Hrun Hy Ht'.
  apply iter_data_inv in Hrun
    as (gvs & data & levels & w1 & t & Hsetup & Ht & Hcase).
  apply iter_data_setup_dropna in Hsetup as (t0 & Ht0).
  rewrite Ht in Ht0. injection Ht0 as ->.
  assert (Hcomplete : Forall (fun r => forallb notnull (rcells r) = true)
                             (rows (table_dropna t0))).
  { apply List.Forall_forall. by intros r [_ Hr]%List.filter_In. }
  destruct Hcase as [(-> & -> & ->)|(Hne & js & gks & Hjs & Hgks & Hloop)].
  - apply list_elem_of_singleton in Hy as ->. cbn in Ht'.
    rewrite lookup_app_r, Nat.sub_diag in Ht' by lia. by injection Ht' as <-.
  - destruct (iter_groups_run data gvs js allow_empty
                (if reverse then rev (product gks) else product gks) w1 _ Ht)
      as (ys' & ext & Hrun' & Hys & _ & _).
    rewrite Hloop in Hrun'. injection Hrun' as <- ->.
    apply list_elem_of_lookup in Hy as [i Hi].
    destruct (Forall2_lookup_r _ _ _ _ _ Hys Hi) as (key & _ & _ & Hsub).
    cbn in Ht', Hsub. rewrite Ht' in Hsub. injection Hsub as ->.
    unfold subset_of. cbn [rows].
    rewrite List.Forall_forall in *. intros r [Hr _]%List.filter_In.
    by apply Hcomplete.
Qed.

Lemma dom_dict_zip (names : list string) (key : list value) :
  length names = length key ->
  dom (dict_zip names key) = (list_to_set names : gset string).
Proof.
  unfold dict_zip.
  assert (H : forall (m : gmap string value) names key, length names = length key ->
            dom (foldl (fun m kv => <[kv.1 := kv.2]> m) m (zip names key))
            = dom m ∪ (list_to_set names : gset string)).
  { clear. intros m names. revert m.
    induction names as [|n names IH]; intros m [|k key] Hlen; try done.
    - cbn. by rewrite (right_id_L ∅ (∪)).
    - cbn. rewrite IH by (cbn in Hlen; lia).
      by rewrite dom_insert_L, (comm_L (∪) {[n]}), <- (assoc_L (∪)). }
  intros Hlen. rewrite H by done. by rewrite dom_empty_L, (left_id_L ∅ (∪)).
Qed.

Lemma product_length {A} (seqs : list (list A)) key :
  key ∈ product seqs -> length key = length seqs.
Proof.
  revert key. induction seqs as [|s seqs IH]; intros key; cbn.
  - by intros ->%list_elem_of_singleton.
  - intros (x & _ & Hk)%elem_of_flat_map.
    apply list_elem_of_fmap in Hk as (k' & -> & Hk'). cbn. by rewrite (IH k').
Qed.

Lemma iter_data_setup_vars gv fcd bf dn w gvs data levels w1 :
  iter_data_setup gv fcd bf dn w = Ok ((gvs, data, levels), w1) ->
  Forall (fun g => g ∈ dom (variables (self w))) gvs.
Proof.
  unfold iter_data_setup. intros H.
  apply bind_Ok in H as (p & w0 & Hp & H). run_prim Hp.
  apply bind_Ok in H as (d0 & w2 & Hd0 & H).
  apply bind_Ok in H as (d & w3 & Hd & H).
  apply bind_Ok in H as (lv & w4 & Hv & H).
  apply bind_Ok in H as (lv' & w5 & Hc & H). run_prim H. injection H as -> -> ->.
  apply List.Forall_forall. intros g [_ Hg]%List.filter_In.
  by apply bool_decide_eq_true in Hg.
Qed.

Lemma iter_data_setup_in_use gv fcd bf dn w gvs data levels w1 :
  iter_data_setup gv fcd bf dn w = Ok ((gvs, data, levels), w1) ->
  gvs = grouping_vars_in_use (self w) gv bf.
Proof.
  unfold iter_data_setup. intros H.
  apply bind_Ok in H as (p & w0 & Hp & H). run_prim Hp.
  apply bind_Ok in H as (d0 & w2 & Hd0 & H).
  apply bind_Ok in H as (d & w3 & Hd & H).
  apply bind_Ok in H as (lv & w4 & Hv & H).
  apply bind_Ok in H as (lv' & w5 & Hc & H). run_prim H. injection H as -> -> ->.
  by destruct gv.
Qed.

(** X27: every key that [iter_data] yields assigns a level to exactly the
    grouping variables in use. These are all assigned variables of the
    plot; every requested variable that is assigned is among them; and
    without [by_facet] they are requested ones only. *)
Theorem iter_data_keys (gv : grouping_arg)
  (reverse from_comp_data by_facet allow_empty dropna : bool) (w w' : world)
  (ys : list (gmap string value * loc)) :
  iter_data gv reverse from_comp_data by_facet allow_empty dropna w = Ok (ys, w') ->
  Forall (fun y => dom y.1
                   = (list_to_set (grouping_vars_in_use (self w) gv by_facet)
                      : gset string)) ys
  /\ (forall var, var ∈ grouping_vars_in_use (self w) gv by_facet ->
        var ∈ dom (variables (self w)))
  /\ (forall var, var ∈ requested_vars gv -> var ∈ dom (variables (self w)) ->
        var ∈ grouping_vars_in_use (self w) gv by_facet)
  /\ (by_facet = false ->
      forall var, var ∈ grouping_vars_in_use (self w) gv by_facet ->
        var ∈ requested_vars gv).
Proof.
  intros Hrun. split_and!.
  - apply iter_data_inv in Hrun
      as (gvs & data & levels & w1 & t & Hsetup & Ht & Hcase).
    rewrite <- (iter_data_setup_in_use _ _ _ _ _ _ _ _ _ Hsetup).
    destruct Hcase as [(-> & -> & ->)|(Hne & js & gks & Hjs & Hgks & Hloop)].
    + constructor; [|constructor]. cbn. apply dom_empty_L.
    + destruct (iter_groups_run data gvs js allow_empty
                  (if reverse then rev (product gks) else product gks) w1 _ Ht)
        as (ys' & ext & Hrun' & Hys & _ & _).
      rewrite Hloop in Hrun'. injection Hrun' as <- ->.
      apply List.Forall_forall. intros y Hy%list_elem_of_In.
      apply list_elem_of_lookup in Hy as [i Hi].
      destruct (Forall2_lookup_r _ _ _ _ _ Hys Hi) as (key & Hkey & -> & _).
      apply dom_dict_zip.
      apply list_elem_of_lookup_2, list_elem_of_In, List.filter_In in Hkey
        as [Hkey _].
      assert (key ∈ product gks) as Hin.
      { apply list_elem_of_In. destruct reverse; [by apply in_rev in Hkey|done]. }
      rewrite (product_length _ _ Hin).
      unfold grouping_keys_of in Hgks. apply mapM_result_inv in Hgks.
      by apply Forall2_length in Hgks.
  - intros var [_ Hvar]%list_elem_of_In%List.filter_In.
    by apply bool_decide_eq_true in Hvar.
  - intros var Hreq Hvar. unfold grouping_vars_in_use.
    apply list_elem_of_In, List.filter_In. split.
    + destruct by_facet; [apply in_or_app; left|]; by apply list_elem_of_In.
    + by apply bool_decide_eq_true.
  - intros -> var [Hvar _]%list_elem_of_In%List.filter_In.
    by apply list_elem_of_In.
Qed.
End IterExtra.
Section ScalingExtra.
Context `{Mpl : Matplotlib} `{Rt : Runtime}.

Lemma pd_Index_strings (l : list value) :
  forallb is_str l = true -> pd_Index l = l.
Proof. unfold pd_Index. by intros ->. Qed.

Lemma astype_str_strings (l : list value) :
  forallb is_str l = true -> astype_str l = l.
Proof.
  unfold astype_str. induction l as [|x l IH]; [done|]. cbn [forallb map].
  intros [Hx Hl]%andb_true_iff. rewrite IH by done. by destruct x.
Qed.

(** X28: a call of [scale_categorical] that returns was for the axis "x" or
    "y", and leaves the axis an assigned variable of type categorical with
    its levels recorded. Without a formatter the recorded levels are all
    strings. An explicit order is recorded as [pd.Index] holds it,
    formatted: an order of strings without a formatter is recorded as
    given. *)
Theorem scale_categorical_records (axis : string) (order : option (list value))
  (formatter : option (value -> value)) (w w' : world) (u : unit) :
  scale_categorical axis order formatter w = Ok (u, w') ->
  (axis = "x" \/ axis = "y")
  /\ var_types (self w') !! axis = Some categorical
  /\ is_Some (variables (self w') !! axis)
  /\ exists levels,
       _var_levels (self w') !! axis = Some (Some levels)
       /\ (formatter = None -> Forall (fun x => exists s, x = VStr s) levels)
       /\ (forall o, order = Some o ->
             levels = match formatter with
                      | Some f => pd_Index (map f (pd_Index o))
                      | None => astype_str (pd_Index o)
                      end)
       /\ (forall o, order = Some o -> formatter = None ->
             forallb is_str o = true -> levels = o).
Proof.
  unfold scale_categorical. intros H.
  apply bind_Ok in H as (u0 & w0 & Hc & H). run_prim Hc.
  assert (Haxis : axis = "x" \/ axis = "y").
  { unfold _check_argument in Hc. cbn in Hc.
    destruct (String.eqb axis "x") eqn:Ex; [apply String.eqb_eq in Ex; by left|].
    destruct (String.eqb axis "y") eqn:Ey; [apply String.eqb_eq in Ey; by right|].
    done. }
  split; [done|]. clear Hc.
  apply bind_Ok in H as (p & w0 & Hp & H). run_prim Hp.
  apply bind_Ok in H as (u1 & w1 & Hfirst & H).
  assert (Hvar1 : is_Some (variables (self w1) !! axis)).
  { destruct (bool_decide (axis ∈ dom (variables (self w)))) eqn:Hin.
    - run_prim Hfirst. apply bool_decide_eq_true in Hin. by apply elem_of_dom.
    - apply bind_Ok in Hfirst as (u2 & w2 & Hm1 & Hfirst). run_prim Hm1.
      apply bind_Ok in Hfirst as (u3 & w3 & Hm2 & Hfirst). run_prim Hm2.
      apply bind_Ok in Hfirst as (t1 & w4 & Hr & Hfirst). run_prim Hr.
      run_prim Hfirst. cbn. rewrite lookup_insert_eq. eauto. }
  clear Hfirst.
  apply bind_Ok in H as (p2 & w2 & Hp & H). run_prim Hp.
  apply bind_Ok in H as (vt & w2 & Hvt & H). run_prim Hvt.
  apply bind_Ok in H as (u2 & w2 & Hsort & H).
  assert (Hvar2 : is_Some (variables (self w2) !! axis)).
  { destruct (VariableType_eqb vt numeric).
    - apply bind_Ok in Hsort as (t1 & w3 & Hr & Hsort). run_prim Hr.
      apply bind_Ok in Hsort as (st & w3 & Hs & Hsort). run_prim Hs.
      apply bind_Ok in Hsort as (l & w3 & Ha & Hsort). run_prim Ha.
      run_prim Hsort. done.
    - by run_prim Hsort. }
  clear Hsort.
  apply bind_Ok in H as (p3 & w3 & Hp & H). run_prim Hp.
  apply bind_Ok in H as (t & w3 & Hrd & H). run_prim Hrd.
  apply bind_Ok in H as (cat_data & w3 & Hg & H). run_prim Hg.
  apply bind_Ok in H as (u3 & w3 & Hm & H). run_prim Hm.
  apply bind_Ok in H as (lv & w3 & Hord & H). run_prim Hord.
  set (formatted := match formatter with
                    | Some f => pd_Index (map f (pd_Index lv))
                    | None => astype_str (pd_Index lv)
                    end).
  assert (Hrest : exists cd,
    (levels ← var_levels;
     modify_self (set_var_levels (<[axis := Some formatted]> levels));;
     p ← get_self;
     modify_self (set_var_types (<[axis := categorical]> (var_types p)));;
     t ← read (plot_data p);
     write (plot_data p) (set_column t axis cd))
      (World (heap w2) (set_var_ordered
                          (<[axis := negb (is_None order)
                                     || is_categorical_dtype cat_data]>
                             (_var_ordered (self w2))) (self w2)))
    = Ok (u, w')).
  { destruct formatter; eexists; exact H. }
  clear H. destruct Hrest as (cd & H).
  apply bind_Ok in H as (levels & w3 & Hv & H).
  apply var_levels_keeps in Hv as (_ & _ & _ & _ & Hvars & _).
  apply bind_Ok in H as (u4 & w4 & Hm & H). run_prim Hm.
  apply bind_Ok in H as (p4 & w4 & Hp & H). run_prim Hp.
  apply bind_Ok in H as (u5 & w4 & Hm & H). run_prim Hm.
  apply bind_Ok in H as (t2 & w4 & Hrd2 & H). run_prim Hrd2.
  run_prim H. cbn. split_and!.
  - by rewrite lookup_insert_eq.
  - by rewrite Hvars.
  - exists formatted. split_and!.
    + by rewrite lookup_insert_eq.
    + intros ->. unfold formatted, astype_str.
      apply List.Forall_forall. intros x (y & <- & _)%in_map_iff. eauto.
    + intros o ->. cbn in Hord. injection Hord as <-. done.
    + intros o -> -> Hstr. cbn in Hord. injection Hord as <-.
      unfold formatted. rewrite pd_Index_strings by done.
      by apply astype_str_strings.
Qed.
End ScalingExtra.
(** A formatter reaches the categories of a categorical column, not its
    missing cells. *)
Lemma map_vector_keeps_missing :
  map_vector marked
    (Vector (DCategory [VStr "a"; VStr "b"]) [VStr "b"; VNaN; VStr "a"])
  = Vector (DCategory [VStr "a!"; VStr "b!"]) [VStr "b!"; VNaN; VStr "a!"].
Proof. reflexivity. Qed.

(** With the sample runtime, an explicit order of a number and [None] is
    recorded as the float Index holds it. *)
Lemma scale_categorical_order_coerced :
  exists w',
    scale_categorical "x" (Some [VInt 20; VNone]) None abc_world = Ok (tt, w')
    /\ _var_levels (self w') !! "x"
       = Some (Some (astype_str [VFloat 20; VNaN])).
Proof. eexists. split; vm_compute; reflexivity. Qed.

Lemma comp_data_cached_witness :
  exists l w1,
    comp_data axes_world = Ok (l, w1)
    /\ comp_data w1 = Ok (l, w1)
    /\ (has_ax (self axes_world) = false ->
        l = plot_data (self axes_world) /\ w1 = axes_world).
Proof.
  destruct (comp_data axes_world) as [[l w1]|e] eqn:Hrun;
    [|vm_compute in Hrun; discriminate].
  exists l, w1. split; [reflexivity|].
  exact (comp_data_cached axes_world w1 l Hrun).
Defined.

Lemma iter_data_no_grouping_witness :
  exists l w',
    iter_data GNone false false false false true nan_world = Ok ([(∅, l)], w')
    /\ heap w' !! l = Some (table_dropna nan_table)
    /\ l <> plot_data (self nan_world)
    /\ heap w' !! plot_data (self nan_world) = Some nan_table.
Proof.
  apply (iter_data_no_grouping false false true nan_world nan_table).
  reflexivity.
Defined.

Lemma iter_data_dropna_complete_witness :
  exists ys w',
    iter_data (GStr "hue") false false true true true abc_world = Ok (ys, w')
    /\ forall y t', y ∈ ys -> heap w' !! y.2 = Some t' ->
         Forall (fun r => forallb notnull (rcells r) = true) (rows t').
Proof.
  destruct (iter_data (GStr "hue") false false true true true abc_world)
    as [[ys w']|e] eqn:Hrun; [|vm_compute in Hrun; discriminate].
  exists ys, w'. split; [reflexivity|]. intros y t'.
  exact (iter_data_dropna_complete (GStr "hue") false false true true
                                   abc_world w' ys y t' Hrun).
Defined.

Lemma iter_data_keys_witness :
  exists ys w',
    iter_data (GList ["hue"; "size"]) false false true true true abc_world
    = Ok (ys, w')
    /\ Forall (fun y => dom y.1
                        = (list_to_set
                             (grouping_vars_in_use (self abc_world)
                                                   (GList ["hue"; "size"]) true)
                           : gset string)) ys
    /\ (forall var,
          var ∈ grouping_vars_in_use (self abc_world) (GList ["hue"; "size"]) true ->
          var ∈ dom (variables (self abc_world)))
    /\ (forall var, var ∈ requested_vars (GList ["hue"; "size"]) ->
          var ∈ dom (variables (self abc_world)) ->
          var ∈ grouping_vars_in_use (self abc_world) (GList ["hue"; "size"]) true)
    /\ (true = false ->
        forall var,
          var ∈ grouping_vars_in_use (self abc_world) (GList ["hue"; "size"]) true ->
          var ∈ requested_vars (GList ["hue"; "size"])).
Proof.
  destruct (iter_data (GList ["hue"; "size"]) false false true true true abc_world)
    as [[ys w']|e] eqn:Hrun; [|vm_compute in Hrun; discriminate].
  exists ys, w'. split; [reflexivity|].
  exact (iter_data_keys (GList ["hue"; "size"]) false false true true true
                        abc_world w' ys Hrun).
Defined.

Lemma scale_categorical_records_witness :
  exists u w',
    scale_categorical "x" (Some [VStr "b"; VStr "a"]) None nan_world = Ok (u, w')
    /\ ("x" = "x" \/ "x" = "y")
    /\ var_types (self w') !! "x" = Some categorical
    /\ is_Some (variables (self w') !! "x")
    /\ exists levels,
         _var_levels (self w') !! "x" = Some (Some levels)
         /\ (@None (value -> value) = None ->
             Forall (fun x => exists s, x = VStr s) levels)
         /\ (forall o, Some [VStr "b"; VStr "a"] = Some o ->
               levels = astype_str (pd_Index o))
         /\ (forall o, Some [VStr "b"; VStr "a"] = Some o ->
               @None (value -> value) = None ->
               forallb is_str o = true -> levels = o).
Proof.
  destruct (scale_categorical "x" (Some [VStr "b"; VStr "a"]) None nan_world)
    as [[u w']|e] eqn:Hrun; [|vm_compute in Hrun; discriminate].
  exists u, w'. split; [reflexivity|].
  exact (scale_categorical_records "x" (Some [VStr "b"; VStr "a"]) None
                                   nan_world w' u Hrun).
Defined.
